(** * S1_NRB scene search: a shallow embedding of [S1_NRB/search.py]

    The Python module searches scene catalogs, reconciles reprocessing
    duplicates, selects scenes per MGRS tile and checks that no neighbour
    of a scene in its data take is missing.  This file embeds the functions
    of that module as Rocq functions and proves properties of them.

    Conventions of the embedding:
    - a Python call that may raise returns [res A]: [Ok a] or [Raise e];
    - [str] is [string]; Python compares, sorts and hashes strings by code
      point, which on [string] is [String.le];
    - the file system, the catalog servers and the libraries outside the
      module ([pyroSAR], [asf_search], [datetime], [S1_NRB.ancillary],
      [S1_NRB.tile_extraction]) are section variables;
    - a [while] loop over list indices works on the list suffix that
      starts at the index; a loop that is not a recursion on its data
      takes fuel, and is shown to end within the fuel it is given. *)

From stdpp Require Import base option list sorting strings gmap.
From Stdlib Require Import ZArith Lia Ascii.

Set Warnings "-register-all,-clear-no-such-hyp".

Local Open Scope Z_scope.

(** ** Python prelude *)

Module Py.

(** The exceptions the module raises or lets through. *)
Inductive exn : Type :=
| APIError (msg : string)          (* pystac_client.exceptions.APIError *)
| TypeError (msg : string)
| RuntimeError (args : list string)
| ValueError
| IndexError
| KeyError (key : string)
| AttributeError                   (* None.groups(), None.end(), ... *)
| OSError (path : string)
| OtherError (name : string)       (* any other exception of a callee *)
| FuelExhausted.                   (* artefact of the model: a loop ran
                                      out of fuel; no Python counterpart *)

Inductive res (A : Type) : Type :=
| Ok (a : A)
| Raise (e : exn).
Arguments Ok {A} a.
Arguments Raise {A} e.

Definition bind {A B} (m : res A) (k : A → res B) : res B :=
  match m with
  | Ok a => k a
  | Raise e => Raise e
  end.

#[global] Instance res_ret : MRet res := @Ok.
#[global] Instance res_bind : MBind res := λ A B k m, bind m k.

#[global] Instance res_fmap : FMap res := λ A B f m,
  match m with Ok a => Ok (f a) | Raise e => Raise e end.

(** [[f(x) for x in l]] for an [f] that may raise: left to right, the
    first exception ends the comprehension. *)
Fixpoint for_each {A B} (f : A → res B) (l : list A) : res (list B) :=
  match l with
  | [] => Ok []
  | x :: l' => y ← f x; ys ← for_each f l'; Ok (y :: ys)
  end.

(** [l[i]] for a non-negative index. *)
Definition getitem {A} (l : list A) (i : nat) : res A :=
  match l !! i with
  | Some x => Ok x
  | None => Raise IndexError
  end.

(** [max(l)] and [min(l)]: [ValueError] on the empty list; of equal
    elements the first is returned, as Python does. *)
Section extremum.
Context {A : Type} (le : A → A → bool).

Definition max_fold (m x : A) : A := if le x m then m else x.
Definition min_fold (m x : A) : A := if le m x then m else x.

Definition max (l : list A) : res A :=
  match l with
  | [] => Raise ValueError
  | x :: l' => Ok (foldl max_fold x l')
  end.

Definition min (l : list A) : res A :=
  match l with
  | [] => Raise ValueError
  | x :: l' => Ok (foldl min_fold x l')
  end.
End extremum.

(** [l.index(x)]: the first position of [x], [ValueError] if absent. *)
Fixpoint index `{EqDecision A} (l : list A) (x : A) : res nat :=
  match l with
  | [] => Raise ValueError
  | y :: l' => if decide (y = x) then Ok 0%nat else S <$> index l' x
  end.

(** [del l[i]] for an index in range. *)
Definition delitem {A} (l : list A) (i : nat) : list A := delete i l.

(** [sorted(l)] on strings. The order is total, so the sorted list is
    unique and any sorting algorithm yields it. *)
Definition sorted (l : list string) : list string := merge_sort String.le l.

(** [sorted(list(set(l)))]. *)
Definition sorted_set (l : list string) : list string :=
  sorted (elements (list_to_set l : gset string)).

(** [sep.join(l)]. *)
Fixpoint join (sep : string) (l : list string) : string :=
  match l with
  | [] => ""
  | [x] => x
  | x :: l' => x +:+ sep +:+ join sep l'
  end.

(** String order as Python's [<], [<=] on [str]. *)
Definition str_lt (a b : string) : bool := String.ltb a b.
Definition str_le (a b : string) : bool := String.leb a b.

(** [s.startswith(p)] and the suffix after a prefix of length [n]. *)
Fixpoint startswith (p s : string) : bool :=
  match p, s with
  | EmptyString, _ => true
  | String a p', String b s' => if decide (a = b) then startswith p' s' else false
  | String _ _, EmptyString => false
  end.

Fixpoint skip (n : nat) (s : string) : string :=
  match n, s with
  | O, _ => s
  | S n', String _ s' => skip n' s'
  | S _, EmptyString => EmptyString
  end.

(** [os.path.basename(p)]: what follows the last slash. *)
Fixpoint basename_from (cur s : string) : string :=
  match s with
  | EmptyString => cur
  | String c s' =>
      if decide (c = "/"%char) then basename_from s' s' else basename_from cur s'
  end.

Definition basename (p : string) : string := basename_from p p.

(** A value that Python accepts as a scalar or as a list (or tuple). *)
Inductive arg (A : Type) : Type :=
| One (a : A)
| Many (l : list A).
Arguments One {A} a.
Arguments Many {A} l.

#[global] Instance arg_eq_dec `{EqDecision A} : EqDecision (arg A).
Proof. solve_decision. Defined.

(** [datetime.datetime], naive: a count of seconds; ordered as [Z]. *)
Definition datetime : Type := Z.

(** [timedelta(minutes=n)] *)
Definition minutes (n : Z) : Z := 60 * n.

(** A date given as [str] or as [datetime.datetime]. *)
Inductive date : Type :=
| DateStr (s : string)
| DateTime (t : datetime).

(** What the program does to its surroundings that the properties speak
    of: calls made to a server, and seconds spent in [time.sleep]. *)
Record world : Type := World {
  calls : nat;
  slept : Z
}.

Definition call (w : world) : world := World (S (calls w)) (slept w).
Definition sleep (seconds : Z) (w : world) : world :=
  World (calls w) (slept w + seconds).

(** ['{:06X}'.format(v)] for an [int]: upper-case hexadecimal, filled
    with zeros to six characters, the sign counting among them. *)
Definition hex_digit (d : N) : ascii :=
  if (d <? 10)%N then ascii_of_N (48 + d) else ascii_of_N (55 + d).

Fixpoint hex_pos (fuel : nat) (n : N) (acc : string) : string :=
  match fuel with
  | O => acc
  | S fuel' =>
      let acc' := String (hex_digit (n mod 16)) acc in
      if (n / 16 =? 0)%N then acc' else hex_pos fuel' (n / 16) acc'
  end.

Definition hex_upper (n : N) : string := hex_pos (S (N.to_nat (N.log2 n))) n "".

Fixpoint zeros (n : nat) : string :=
  match n with
  | O => ""
  | S n' => String "0" (zeros n')
  end.

Definition zfill (width : nat) (s : string) : string :=
  zeros (width - String.length s) +:+ s.

Definition format_06X (v : Z) : string :=
  if v <? 0 then "-" +:+ zfill 5 (hex_upper (Z.to_N (- v)))
  else zfill 6 (hex_upper (Z.to_N v)).

(** [re.search(needle, s).end()] for a literal [needle]: the position
    after its first occurrence in [s]. *)
Fixpoint find_end (needle s : string) : option nat :=
  if startswith needle s then Some (String.length needle)
  else match s with
       | EmptyString => None
       | String _ s' => S <$> find_end needle s'
       end.

(** [s[:n]] *)
Fixpoint upto (n : nat) (s : string) : string :=
  match n, s with
  | O, _ => EmptyString
  | S n', String c s' => String c (upto n' s')
  | S _, EmptyString => EmptyString
  end.

(** [s.replace(old, new)] for a non-empty [old]: left to right, matches
    do not overlap. [pending] counts the characters of the current match
    still to be passed over. *)
Fixpoint replace_from (old new : string) (pending : nat) (s : string)
  : string :=
  match s with
  | EmptyString => EmptyString
  | String c s' =>
      match pending with
      | S k => replace_from old new k s'
      | O =>
          if startswith old s
          then new +:+ replace_from old new (String.length old - 1) s'
          else String c (replace_from old new 0 s')
      end
  end.

Definition replace (old new s : string) : string := replace_from old new 0 s.

(** [d[key]] on a dictionary held as a list of items. *)
Fixpoint dict_get {V} (d : list (string * V)) (key : string) : res V :=
  match d with
  | [] => Raise (KeyError key)
  | (k, v) :: d' => if decide (k = key) then Ok v else dict_get d' key
  end.

(** A newline. *)
Definition nl : string := String "010"%char EmptyString.

(** Order of tuples of strings, as [sorted] uses it. *)
Fixpoint tuple_leb (a b : list string) : bool :=
  match a, b with
  | [], _ => true
  | _ :: _, [] => false
  | x :: a', y :: b' =>
      if String.ltb x y then true
      else if decide (x = y) then tuple_leb a' b'
      else false
  end.

Definition sorted_tuples (l : list (list string)) : list (list string) :=
  merge_sort (λ a b, Is_true (tuple_leb a b)) l.

(** Computations that may raise and that leave a trace [S] of what they
    did. *)
Definition io (S A : Type) : Type := S → res A * S.

#[global] Instance io_ret {S} : MRet (io S) := λ A a s, (Ok a, s).
#[global] Instance io_bind {S} : MBind (io S) := λ A B k m s,
  match m s with
  | (Ok a, s') => k a s'
  | (Raise e, s') => (Raise e, s')
  end.

(** A step that may raise and leaves no trace. *)
Definition pure {S A} (r : res A) : io S A := λ s, (r, s).

(** [for x in l: body(x)], collecting what the bodies yield. *)
Fixpoint for_io {S A B} (body : A → io S B) (l : list A) : io S (list B) :=
  match l with
  | [] => mret []
  | x :: l' => y ← body x; ys ← for_io body l'; mret (y :: ys)
  end.

End Py.

Import Py.

(** ** [class STACArchive] *)

Module STACArchive.

(** *** The pattern of [_filter_duplicates]

    [re.search('([0-9A-Z_]{16})_([0-9T]{15})_([0-9T]{15})', s).groups()].
    Every repetition has a fixed count, so at a given position the match
    is decided left to right without backtracking; [re.search] returns
    the match at the leftmost position that has one. *)

Definition in_range (lo hi c : ascii) : bool :=
  (N_of_ascii lo <=? N_of_ascii c)%N && (N_of_ascii c <=? N_of_ascii hi)%N.

(** [[0-9A-Z_]] *)
Definition token_char (c : ascii) : bool :=
  in_range "0" "9" c || in_range "A" "Z" c || bool_decide (c = "_"%char).

(** [[0-9T]] *)
Definition time_char (c : ascii) : bool :=
  in_range "0" "9" c || bool_decide (c = "T"%char).

(** [cls{n}] at the start of [s]: the matched text and what follows. *)
Fixpoint repeat_class (cls : ascii → bool) (n : nat) (s : string)
  : option (string * string) :=
  match n with
  | O => Some (EmptyString, s)
  | S n' =>
      match s with
      | String c s' =>
          if cls c then
            '(m, r) ← repeat_class cls n' s'; Some (String c m, r)
          else None
      | EmptyString => None
      end
  end.

Definition literal (c : ascii) (s : string) : option string :=
  match s with
  | String d s' => if decide (c = d) then Some s' else None
  | EmptyString => None
  end.

(** The three groups: instrument token, start, stop. *)
Definition triple : Type := string * string * string.

Definition match_here (s : string) : option triple :=
  '(g1, s1) ← repeat_class token_char 16 s;
  s2 ← literal "_" s1;
  '(g2, s3) ← repeat_class time_char 15 s2;
  s4 ← literal "_" s3;
  '(g3, _) ← repeat_class time_char 15 s4;
  Some (g1, g2, g3).

Fixpoint re_search (s : string) : option triple :=
  match match_here s with
  | Some g => Some g
  | None =>
      match s with
      | EmptyString => None
      | String _ s' => re_search s'
      end
  end.

(** [re.search(pattern, os.path.basename(x))] *)
Definition triple_of (x : string) : option triple := re_search (basename x).

(** [....groups()]: [AttributeError] on [None], when the pattern does not
    occur. *)
Definition groups_of (x : string) : res triple :=
  match triple_of x with
  | Some g => Ok g
  | None => Raise AttributeError
  end.

(** [os.path.join(scene, 'manifest.safe')] *)
Fixpoint endswith_slash (s : string) : bool :=
  match s with
  | EmptyString => false
  | String c EmptyString => bool_decide (c = "/"%char)
  | String _ s' => endswith_slash s'
  end.

Definition manifest_path (scene : string) : string :=
  match scene with
  | EmptyString => "manifest.safe"
  | _ => if endswith_slash scene then scene +:+ "manifest.safe"
         else scene +:+ "/manifest.safe"
  end.

Section duplicates.

(** The file system and the XML and date parsers behind
    [_get_proc_time]: the [start] attribute of the [safe:processing]
    element of the manifest at a path, parsed into a [datetime]
    (an integer count of microseconds); an exception when the file or
    the element is missing or the date is malformed. *)
Variable manifest_processing_start : string → res Z.

Definition _get_proc_time (scene : string) : res Z :=
  manifest_processing_start (manifest_path scene).

(** [group[tproc.index(max(tproc))]] for a group of more than one
    scene, [group[0]] otherwise. *)
Definition keep_of (group : list string) : res string :=
  if decide (1 < length group)%nat then
    tproc ← for_each _get_proc_time group;
    m ← Py.max Z.leb tproc;
    k ← index tproc m;
    getitem group k
  else getitem group 0.

(** The inner [while j < len(tmp)]: from [tmp[j:]] collects the scenes
    whose groups equal [match1]; returns them with the suffix at the
    index [j] where the loop ends. *)
Fixpoint collect (match1 : triple) (tmp_j : list string)
  : res (list string * list string) :=
  match tmp_j with
  | [] => Ok ([], [])
  | y :: tmp_j' =>
      match2 ← groups_of y;
      if decide (match1 = match2) then
        '(g, rest) ← collect match1 tmp_j'; Ok (y :: g, rest)
      else Ok ([], tmp_j)
  end.

(** The outer [while i < len(tmp)] on the suffix [tmp[i:]], returning
    what it appends to [keep]. Each round consumes at least [tmp[i]],
    so [len(tmp) - i] rounds of fuel suffice. *)
Fixpoint scan (fuel : nat) (tmp_i : list string) : res (list string) :=
  match tmp_i with
  | [] => Ok []
  | x :: tmp_i' =>
      match fuel with
      | O => Raise FuelExhausted
      | S fuel' =>
          match1 ← groups_of x;
          '(g, tmp_j) ← collect match1 tmp_i';
          k ← keep_of (x :: g);
          keep ← scan fuel' tmp_j;
          Ok (k :: keep)
      end
  end.

Definition _filter_duplicates (scenes : list string) : res (list string) :=
  let tmp := sorted scenes in
  scan (length tmp) tmp.

End duplicates.

(** *** The retry loop

    The loops of [_open_catalog] (counter [i]) and of [select] (counter
    [t]) are the same text:
<<
    i = 1
    while True:
        try:    <call the server>; break
        except pystac_client.exceptions.APIError:
            if i < self.max_tries: i += 1; time.sleep(1)
            else: raise
>>
    [attempt n] is what the server answers to the call number [n] it
    receives (from 0). The loop makes at most [max(1, max_tries)] calls,
    which is the fuel [retry] gives it. *)
Section retry.
Context {A : Type}.
Variable attempt : nat → res A.
Variable max_tries : Z.

Fixpoint retry_loop (fuel : nat) (i : Z) (w : world) : res A * world :=
  match fuel with
  | O => (Raise FuelExhausted, w)
  | S fuel' =>
      let r := attempt (calls w) in
      let w' := call w in
      match r with
      | Ok a => (Ok a, w')
      | Raise (APIError msg) =>
          if i <? max_tries then retry_loop fuel' (i + 1) (sleep 1 w')
          else (Raise (APIError msg), w')
      | Raise e => (Raise e, w')
      end
  end.

Definition retry (w : world) : res A * world :=
  retry_loop (Z.to_nat (Z.max 1 max_tries)) 1 w.
End retry.

(** An answer that the loop retries: an [APIError]. *)
Definition is_APIError (e : exn) : Prop := ∃ msg, e = APIError msg.
Definition transient {A} (r : res A) : Prop := ∃ msg, r = Raise (APIError msg).

(** *** The class *)

(** An item of a search result: its assets, key and [href], in the
    order of the dictionary. *)
Record item : Type := Item { assets : list (string * string) }.

(** The [collections] argument of the constructor. *)
Inductive collections_arg : Type :=
| CollectionsStr (s : string)
| CollectionsList (l : list string)
| CollectionsOther.

(** The [vectorobject] argument of [select]. *)
Inductive vector_arg (Vector : Type) : Type :=
| IsVector (v : Vector)
| NotVector.
Arguments IsVector {Vector} v.
Arguments NotVector {Vector}.

(** The keyword arguments of [select] that make the filter ([pars]). *)
Record query (Vector : Type) : Type := Query {
  sensor : option (arg string);
  product : option (arg string);
  acquisition_mode : option (arg string);
  mindate : option date;
  maxdate : option date;
  frameNumber : option (arg Z);
  vectorobject : option (vector_arg Vector)
}.
Arguments Query {Vector}.
Arguments sensor {Vector}.
Arguments product {Vector}.
Arguments acquisition_mode {Vector}.
Arguments mindate {Vector}.
Arguments maxdate {Vector}.
Arguments frameNumber {Vector}.
Arguments vectorobject {Vector}.

(** The keys of [pars], in the order of [locals()]. *)
Inductive key : Type :=
| Ksensor | Kproduct | Kacquisition_mode | Kmindate | Kmaxdate
| KframeNumber | Kvectorobject.

Definition pars_keys : list key :=
  [Ksensor; Kproduct; Kacquisition_mode; Kmindate; Kmaxdate;
   KframeNumber; Kvectorobject].

(** The CQL2 filter: [{'op': op, 'args': [...]}] over properties and
    values, or over clauses. *)
Inductive operand (coord : Type) : Type :=
| Property (name : string)
| Literal (value : string)
| Polygon (coordinates : list (list (coord * coord))).
Arguments Property {coord} name.
Arguments Literal {coord} value.
Arguments Polygon {coord} coordinates.

Inductive clause (coord : Type) : Type :=
| Op (op : string) (args : list (operand coord))
| Junction (op : string) (args : list (clause coord)).
Arguments Op {coord} op args.
Arguments Junction {coord} op args.


Record extent (coord : Type) : Type := Extent {
  xmin : coord; xmax : coord; ymin : coord; ymax : coord
}.
Arguments xmin {coord}.
Arguments xmax {coord}.
Arguments ymin {coord}.
Arguments ymax {coord}.

Definition lookup_platform (v : string) : res string :=
  if decide (v = "S1A") then Ok "sentinel-1a"
  else if decide (v = "S1B") then Ok "sentinel-1b"
  else Raise (KeyError v).

(** [if isinstance(val, (str, int)): val = [val]] *)
Definition as_list {A} (val : arg A) : list A :=
  match val with
  | One a => [a]
  | Many l => l
  end.

Section instance.
(** The server, the geometry library, the clock format and the file
    system. *)
Variable Client : Type.
Variable Client_open : nat → string → res Client.
Variable coord : Type.
Variable Client_search :
  nat → Client → list string → clause coord → res (list item).
Variable Vector : Type.
(** [vec.reproject(4326); vec.extent] on a clone. *)
Variable extent_4326 : Vector → extent coord.
(** [datetime.strftime(val, '%Y%m%dT%H%M%S')] *)
Variable strftime : datetime → string.
Variable path_exists : string → bool.
Variable realpath : string → string.
Variable manifest_processing_start : string → res Z.

Record t : Type := Self {
  url : string;
  max_tries : Z;
  catalog : Client;
  collections : list string
}.

Definition _open_catalog (url : string) (max_tries : Z) (w : world)
  : res Client * world :=
  retry (λ n, Client_open n url) max_tries w.

Definition __init__ (url : string) (collections : collections_arg)
    (w : world) : res t * world :=
  let max_tries := 300 in
  match _open_catalog url max_tries w with
  | (Raise e, w') => (Raise e, w')
  | (Ok catalog, w') =>
      match collections with
      | CollectionsStr c => (Ok (Self url max_tries catalog [c]), w')
      | CollectionsList l => (Ok (Self url max_tries catalog l), w')
      | CollectionsOther =>
          (Raise (TypeError "'collections' must be of type str or list"), w')
      end
  end.

Definition date_value (val : date) : string :=
  match val with
  | DateStr s => s
  | DateTime t => strftime t
  end.

(** [{'op': '=', ...}] for one value, ['or'] over them otherwise. *)
Definition equals (property : string) (values : list string)
  : clause coord :=
  match (λ value, Op "=" [Property property; Literal value]) <$> values with
  | [a] => a
  | args => Junction "or" args
  end.

(** One round of [for key in pars.keys()]: [None] for [continue],
    otherwise the [arg] appended to [flt['args']]. *)
Definition clause_of (pars : query Vector) (date_strict : bool) (k : key)
  : res (option (clause coord)) :=
  match k with
  | Kmindate =>
      match mindate pars with
      | None => Ok None
      | Some val =>
          let val := date_value val in
          if date_strict then
            Ok (Some (Op ">=" [Property "start_datetime"; Literal val]))
          else
            Ok (Some (Op ">=" [Property "end_datetime"; Literal val]))
      end
  | Kmaxdate =>
      match maxdate pars with
      | None => Ok None
      | Some val =>
          let val := date_value val in
          if date_strict then
            Ok (Some (Op "<=" [Property "end_datetime"; Literal val]))
          else
            Ok (Some (Op "<=" [Property "start_datetime"; Literal val]))
      end
  | Kvectorobject =>
      match vectorobject pars with
      | None => Ok None
      | Some (IsVector vec) =>
          let ext := extent_4326 vec in
          Ok (Some (Op "s_intersects"
                      [Property "geometry";
                       Polygon [[(xmin ext, ymin ext);
                                 (xmin ext, ymax ext);
                                 (xmax ext, ymax ext);
                                 (xmax ext, ymin ext);
                                 (xmin ext, ymin ext)]]]))
      | Some NotVector =>
          Raise (TypeError
            "argument vectorobject must be of type spatialist.vector.Vector")
      end
  | Ksensor =>
      match sensor pars with
      | None => Ok None
      | Some val =>
          values ← for_each lookup_platform (as_list val);
          Ok (Some (equals "platform" values))
      end
  | KframeNumber =>
      match frameNumber pars with
      | None => Ok None
      | Some val =>
          Ok (Some (equals "s1:datatake" (format_06X <$> as_list val)))
      end
  | Kproduct =>
      match product pars with
      | None => Ok None
      | Some val => Ok (Some (equals "sar:product_type" (as_list val)))
      end
  | Kacquisition_mode =>
      match acquisition_mode pars with
      | None => Ok None
      | Some val => Ok (Some (equals "sar:instrument_mode" (as_list val)))
      end
  end.

(** [flt] after the loop over the keys. *)
Definition select_filter (pars : query Vector) (date_strict : bool)
  : res (clause coord) :=
  args ← for_each (clause_of pars date_strict) pars_keys;
  Ok (Junction "and" (omap id args)).

(** One round of [for item in result], up to the test for existence:
    [path] after [re.sub('^file://', '', path)]. *)
Definition local_path (it : item) : res string :=
  ref ← getitem (assets it) 0;
  let href := ref.2 in
  match find_end ".SAFE" href with
  | None => Raise AttributeError
  | Some e =>
      let path := upto e href in
      Ok (if startswith "file://" path then skip 7 path else path)
  end.

(** The round to its end: the [path] appended to [out]. *)
Definition resolve (check_exist : bool) (it : item) : res string :=
  path ← local_path it;
  if path_exists path then Ok (realpath path)
  else if check_exist then
    Raise (RuntimeError ["scene does not exist locally:"; path])
  else Ok path.

Definition select (self : t) (pars : query Vector)
    (date_strict check_exist : bool) (w : world)
  : res (list string) * world :=
  match select_filter pars date_strict with
  | Raise e => (Raise e, w)
  | Ok flt =>
      match retry (λ n, Client_search n (catalog self) (collections self) flt)
                  (max_tries self) w with
      | (Raise e, w') => (Raise e, w')
      | (Ok result, w') =>
          (out ← for_each (resolve check_exist) result;
           _filter_duplicates manifest_processing_start out, w')
      end
  end.

End instance.

(** *** Vocabulary for the properties of duplicate resolution *)

(** A scene shares its triple with another entry of the list. *)
Definition duplicated (scenes : list string) (s : string) : Prop :=
  (1 < length (filter (λ s', triple_of s' = triple_of s) scenes))%nat.

(** Equal elements of a list are adjacent: an element that occurs again
    later occurs again at once. *)
Fixpoint adjacent {K : Type} (l : list K) : Prop :=
  match l with
  | [] => True
  | a :: l' => (a ∈ l' → head l' = Some a) ∧ adjacent l'
  end.

(** The distinct elements of a list in the order of their first
    occurrence. *)
Definition first_seen `{EqDecision K} (l : list K) : list K :=
  foldl (λ acc a, if decide (a ∈ acc) then acc else acc ++ [a]) [] l.

Section survivors.
Variable manifest_processing_start : string → res Z.

(** The processing time of [s] can be read and is at most that of [o]. *)
Definition not_later (s o : string) : Prop :=
  ∃ ts to, _get_proc_time manifest_processing_start s = Ok ts ∧
           _get_proc_time manifest_processing_start o = Ok to ∧ ts ≤ to.

(** [o] is what a group keeps: its only member, or else its first
    member with the latest processing time. *)
Definition survivor (group : list string) (o : string) : Prop :=
  match group with
  | [x] => o = x
  | _ => ∃ k, group !! k = Some o ∧
              (∀ s, s ∈ group → not_later s o) ∧
              (∀ j s, (j < k)%nat → group !! j = Some s →
                      ¬ not_later o s)
  end.

(** [keep] resolves [tmp]: [tmp] splits into maximal runs of scenes of
    one triple and [keep] lists the survivor of each run, in order. *)
Inductive resolved : list string → list string → Prop :=
| resolved_nil : resolved [] []
| resolved_run x g rest m o keep :
    triple_of x = Some m →
    Forall (λ y, triple_of y = Some m) g →
    head rest ≫= triple_of ≠ Some m →
    survivor (x :: g) o →
    resolved rest keep →
    resolved (x :: g ++ rest) (o :: keep).
End survivors.

End STACArchive.

(** ** Scene objects: [pyroSAR.drivers.ID] *)

Module ID.

(** What this module reads of a scene object: attributes, the two
    entries of [meta], the footprint behind [geometry()], and
    [re.search(self.pattern, name).groupdict()] reduced to its groups
    [start] and [stop] ([None] inside when the pattern does not match;
    [None] outside when the class has no pattern). *)
Record t (coord : Type) : Type := Make {
  scene : string;
  sensor : string;
  product : string;
  acquisition_mode : string;
  start : string;
  stop : string;
  sliceNumber : Z;
  totalSlices : Z;
  coordinates : list (coord * coord);
  pattern : option (string → option (string * string))
}.
Arguments Make {coord}.
Arguments scene {coord}.
Arguments sensor {coord}.
Arguments product {coord}.
Arguments acquisition_mode {coord}.
Arguments start {coord}.
Arguments stop {coord}.
Arguments sliceNumber {coord}.
Arguments totalSlices {coord}.
Arguments coordinates {coord}.
Arguments pattern {coord}.

End ID.

(** ** The ASF catalog: [class ASF], [asf_select], [class ASFArchive] *)

(** A GeoJSON feature of an ASF search result. *)
Record feature (coord : Type) : Type := Feature {
  properties : list (string * string);
  geometry_coordinates : list (list (coord * coord))
}.
Arguments Feature {coord}.
Arguments properties {coord}.
Arguments geometry_coordinates {coord}.

(** The [return_value] argument: the class [ASF], a property name, a list
    of property names, or anything else. *)
Inductive return_value : Type :=
| ReturnASF
| ReturnStr (key : string)
| ReturnList (keys : list string)
| ReturnOther (type : string).

Inductive asf_result (coord : Type) : Type :=
| Objects (l : list (ID.t coord))
| Strings (l : list string)
| Tuples (l : list (list string)).
Arguments Objects {coord} l.
Arguments Strings {coord} l.
Arguments Tuples {coord} l.

Module ASF.
Section ASF.
Variable coord : Type.
(** [datetime.strptime(s, '%Y-%m-%dT%H:%M:%S.%fZ')] and
    [t.strftime('%Y%m%dT%H%M%S')] *)
Variable strptime_iso : string → res datetime.
Variable strftime : datetime → string.

(** [re.search('(?:GRD|SLC|SM|OCN)', product).group()] *)
Fixpoint product_of (level : string) : res string :=
  if startswith "GRD" level then Ok "GRD"
  else if startswith "SLC" level then Ok "SLC"
  else if startswith "SM" level then Ok "SM"
  else if startswith "OCN" level then Ok "OCN"
  else match level with
       | EmptyString => Raise AttributeError
       | String _ level' => product_of level'
       end.

(** [scanMetadata] followed by the constructor of [ID]. The entries of
    [meta] that this module never reads are looked up, for the
    exceptions they may raise, and dropped. *)
Definition __init__ (meta : feature coord) : res (ID.t coord) :=
  let prop := dict_get (properties meta) in
  scene ← prop "url";
  acquisition_mode ← prop "beamModeType";
  coordinates ← getitem (geometry_coordinates meta) 0;
  _ ← prop "frameNumber";
  direction ← prop "flightDirection";
  _ ← (match direction with
       | EmptyString => Raise IndexError
       | String c _ => Ok c
       end);
  _ ← prop "orbit";
  _ ← prop "pathNumber";
  _ ← prop "polarization";
  level ← prop "processingLevel";
  product ← product_of level;
  platform ← prop "platform";
  let sensor := replace "entinel-" "" platform in
  start ← prop "startTime";
  stop ← prop "stopTime";
  start ← strptime_iso start;
  stop ← strptime_iso stop;
  Ok (ID.Make scene sensor product acquisition_mode
        (strftime start) (strftime stop) (-1) (-1) coordinates None).
End ASF.
End ASF.

Section asf_select.
Variable coord : Type.
Variable Vector : Type.
(** [asf.search(platform=, processingLevel=, beamMode=, start=, end=,
    intersectsWith=).geojson()['features']] *)
Variable asf_search :
  string → option (arg string) → option (arg string) →
  option datetime → option datetime → option string →
  res (list (feature coord)).
(** [dateutil.parser.parse] *)
Variable dateutil_parse : string → res datetime.
Variable strptime_iso : string → res datetime.
Variable strftime : datetime → string.
(** [geom.reproject(4326); geom.convert2wkt(set3D=False)[0]] on a clone *)
Variable wkt_4326 : Vector → res string.

Definition parse_date (d : option date) : res (option datetime) :=
  match d with
  | Some (DateStr s) => Some <$> dateutil_parse s
  | Some (DateTime t) => Ok (Some t)
  | None => Ok None
  end.

Definition date_extract (item : feature coord) (key : string)
  : res datetime :=
  value ← dict_get (properties item) key;
  strptime_iso value.

(** The condition of the comprehension under [date_strict]:
    [start <= date_extract(x, 'startTime') and
     date_extract(x, 'stopTime') <= stop]; comparing with [None] is a
    [TypeError]. *)
Definition within (start stop : option datetime) (x : feature coord)
  : res bool :=
  t0 ← date_extract x "startTime";
  match start with
  | None =>
      Raise (TypeError
        "'<=' not supported between instances of 'NoneType' and 'datetime.datetime'")
  | Some start =>
      if start <=? t0 then
        t1 ← date_extract x "stopTime";
        match stop with
        | None =>
            Raise (TypeError
              "'<=' not supported between instances of 'datetime.datetime' and 'NoneType'")
        | Some stop => Ok (t1 <=? stop)
        end
      else Ok false
  end.

(** [[x for x in features if cond(x)]] *)
Fixpoint comprehension {A} (cond : A → res bool) (l : list A) : res (list A) :=
  match l with
  | [] => Ok []
  | x :: l' =>
      b ← cond x; xs ← comprehension cond l';
      Ok (if b : bool then x :: xs else xs)
  end.

Definition asf_select
    (sensor : option (arg string)) (product acquisition_mode : option (arg string))
    (mindate maxdate : option date) (vectorobject : option Vector)
    (return_value : return_value) (date_strict : bool)
  : res (asf_result coord) :=
  let processing_level :=
    if decide (product = Some (One "GRD"))
    then Some (Many ["GRD_HD"; "GRD_MD"; "GRD_MS"; "GRD_HS"; "GRD_FD"])
    else product in
  let beam_mode :=
    if decide (acquisition_mode = Some (One "SM"))
    then Some (Many ["S1"; "S2"; "S3"; "S4"; "S5"; "S6"])
    else acquisition_mode in
  geometry ← (match vectorobject with
              | Some v => Some <$> wkt_4326 v
              | None => Ok None
              end);
  start ← parse_date mindate;
  stop ← parse_date maxdate;
  platform ← (match sensor with
              | Some (One s) => Ok (replace "S1" "Sentinel-1" s)
              | _ => Raise AttributeError
              end);
  features ← asf_search platform processing_level beam_mode start stop geometry;
  features ← (if date_strict then comprehension (within start stop) features
              else Ok features);
  match return_value with
  | ReturnASF => Objects <$> for_each (ASF.__init__ coord strptime_iso strftime) features
  | ReturnStr key =>
      out ← for_each (λ item, dict_get (properties item) key) features;
      Ok (Strings (sorted out))
  | ReturnList keys =>
      out ← for_each (λ item, for_each (dict_get (properties item)) keys) features;
      Ok (Tuples (sorted_tuples out))
  | ReturnOther type =>
      match features with
      | [] => Ok (Strings [])
      | _ :: _ => Raise (TypeError ("invalid type of return value: " +:+ type))
      end
  end.

End asf_select.

Module ASFArchive.
(** The static method passes its arguments on. *)
Definition select := asf_select.
End ASFArchive.

(** ** Archives as the selection functions see them *)

(** A value of a keyword argument. *)
Inductive value : Type :=
| VNone
| VStr (s : string)
| VTuple (l : list string)
| VDatetime (t : datetime)
| VBool (b : bool)
| VInt (n : Z)
| VClassASF.

#[global] Instance value_eq_dec : EqDecision value.
Proof. solve_decision. Defined.

(** An element of what [archive.select] returns: a location, or a scene
    object (an instance of [ID]). *)
Inductive entry (coord : Type) : Type :=
| Path (location : string)
| Object (x : ID.t coord).
Arguments Path {coord} location.
Arguments Object {coord} x.

(** An open archive ([pyroSAR.drivers.Archive], [STACArchive] or
    [ASFArchive]): whether it is an [ASFArchive], and what
    [archive.select(vectorobject=v, **kwargs)] returns. The catalog does
    not change while the functions below run. *)
Record archive (coord Vector : Type) : Type := Archive {
  is_ASFArchive : bool;
  archive_select : option Vector → gmap string value → res (list (entry coord))
}.
Arguments Archive {coord Vector}.
Arguments is_ASFArchive {coord Vector}.
Arguments archive_select {coord Vector}.

(** What a run did to the catalogs: the searches of the archive and the
    queries of the ASF reference catalog, in order. *)
Inductive event (Vector : Type) : Type :=
| Searched (vectorobject : option Vector) (kwargs : gmap string value)
| Referenced (sensor product acquisition_mode mindate maxdate : string).
Arguments Searched {Vector} vectorobject kwargs.
Arguments Referenced {Vector} sensor product acquisition_mode mindate maxdate.

Definition trace (Vector : Type) : Type := list (event Vector).

Definition search {coord Vector} (a : archive coord Vector)
    (vectorobject : option Vector) (kwargs : gmap string value)
  : io (trace Vector) (list (entry coord)) :=
  λ tr, (archive_select a vectorobject kwargs,
         tr ++ [Searched vectorobject kwargs]).

(** [archive.select(vectorobject=v, **args)]: a call with [vectorobject]
    among the keys of [args] too is a [TypeError] and does not reach the
    archive. *)
Definition search_kw {coord Vector} (a : archive coord Vector)
    (vectorobject : option Vector) (args : gmap string value)
  : io (trace Vector) (list (entry coord)) :=
  if decide (is_Some (args !! "vectorobject")) then
    pure (Raise (TypeError
            "got multiple values for keyword argument 'vectorobject'"))
  else search a vectorobject args.

(** [sorted(list(set(selection)))]. Locations are made unique and sorted.
    Scene objects are hashed by identity and have no order: one object
    alone is returned as it is, anything else with an object in it is a
    [TypeError] of [sorted]. *)
Definition paths_of {coord} (l : list (entry coord)) : list string :=
  omap (λ e, match e with Path p => Some p | Object _ => None end) l.

Definition objects_of {coord} (l : list (entry coord)) : list (ID.t coord) :=
  omap (λ e, match e with Path _ => None | Object x => Some x end) l.

Definition sorted_set_entries {coord} (selection : list (entry coord))
  : res (list (entry coord)) :=
  match objects_of selection, paths_of selection with
  | [], paths => Ok (Path <$> sorted_set paths)
  | [x], [] => Ok [Object x]
  | _, _ => Raise (TypeError "'<' not supported between instances")
  end.

(** The order in which [sorted] leaves a list without duplicates:
    strictly ascending locations. *)
Definition entry_lt {coord} (a b : entry coord) : Prop :=
  match a, b with
  | Path p, Path q => strict String.le p q
  | _, _ => False
  end.

(** [l.index(x)] for a location [x] in a list of entries: a scene object
    does not equal a string. *)
Fixpoint index_path {coord} (l : list (entry coord)) (x : string) : res nat :=
  match l with
  | [] => Raise ValueError
  | Path p :: l' => if decide (p = x) then Ok 0%nat else S <$> index_path l' x
  | Object _ :: l' => S <$> index_path l' x
  end.

(** ** [scene_select] *)

Section scene_select.
Variable coord : Type.
Variable Vector : Type.
(** [identify_many(scenes, sortkey=...)] of [pyroSAR] *)
Variable identify_many :
  list (entry coord) → option string → res (list (ID.t coord)).
(** [x.geometry()] *)
Variable geometry : ID.t coord → res Vector.
(** [Vector(filename)] of [spatialist] *)
Variable Vector_open : string → res Vector.
(** [datetime.strptime(s, '%Y%m%dT%H%M%S')] *)
Variable strptime : string → res datetime.
(** The geometry of one tile in a KML file, and the tiles, identifier
    and geometry, that overlap with given geometries:
    [S1_NRB.tile_extraction] is not among the sources. *)
Variable tile_geometry : string → string → res Vector.
Variable tiles_overlapping : string → list Vector → res (list (string * Vector)).

(** Modelled from the spec: [aoi_from_tile] is missing from the sources;
    by section 6 of the specification it takes tile identifiers to
    their geometries, one geometry for one identifier and a list with
    one geometry per identifier for a list. *)
Definition aoi_from_tile (kml : string) (tile : arg string)
  : res (arg Vector) :=
  match tile with
  | One t => One <$> tile_geometry kml t
  | Many l => Many <$> for_each (tile_geometry kml) l
  end.

(** Modelled from the spec: [tile_from_aoi] is missing from the sources;
    by section 6 it takes a geometry or geometries to the identifiers of
    the overlapping tiles, with their geometries if asked. *)
Definition tile_from_aoi (vector : list Vector) (kml : string)
  : res (list (string * Vector)) :=
  tiles_overlapping kml vector.

(** [if not isinstance(vec, list): vec = [vec]] *)
Definition listify {A} (vec : arg A) : list A :=
  match vec with
  | One v => [v]
  | Many l => l
  end.

(** The scenes of the first search: objects as they are when the first
    element is one, identified otherwise. *)
Definition scenes_of (selection_tmp : list (entry coord))
  : res (list (ID.t coord)) :=
  first ← getitem selection_tmp 0;
  match first with
  | Object _ =>
      for_each (λ e, match e with
                     | Object x => Ok x
                     | Path _ => Raise AttributeError
                     end) selection_tmp
  | Path _ => identify_many selection_tmp (Some "start")
  end.

(** The branch [if vec is None]: the first search and what it yields:
    the geometries and identifiers of the tiles overlapping with the
    scenes found, and [args] with the extended time range. *)
Definition first_search (a : archive coord Vector) (kml_file : string)
    (args : gmap string value)
  : io (trace Vector) (list Vector * list string * gmap string value) :=
  selection_tmp ← search_kw a None args;
  scenes ← pure (scenes_of selection_tmp);
  scenes_geom ← pure (for_each geometry scenes);
  vec ← pure (tile_from_aoi scenes_geom kml_file);
  let aoi_tiles := vec.*1 in
  starts ← pure (for_each (λ x, strptime (ID.start x)) scenes);
  mindate ← pure (Py.min Z.leb starts);
  stops ← pure (for_each (λ x, strptime (ID.stop x)) scenes);
  maxdate ← pure (Py.max Z.leb stops);
  let args := <["mindate" := VDatetime mindate]> args in
  let args := <["maxdate" := VDatetime maxdate]> args in
  let args := <["mindate" := VDatetime (mindate - minutes 1)]> args in
  let args := <["maxdate" := VDatetime (maxdate + minutes 1)]> args in
  mret (vec.*2, aoi_tiles, args).

(** [args] from [args = kwargs.copy()] to [vec = None]. *)
Definition prepare (a : archive coord Vector) (kwargs : gmap string value)
  : gmap string value :=
  let args := kwargs in
  let args :=
    if decide (is_Some (args !! "acquisition_mode")) then args
    else <["acquisition_mode" := VNone]> args in
  let args :=
    if decide (args !! "acquisition_mode" = Some (VStr "SM"))
    then <["acquisition_mode" := VTuple ["S1"; "S2"; "S3"; "S4"; "S5"; "S6"]]> args
    else args in
  if is_ASFArchive a then <["return_value" := VClassASF]> args else args.

Definition scene_select (a : archive coord Vector) (kml_file : string)
    (aoi_tiles : option (arg string)) (aoi_geometry : option string)
    (kwargs : gmap string value)
  : io (trace Vector) (list (entry coord) * arg string) :=
  let args := prepare a kwargs in
  '(vec, aoi_tiles, args) ←
    match aoi_tiles, aoi_geometry with
    | Some tiles, _ =>
        vec ← pure (aoi_from_tile kml_file tiles);
        mret (listify vec, tiles, args)
    | None, Some file =>
        v ← pure (Vector_open file);
        tiles ← pure (tile_from_aoi [v] kml_file);
        mret ([v], Many tiles.*1, args)
    | None, None =>
        '(vec, tiles, args) ← first_search a kml_file args;
        mret (vec, Many tiles, args)
    end;
  let args :=
    if is_ASFArchive a then <["return_value" := VStr "url"]> args else args in
  selection ← for_io (λ item, search_kw a (Some item) args) vec;
  scenes ← pure (sorted_set_entries (concat selection));
  mret (scenes, aoi_tiles).

End scene_select.

(** ** [collect_neighbors] and [check_acquisition_completeness] *)

Section completeness.
Variable coord : Type.
Variable Vector : Type.
Variable identify_many :
  list (entry coord) → option string → res (list (ID.t coord)).
(** [buffer_time(start, stop, seconds=n)] of [S1_NRB.ancillary], which
    is not among the sources: the time stamps moved apart by [n]
    seconds, as strings. *)
Variable buffer_time : string → string → Z → res (string * string).
(** The servers and libraries behind [asf_select]. *)
Variable asf_search :
  string → option (arg string) → option (arg string) →
  option datetime → option datetime → option string →
  res (list (feature coord)).
Variable dateutil_parse : string → res datetime.
Variable strptime_iso : string → res datetime.
Variable strftime : datetime → string.
Variable wkt_4326 : Vector → res string.

(** The keyword arguments of both searches for the neighbours of a
    scene. *)
Definition neighbor_query (scene : ID.t coord) (start stop : string)
  : gmap string value :=
  <["sensor" := VStr (ID.sensor scene)]>
  (<["product" := VStr (ID.product scene)]>
  (<["acquisition_mode" := VStr (ID.acquisition_mode scene)]>
  (<["mindate" := VStr start]>
  (<["maxdate" := VStr stop]>
  (<["date_strict" := VBool false]> ∅))))).

Definition collect_neighbors (a : archive coord Vector) (scene : ID.t coord)
  : io (trace Vector) (list (entry coord)) :=
  '(start, stop) ← pure (buffer_time (ID.start scene) (ID.stop scene) 2);
  neighbors ← search a None (neighbor_query scene start stop);
  i ← pure (index_path neighbors (ID.scene scene));
  mret (delitem neighbors i).

(** [asf_select(sensor=, product=, acquisition_mode=, mindate=start,
    maxdate=stop, return_value='sceneName')]; the other arguments have
    their defaults, [date_strict=True] among them. *)
Definition reference_names (scene : ID.t coord) (start stop : string)
  : res (list string) :=
  r ← asf_select coord Vector asf_search dateutil_parse strptime_iso
        strftime wkt_4326
        (Some (One (ID.sensor scene))) (Some (One (ID.product scene)))
        (Some (One (ID.acquisition_mode scene)))
        (Some (DateStr start)) (Some (DateStr stop)) None
        (ReturnStr "sceneName") true;
  match r with
  | Strings l => Ok l
  | Objects _ | Tuples _ => Raise (TypeError "not a list of names")
  end.

Definition reference (scene : ID.t coord) (start stop : string)
  : io (trace Vector) (list string) :=
  λ tr,
    (reference_names scene start stop,
     tr ++ [Referenced (ID.sensor scene) (ID.product scene)
              (ID.acquisition_mode scene) start stop]).

(** [re.search(scene.pattern, name).groupdict()], its [start] and
    [stop]. *)
Definition groupdict (scene : ID.t coord) (name : string)
  : res (string * string) :=
  match ID.pattern scene with
  | None => Raise AttributeError
  | Some search =>
      match search name with
      | None => Raise AttributeError
      | Some g => Ok g
      end
  end.

(** [ref_start_min] and [ref_stop_max] of a reference group. *)
Definition ref_extent (scene : ID.t coord) (ref : list string)
  : res (string * string) :=
  match_ ← for_each (λ x, groupdict scene (x +:+ ".SAFE")) ref;
  ref_start_min ← Py.min str_le (match_.*1);
  ref_stop_max ← Py.max str_le (match_.*2);
  Ok (ref_start_min, ref_stop_max).

(** The state of one round of the loop after the boundary conditions. *)
Record expectation : Type := Expectation {
  groupsize : Z;
  has_successor : bool;
  has_predecessor : bool;
  ref : option (list string)
}.

(** The round of the loop from its start to the end of
    [if slice == 0 or n_slices == 0: ... else: ...]: the buffered window
    and the state then. *)
Definition expect (scene : ID.t coord)
  : io (trace Vector) (string * string * expectation) :=
  let slice := ID.sliceNumber scene in
  let n_slices := ID.totalSlices scene in
  let groupsize := 3 in
  '(start, stop) ← pure (buffer_time (ID.start scene) (ID.stop scene) 2);
  if (slice =? 0) || (n_slices =? 0) then
    ref ← reference scene start stop;
    '(ref_start_min, ref_stop_max) ← pure (ref_extent scene ref);
    let '(groupsize, has_predecessor) :=
      if decide (ref_start_min = ID.start scene)
      then (groupsize - 1, false) else (groupsize, true) in
    let '(groupsize, has_successor) :=
      if decide (ref_stop_max = ID.stop scene)
      then (groupsize - 1, false) else (groupsize, true) in
    mret (start, stop,
          Expectation groupsize has_successor has_predecessor (Some ref))
  else
    let '(groupsize, has_predecessor) :=
      if slice =? 1 then (groupsize - 1, false) else (groupsize, true) in
    let '(groupsize, has_successor) :=
      if slice =? n_slices then (groupsize - 1, false) else (groupsize, true) in
    mret (start, stop,
          Expectation groupsize has_successor has_predecessor None).

(** [missing] for a group smaller than expected. *)
Definition missing_of (e : expectation) (start stop : string)
    (ref_start_min ref_stop_max start_min stop_max : string)
  : list string :=
  (if str_lt ref_start_min start && str_lt start start_min
      && has_predecessor e
   then ["predecessor"] else [])
  ++
  (if str_lt stop_max stop && str_lt stop ref_stop_max
      && has_successor e
   then ["successor"] else []).

(** One round of [for scene in scenes]: the message appended to
    [messages], if any. *)
Definition check_scene (a : archive coord Vector) (scene : ID.t coord)
  : io (trace Vector) (option string) :=
  '(start, stop, e) ← expect scene;
  group ← search a None (neighbor_query scene start stop);
  group ← pure (identify_many group None);
  if Z.of_nat (length group) <? groupsize e then
    ref ← (match ref e with
           | None => reference scene start stop
           | Some ref => mret ref
           end);
    '(ref_start_min, ref_stop_max) ← pure (ref_extent scene ref);
    start_min ← pure (Py.min str_le (ID.start <$> group));
    stop_max ← pure (Py.max str_le (ID.stop <$> group));
    let missing :=
      missing_of e start stop ref_start_min ref_stop_max start_min stop_max in
    if decide (0 < length missing)%nat then
      let base := basename (ID.scene scene) in
      mret (Some (join " and " missing +:+ " acquisition for scene " +:+ base))
    else mret None
  else mret None.

Definition check_acquisition_completeness (a : archive coord Vector)
    (scenes : list (ID.t coord)) : io (trace Vector) () :=
  found ← for_io (check_scene a) scenes;
  let messages := omap id found in
  if decide (length messages ≠ 0%nat) then
    let text := join (nl +:+ " - ") messages in
    pure (Raise (RuntimeError
                   ["missing the following scenes:" +:+ nl +:+ " - " +:+ text]))
  else mret ().

End completeness.

(** A message names the scene by the base name of its location and says
    which neighbours are missing. *)
Definition names_scene {coord} (scene : ID.t coord) (m : string) : Prop :=
  ∃ missing,
    (missing = ["predecessor"] ∨ missing = ["successor"] ∨
     missing = ["predecessor"; "successor"]) ∧
    m = join " and " missing +:+ " acquisition for scene "
        +:+ basename (ID.scene scene).

(** ** Vocabulary for the properties of strings *)

(** The number that a string of the digits [0-9A-F] denotes, which is
    what [int(s, 16)] gives for such a string that is not empty; with it
    the result of ['{:06X}'.format] is read back. *)
Definition hex_digit_value (c : ascii) : option N :=
  let n := N_of_ascii c in
  if (48 <=? n)%N && (n <=? 57)%N then Some (n - 48)%N
  else if (65 <=? n)%N && (n <=? 70)%N then Some (n - 55)%N
  else None.

Fixpoint int_16_from (acc : N) (s : string) : option N :=
  match s with
  | EmptyString => Some acc
  | String c s' => d ← hex_digit_value c; int_16_from (16 * acc + d) s'
  end.

Definition int_16 (s : string) : option N := int_16_from 0 s.

(** [needle in s] *)
Definition occurs (needle s : string) : Prop :=
  ∃ pre post, s = pre +:+ needle +:+ post.

(** The pattern of [_filter_duplicates] matches at the start of [s] with
    the groups [g]: sixteen characters of [[0-9A-Z_]], an underscore,
    fifteen characters of [[0-9T]], an underscore and fifteen characters
    of [[0-9T]] again. *)
Definition pattern_at_start (s : string) (g : STACArchive.triple) : Prop :=
  ∃ rest, s = g.1.1 +:+ "_" +:+ g.1.2 +:+ "_" +:+ g.2 +:+ rest ∧
    String.length g.1.1 = 16%nat ∧
    String.length g.1.2 = 15%nat ∧
    String.length g.2 = 15%nat ∧
    Forall STACArchive.token_char (String.list_ascii_of_string g.1.1) ∧
    Forall STACArchive.time_char (String.list_ascii_of_string g.1.2) ∧
    Forall STACArchive.time_char (String.list_ascii_of_string g.2).

(** ** Example data *)

Module Examples.

(** Two products of one acquisition (a reprocessing duplicate) and the
    next acquisition of the data take. *)
Definition scene_a1 : string :=
  "/d/S1A_IW_GRDH_1SDV_20200103T170700_20200103T170725_030639_0382D5_AAAA.SAFE".
Definition scene_a2 : string :=
  "/d/S1A_IW_GRDH_1SDV_20200103T170700_20200103T170725_030639_0382D5_BBBB.SAFE".
Definition scene_b : string :=
  "/d/S1A_IW_GRDH_1SDV_20200103T170725_20200103T170750_030639_0382D5_CCCC.SAFE".

(** The duplicate in another directory. *)
Definition scene_a2_elsewhere : string :=
  "/e/S1A_IW_GRDH_1SDV_20200103T170700_20200103T170725_030639_0382D5_BBBB.SAFE".

(** Manifests: [scene_a2] was processed later than the others. *)
Definition manifests (path : string) : res Z :=
  Ok (if decide (path = STACArchive.manifest_path scene_a2) then 5 else 3).

(** A server that answers the first two calls with a transient error. *)
Definition busy_twice {A} (answer : A) (n : nat) : res A :=
  if decide (n < 2)%nat then Raise (APIError "busy") else Ok answer.

(** A connection as [STACArchive.__init__] makes it, with a handle of
    type [unit]. *)
Definition connection : STACArchive.t unit :=
  STACArchive.Self unit "https://stac.example" 300 () ["sentinel-1-grd"].

Definition no_filter : STACArchive.query unit :=
  STACArchive.Query None None None None None None None.


Definition no_extent (_ : unit) : STACArchive.extent Z :=
  STACArchive.Extent Z 0 0 0 0.

(** An item of a catalog whose scene lies in a local directory. *)
Definition local_item : STACArchive.item :=
  STACArchive.Item
    [("manifest",
      "file:///d/S1A_IW_GRDH_1SDV_20200103T170700_20200103T170725_030639_0382D5_AAAA.SAFE/manifest.safe")].

(** A server that finds that item, and a disk without it. *)
Definition finds_local_item (n : nat) (_ : unit) (_ : list string)
    (_ : STACArchive.clause Z) : res (list STACArchive.item) :=
  Ok [local_item].

Definition empty_disk (path : string) : bool := false.

(** [scene.pattern] of a Sentinel-1 scene, reduced to its time stamps. *)
Definition safe_pattern (name : string) : option (string * string) :=
  (λ g : STACArchive.triple, (g.1.2, g.2)) <$> STACArchive.re_search name.

(** The second of five slices of a data take, and the time stamps two
    seconds before its start and after its stop. *)
Definition slice_2_of_5 : ID.t Z :=
  ID.Make scene_b "S1A" "GRD" "IW" "20200103T170725" "20200103T170750"
    2 5 [] (Some safe_pattern).

Definition buffer_time (start stop : string) (seconds : Z)
  : res (string * string) :=
  if decide (start = "20200103T170725" ∧ stop = "20200103T170750"
             ∧ seconds = 2)
  then Ok ("20200103T170723", "20200103T170752")
  else Raise ValueError.

(** An archive searched by tile: geometries are the names of the tiles. *)
Definition by_tile : archive Z string :=
  Archive false (λ vectorobject _,
    match vectorobject with
    | None => Ok [Path scene_b]
    | Some tile =>
        if decide (tile = "32TNT") then Ok [Path scene_b; Path scene_a1]
        else if decide (tile = "32TPT") then Ok [Path scene_b]
        else Ok []
    end).

Definition identify_many (l : list (entry Z)) (sortkey : option string)
  : res (list (ID.t Z)) :=
  for_each (λ e, match e with
                 | Object x => Ok x
                 | Path p => if decide (p = scene_b) then Ok slice_2_of_5
                             else Raise (RuntimeError ["unknown scene"])
                 end) l.

Definition strptime (s : string) : res datetime :=
  if decide (s = "20200103T170725") then Ok 1578071245
  else if decide (s = "20200103T170750") then Ok 1578071270
  else Raise ValueError.

Definition tile_geometry (kml tile : string) : res string := Ok tile.

Definition tiles_overlapping (kml : string) (footprints : list string)
  : res (list (string * string)) :=
  Ok [("32TNT", "32TNT"); ("32TPT", "32TPT")].

Definition run_scene_select :=
  scene_select Z string identify_many (λ _, Ok "footprint") (λ file, Ok file)
    strptime tile_geometry tiles_overlapping.

(** The reference catalog: the scene itself and a product that starts
    and stops one second earlier, both inside the buffered window. *)
Definition name_of_scene_b : string :=
  "S1A_IW_GRDH_1SDV_20200103T170725_20200103T170750_030639_0382D5_CCCC".
Definition name_of_earlier : string :=
  "S1A_IW_GRDH_1SDV_20200103T170724_20200103T170749_030639_0382D5_DDDD".

Definition asf_search (platform : string)
    (processingLevel beamMode : option (arg string))
    (start stop : option datetime) (intersectsWith : option string)
  : res (list (feature Z)) :=
  Ok [Feature [("sceneName", name_of_scene_b);
               ("startTime", "2020-01-03T17:07:25.000000Z");
               ("stopTime", "2020-01-03T17:07:50.000000Z")] [];
      Feature [("sceneName", name_of_earlier);
               ("startTime", "2020-01-03T17:07:24.000000Z");
               ("stopTime", "2020-01-03T17:07:49.000000Z")] []].

Definition dateutil_parse (s : string) : res datetime :=
  if decide (s = "20200103T170723") then Ok 1578071243
  else if decide (s = "20200103T170752") then Ok 1578071272
  else Raise ValueError.

Definition strptime_iso (s : string) : res datetime :=
  if decide (s = "2020-01-03T17:07:24.000000Z") then Ok 1578071244
  else if decide (s = "2020-01-03T17:07:25.000000Z") then Ok 1578071245
  else if decide (s = "2020-01-03T17:07:49.000000Z") then Ok 1578071269
  else if decide (s = "2020-01-03T17:07:50.000000Z") then Ok 1578071270
  else Raise ValueError.

(** The same scene in a data take whose manifest numbers the slice but
    gives no total. *)
Definition slice_1_of_0 : ID.t Z :=
  ID.Make scene_b "S1A" "GRD" "IW" "20200103T170725" "20200103T170750"
    1 0 [] (Some safe_pattern).

(** An archive that holds the scene alone. *)
Definition only_scene_b : archive Z unit :=
  Archive false (λ _ _, Ok [Path scene_b]).

Definition run_expect :=
  expect Z unit buffer_time asf_search dateutil_parse strptime_iso
    (λ _, "") (λ _, Raise ValueError).

Definition run_check_scene :=
  check_scene Z unit identify_many buffer_time asf_search dateutil_parse
    strptime_iso (λ _, "") (λ _, Raise ValueError).

Definition run_check :=
  check_acquisition_completeness Z unit identify_many buffer_time asf_search
    dateutil_parse strptime_iso (λ _, "") (λ _, Raise ValueError).

(** An archive that holds the scene and the product before it. *)
Definition holds_two : archive Z unit :=
  Archive false (λ _ _, Ok [Path scene_a1; Path scene_b]).

(** A query by data take and geometry, for both satellites. *)
Definition by_frame : STACArchive.query unit :=
  STACArchive.Query (Some (Many ["S1A"; "S1B"])) None None None None
    (Some (One 230101)) (Some (STACArchive.IsVector ())).

Definition unit_square (_ : unit) : STACArchive.extent Z :=
  STACArchive.Extent Z 0 1 0 1.

(** A query for a satellite that the catalog does not know, with a
    geometry that is no [Vector]. *)
Definition unknown_sensor : STACArchive.query unit :=
  STACArchive.Query (Some (Many ["S1A"; "S1C"])) None None None None None
    (Some STACArchive.NotVector).

(** A file of the catalog that is no scene. *)
Definition readme : string := "/d/readme.txt".

(** A disk whose manifests cannot be read. *)
Definition unreadable (path : string) : res Z := Raise (OSError path).

(** A feature as the ASF catalog returns it for [scene_b], and the
    object that [ASF] makes of it. *)
Definition url_of_scene_b : string :=
  "https://datapool.asf.example/GRD_HD/SA/S1A_IW_GRDH_1SDV_20200103T170725_20200103T170750_030639_0382D5_CCCC.zip".

Definition feature_of_scene_b : feature Z :=
  Feature [("url", url_of_scene_b);
           ("beamModeType", "IW");
           ("frameNumber", "160");
           ("flightDirection", "ASCENDING");
           ("orbit", "30639");
           ("pathNumber", "117");
           ("polarization", "VV+VH");
           ("processingLevel", "GRD_HD");
           ("platform", "Sentinel-1A");
           ("sceneName", name_of_scene_b);
           ("startTime", "2020-01-03T17:07:25.000000Z");
           ("stopTime", "2020-01-03T17:07:50.000000Z")]
          [[(9, 46); (12, 46); (12, 48); (9, 48); (9, 46)]].

Definition strftime (t : datetime) : string :=
  if decide (t = 1578071245) then "20200103T170725"
  else if decide (t = 1578071270) then "20200103T170750"
  else "".

Definition asf_scene_b : ID.t Z :=
  ID.Make url_of_scene_b "S1A" "GRD" "IW" "20200103T170725" "20200103T170750"
    (-1) (-1) [(9, 46); (12, 46); (12, 48); (9, 48); (9, 46)] None.

(** The same scene as the only slice of its data take. *)
Definition single_slice : ID.t Z :=
  ID.Make scene_b "S1A" "GRD" "IW" "20200103T170725" "20200103T170750"
    1 1 [] (Some safe_pattern).


(** The same scene in slicing mode: slice number and number of slices
    are 0. *)
Definition unsliced : ID.t Z :=
  ID.Make scene_b "S1A" "GRD" "IW" "20200103T170725" "20200103T170750"
    0 0 [] (Some safe_pattern).

(** A reference catalog whose record of the product before [scene_b]
    carries the times of [scene_b], and one that cannot be reached. *)
Definition name_of_scene_a1 : string :=
  "S1A_IW_GRDH_1SDV_20200103T170700_20200103T170725_030639_0382D5_AAAA".

Definition mislabelled_reference (platform : string)
    (processingLevel beamMode : option (arg string))
    (start stop : option datetime) (intersectsWith : option string)
  : res (list (feature Z)) :=
  Ok [Feature [("sceneName", name_of_scene_a1);
               ("startTime", "2020-01-03T17:07:25.000000Z");
               ("stopTime", "2020-01-03T17:07:50.000000Z")] [];
      Feature [("sceneName", name_of_scene_b);
               ("startTime", "2020-01-03T17:07:25.000000Z");
               ("stopTime", "2020-01-03T17:07:50.000000Z")] []].

Definition unreachable_reference (platform : string)
    (processingLevel beamMode : option (arg string))
    (start stop : option datetime) (intersectsWith : option string)
  : res (list (feature Z)) :=
  Raise (OtherError "ASFSearchError").

(** An item of a catalog whose first asset is a zipped product, and a
    server that finds it before [local_item]. *)
Definition zipped_item : STACArchive.item :=
  STACArchive.Item
    [("product",
      "https://catalog.example/S1A_IW_GRDH_1SDV_20200103T170725_20200103T170750_030639_0382D5_CCCC.zip")].

Definition finds_zipped_then_local (n : nat) (_ : unit) (_ : list string)
    (_ : STACArchive.clause Z) : res (list STACArchive.item) :=
  Ok [zipped_item; local_item].

(** An archive that holds nothing. *)
Definition empty_archive {Vector : Type} : archive Z Vector :=
  Archive false (λ _ _, Ok []).

End Examples.

(* ================================================================== *)
(** * Properties *)

(** ** Lemmas on the prelude *)

Section prelude_lemmas.

Lemma bind_Ok {A B} (m : res A) (k : A → res B) (b : B) :
  m ≫= k = Ok b ↔ ∃ a, m = Ok a ∧ k a = Ok b.
Proof.
  destruct m as [a|e]; simpl; split.
  - intros H. by exists a.
  - by intros (a' & [= <-] & H).
  - intros H; discriminate H.
  - by intros (a' & [=] & _).
Qed.

Lemma for_each_Ok {A B} (f : A → res B) (l : list A) :
  Forall (λ x, ∃ y, f x = Ok y) l →
  ∃ ys, for_each f l = Ok ys ∧ Forall2 (λ x y, f x = Ok y) l ys.
Proof.
  induction 1 as [|x l [y Hy] _ (ys & Hys & IH)]; simpl.
  - exists []. by split.
  - exists (y :: ys). rewrite Hy, Hys. simpl. split; [done|]. by constructor.
Qed.

Lemma foldl_max_spec (l : list Z) (a : Z) :
  let r := foldl (max_fold Z.leb) a l in
  r ∈ a :: l ∧ a ≤ r ∧ ∀ x, x ∈ l → x ≤ r.
Proof.
  revert a. induction l as [|b l IH]; intros a; simpl.
  - split; [left|]. split; [lia|]. intros x Hx. inversion Hx.
  - destruct (IH (max_fold Z.leb a b)) as (Hin & Hle & Hall).
    assert (a ≤ max_fold Z.leb a b ∧ b ≤ max_fold Z.leb a b) as [Ha Hb].
    { unfold max_fold. destruct (Z.leb_spec b a); lia. }
    split; [|split].
    + apply elem_of_cons in Hin as [->|Hin].
      * unfold max_fold. destruct (b <=? a); [left|right; left].
      * right; by right.
    + lia.
    + intros x [->|Hx]%elem_of_cons; [lia|by apply Hall].
Qed.

Lemma max_Ok (l : list Z) :
  l ≠ [] → ∃ m, Py.max Z.leb l = Ok m ∧ m ∈ l ∧ ∀ x, x ∈ l → x ≤ m.
Proof.
  destruct l as [|a l]; [done|]. intros _.
  destruct (foldl_max_spec l a) as (Hin & Hle & Hall).
  eexists. split; [reflexivity|]. split; [done|].
  intros x [->|Hx]%elem_of_cons; [done|by apply Hall].
Qed.

Lemma index_Ok `{EqDecision A} (l : list A) (x : A) :
  x ∈ l →
  ∃ k, index l x = Ok k ∧ l !! k = Some x ∧ ∀ j, (j < k)%nat → l !! j ≠ Some x.
Proof.
  induction l as [|y l IH]; intros Hin; [inversion Hin|]. simpl.
  destruct (decide (y = x)) as [->|Hne].
  - exists 0%nat. split; [done|]. split; [done|]. intros j Hj; lia.
  - apply elem_of_cons in Hin as [->|Hin]; [done|].
    destruct (IH Hin) as (k & Hk & Hlk & Hfirst).
    exists (S k). rewrite Hk. split; [done|]. split; [done|].
    intros [|j] Hj; simpl; [congruence|]. apply Hfirst. lia.
Qed.

End prelude_lemmas.


(** ** Duplicate resolution *)

Section duplicates_lemmas.
Import STACArchive.
Variable proc : string → res Z.

Local Abbreviation time := (_get_proc_time proc).
Local Abbreviation has_triple := (λ s : string, is_Some (triple_of s)).
Local Abbreviation readable := (λ s : string, ∃ t, time s = Ok t).

Lemma collect_Ok (m : triple) (l : list string) :
  Forall has_triple l →
  ∃ g rest, collect m l = Ok (g, rest) ∧ l = g ++ rest ∧
    Forall (λ y, triple_of y = Some m) g ∧
    head rest ≫= triple_of ≠ Some m.
Proof.
  induction 1 as [|y l [m2 Hy] _ (g & rest & Hc & -> & Hg & Hrest)]; simpl.
  - exists [], []. by repeat split.
  - unfold groups_of. rewrite Hy. simpl.
    destruct (decide (m = m2)) as [<-|Hne].
    + rewrite Hc. simpl. exists (y :: g), rest.
      repeat split; [by constructor|done].
    + exists [], (y :: g ++ rest). repeat split; [constructor|].
      simpl. rewrite Hy. congruence.
Qed.

Lemma keep_of_single (x : string) : keep_of proc [x] = Ok x.
Proof. reflexivity. Qed.

Lemma keep_of_many (group : list string) :
  (1 < length group)%nat →
  Forall readable group →
  ∃ o, keep_of proc group = Ok o ∧ survivor proc group o.
Proof.
  intros Hlen Hread. unfold keep_of.
  destruct (decide (1 < length group)%nat) as [_|]; [|lia].
  destruct (for_each_Ok time group Hread) as (tproc & -> & Htimes). simpl.
  assert (tproc ≠ []) as Hne.
  { intros ->. apply Forall2_nil_inv_r in Htimes as ->. simpl in Hlen. lia. }
  destruct (max_Ok tproc Hne) as (m & -> & Hin & Hmax). simpl.
  destruct (index_Ok tproc m Hin) as (k & -> & Hk & Hfirst). simpl.
  destruct (Forall2_lookup_r _ _ _ _ _ Htimes Hk) as (o & Ho & Hto).
  exists o. unfold getitem. rewrite Ho. split; [done|].
  assert (survivor proc group o = (∃ k, group !! k = Some o ∧
                (∀ s, s ∈ group → not_later proc s o) ∧
                (∀ j s, (j < k)%nat → group !! j = Some s →
                        ¬ not_later proc o s))) as ->.
  { destruct group as [|? [|? ?]]; simpl in *; [lia|lia|done]. }
  exists k. split; [done|]. split.
  - intros s [j Hj]%list_elem_of_lookup.
    destruct (Forall2_lookup_l _ _ _ _ _ Htimes Hj) as (ts & Hts & Hs).
    exists ts, m. split; [done|]. split; [done|].
    apply Hmax. eapply list_elem_of_lookup_2, Hts.
  - intros j s Hj Hs (to' & ts' & Hto' & Hts' & Hle).
    destruct (Forall2_lookup_l _ _ _ _ _ Htimes Hs) as (ts & Hts & Hs').
    assert (ts ≤ m) by (apply Hmax; eapply list_elem_of_lookup_2, Hts).
    assert (ts ≠ m) by (intros ->; by apply (Hfirst j)).
    assert (to' = m) by congruence. assert (ts' = ts) by congruence. lia.
Qed.

Lemma filter_Forall_id (P : string → Prop) `{∀ x, Decision (P x)} l :
  Forall P l → filter P l = l.
Proof.
  induction 1 as [|x l Hx _ IH]; [done|].
  by rewrite filter_cons_True, IH.
Qed.

Lemma duplicated_inserts l1 l2 s : duplicated l2 s → duplicated (l1 ++ l2) s.
Proof. unfold duplicated. rewrite filter_app, length_app. lia. Qed.

Lemma duplicated_run g rest m s :
  Forall (λ y, triple_of y = Some m) g →
  (1 < length g)%nat → s ∈ g → duplicated (g ++ rest) s.
Proof.
  intros Hg Hlen Hs. unfold duplicated.
  rewrite filter_app, length_app, filter_Forall_id; [lia|].
  rewrite Forall_forall in Hg. apply Forall_forall. intros y Hy.
  by rewrite (Hg y Hy), (Hg s Hs).
Qed.

Lemma duplicated_Permutation l1 l2 s :
  l1 ≡ₚ l2 → duplicated l1 s → duplicated l2 s.
Proof. unfold duplicated. by intros ->. Qed.

(** The loop ends within its fuel and resolves the list it scans. *)
Lemma scan_Ok (fuel : nat) : ∀ tmp,
  (length tmp ≤ fuel)%nat →
  Forall has_triple tmp →
  (∀ s, s ∈ tmp → duplicated tmp s → readable s) →
  ∃ keep, scan proc fuel tmp = Ok keep ∧ resolved proc tmp keep.
Proof.
  induction fuel as [|fuel IH]; intros [|x tmp] Hlen Htr Hrd; simpl in *;
    try lia; try (exists []; split; [done|constructor]).
  inversion Htr as [|? ? [m Hm] Htr']; subst.
  unfold groups_of at 1. rewrite Hm. simpl.
  destruct (collect_Ok m tmp Htr') as (g & rest & -> & -> & Hg & Hrest). simpl.
  assert (∃ o, keep_of proc (x :: g) = Ok o ∧ survivor proc (x :: g) o)
    as (o & -> & Hsurv).
  { destruct g as [|y g]; [by exists x|].
    apply keep_of_many; [simpl; lia|].
    apply Forall_forall. intros s Hs. apply Hrd.
    - change (x :: (y :: g) ++ rest) with ((x :: y :: g) ++ rest).
      apply elem_of_app. by left.
    - apply (duplicated_run (x :: y :: g) rest m); [|simpl; lia|done].
      by constructor. }
  simpl. destruct (IH rest) as (keep & -> & Hres).
  - rewrite length_app in Hlen. lia.
  - by apply Forall_app in Htr' as [_ ?].
  - intros s Hs Hd. apply Hrd.
    + right. apply elem_of_app. by right.
    + by apply (duplicated_inserts (x :: g) rest).
  - simpl. exists (o :: keep). split; [done|]. by econstructor.
Qed.

Lemma survivor_elem group o : survivor proc group o → o ∈ group.
Proof.
  destruct group as [|x [|y g]]; simpl.
  - by intros (k & Hk & _).
  - intros ->. left.
  - intros (k & Hk & _). eapply list_elem_of_lookup_2, Hk.
Qed.

Lemma survivor_not_later group o s :
  survivor proc group o → s ∈ group → s = o ∨ not_later proc s o.
Proof.
  destruct group as [|x [|y g]]; simpl.
  - by intros (k & Hk & _).
  - intros -> ->%list_elem_of_singleton. by left.
  - intros (k & _ & Hall & _) Hs. right. by apply Hall.
Qed.

Lemma resolved_sublist tmp keep :
  resolved proc tmp keep → keep `sublist_of` tmp.
Proof.
  induction 1 as [|x g rest m o keep Hx Hg Hrest Hsurv _ IH]; [done|].
  change (o :: keep) with ([o] ++ keep).
  change (x :: g ++ rest) with ((x :: g) ++ rest).
  apply sublist_app; [|done]. by apply singleton_sublist_l, survivor_elem.
Qed.

Lemma resolved_cover tmp keep :
  resolved proc tmp keep →
  ∀ s, s ∈ tmp →
    ∃ o, o ∈ keep ∧ triple_of o = triple_of s ∧ (s = o ∨ not_later proc s o).
Proof.
  induction 1 as [|x g rest m o keep Hx Hg Hrest Hsurv _ IH]; intros s Hs.
  { inversion Hs. }
  change (x :: g ++ rest) with ((x :: g) ++ rest) in Hs.
  assert (Forall (λ y, triple_of y = Some m) (x :: g)) as Hxg by (by constructor).
  rewrite Forall_forall in Hxg.
  apply elem_of_app in Hs as [Hs|Hs].
  - exists o. split; [left|]. split.
    + by rewrite (Hxg o (survivor_elem _ _ Hsurv)), (Hxg s Hs).
    + by eapply survivor_not_later.
  - destruct (IH s Hs) as (o' & Ho' & Heq & Hlate).
    exists o'. split; [by right|done].
Qed.

Lemma adjacent_run {K} (a : K) (l1 l2 : list K) :
  Forall (λ b, a = b) l1 → l1 ≠ [] → head l2 ≠ Some a →
  adjacent (l1 ++ l2) → (a ∉ l2) ∧ adjacent l2.
Proof.
  intros Hall. induction Hall as [|b l1 <- _ IH]; [done|].
  intros _ Hhead [Hnext Hadj]. destruct l1 as [|b l1]; simpl in *.
  - split; [|done]. intros Hin. by apply Hhead, Hnext.
  - apply IH; done.
Qed.

Lemma resolved_NoDup tmp keep :
  resolved proc tmp keep →
  adjacent (triple_of <$> tmp) → NoDup (triple_of <$> keep).
Proof.
  induction 1 as [|x g rest m o keep Hx Hg Hrest Hsurv Hres IH]; intros Hadj.
  { constructor. }
  change (x :: g ++ rest) with ((x :: g) ++ rest) in Hadj.
  rewrite fmap_app in Hadj.
  assert (Forall (λ y, triple_of y = Some m) (x :: g)) as Hxg by (by constructor).
  apply (adjacent_run (Some m)) in Hadj as [Hnot Hadj].
  - rewrite fmap_cons. apply NoDup_cons. split; [|by apply IH].
    rewrite Forall_forall in Hxg.
    rewrite (Hxg o (survivor_elem _ _ Hsurv)).
    intros Hin. apply Hnot. eapply elem_of_sublist; [done|].
    by apply fmap_sublist, resolved_sublist.
  - apply Forall_fmap. eapply Forall_impl; [done|]. intros y Hy. simpl. congruence.
  - done.
  - destruct rest as [|z rest]; simpl in *; congruence.
Qed.

Lemma StronglySorted_lookup_le (l : list string) i j a b :
  StronglySorted String.le l →
  l !! i = Some a → l !! j = Some b → (i ≤ j)%nat → String.le a b.
Proof.
  intros Hs. revert i j.
  induction Hs as [|c l Hs IH Hall]; intros [|i] [|j] Hi Hj Hij;
    simplify_eq/=; try lia.
  - reflexivity.
  - rewrite Forall_forall in Hall. apply Hall.
    eapply list_elem_of_lookup_2, Hj.
  - apply (IH i j); [done..|lia].
Qed.

Lemma survivor_first group o s :
  survivor proc group o → StronglySorted String.le group →
  s ∈ group → not_later proc o s → String.le o s.
Proof.
  destruct group as [|x [|y g]]; simpl.
  - by intros (k & Hk & _).
  - intros -> _ ->%list_elem_of_singleton _. reflexivity.
  - intros (k & Hk & _ & Hfirst) Hsorted [j Hj]%list_elem_of_lookup Hlate.
    destruct (decide (j < k)%nat) as [Hlt|Hge].
    + by destruct (Hfirst j s Hlt Hj).
    + eapply StronglySorted_lookup_le; [done..|lia].
Qed.

Lemma resolved_latest tmp keep :
  resolved proc tmp keep →
  adjacent (triple_of <$> tmp) → StronglySorted String.le tmp →
  ∀ o s, o ∈ keep → s ∈ tmp → triple_of s = triple_of o →
    s = o ∨ (not_later proc s o ∧ (not_later proc o s → String.le o s)).
Proof.
  induction 1 as [|x g rest m o0 keep Hx Hg Hrest Hsurv Hres IH];
    intros Hadj Hsorted o s Ho Hs Heq.
  { inversion Ho. }
  change (x :: g ++ rest) with ((x :: g) ++ rest) in *.
  rewrite fmap_app in Hadj.
  assert (Forall (λ y, triple_of y = Some m) (x :: g)) as Hxg by (by constructor).
  apply (adjacent_run (Some m)) in Hadj as [Hnot Hadj]; cycle 1.
  { apply Forall_fmap. eapply Forall_impl; [done|]. intros y Hy. simpl. congruence. }
  { done. }
  { destruct rest as [|z rest]; simpl in *; congruence. }
  rewrite Forall_forall in Hxg.
  pose proof (survivor_elem _ _ Hsurv) as Ho0.
  assert (∀ y, y ∈ rest → triple_of y ≠ Some m) as Hrest'.
  { intros y Hy Hm. apply Hnot. rewrite <- Hm. by apply list_elem_of_fmap_2. }
  apply elem_of_cons in Ho as [->|Ho]; apply elem_of_app in Hs as [Hs|Hs].
  - destruct (survivor_not_later _ _ _ Hsurv Hs) as [->|Hlate]; [by left|].
    right. split; [done|]. apply (survivor_first (x :: g)); [done| |done].
    by apply StronglySorted_app_1_l in Hsorted.
  - destruct (Hrest' s Hs). by rewrite Heq, (Hxg o0 Ho0).
  - assert (o ∈ rest) as Hor by (eapply elem_of_sublist, resolved_sublist; done).
    destruct (Hrest' o Hor). by rewrite <- Heq, (Hxg s Hs).
  - apply IH; [done| |done..]. by apply StronglySorted_app_1_r in Hsorted.
Qed.

Lemma first_seen_spec `{EqDecision K} (l : list K) :
  NoDup (first_seen l) ∧ ∀ a, a ∈ first_seen l ↔ a ∈ l.
Proof.
  unfold first_seen.
  enough (∀ acc, NoDup acc →
    NoDup (foldl (λ acc a, if decide (a ∈ acc) then acc else acc ++ [a]) acc l) ∧
    ∀ a, a ∈ foldl (λ acc a, if decide (a ∈ acc) then acc else acc ++ [a]) acc l
         ↔ a ∈ acc ∨ a ∈ l) as Hgen.
  { destruct (Hgen [] (NoDup_nil_2)) as [? Hin]. split; [done|].
    intros a. rewrite Hin. set_solver. }
  induction l as [|b l IH]; intros acc Hacc; simpl.
  - split; [done|]. set_solver.
  - destruct (decide (b ∈ acc)) as [Hb|Hb].
    + destruct (IH acc Hacc) as [? Hin]. split; [done|].
      intros a. rewrite Hin. set_solver.
    + destruct (IH (acc ++ [b])) as [? Hin].
      { apply NoDup_app. split; [done|]. split; [|apply NoDup_singleton].
        intros a Ha ->%list_elem_of_singleton. done. }
      split; [done|]. intros a. rewrite Hin. set_solver.
Qed.

Lemma two_in_filter (P : string → Prop) `{∀ x, Decision (P x)} l a b :
  a ∈ l → b ∈ l → P a → P b → a ≠ b → (1 < length (filter P l))%nat.
Proof.
  intros Ha Hb HPa HPb Hne.
  assert (a ∈ filter P l) as Ha' by by apply list_elem_of_filter.
  assert (b ∈ filter P l) as Hb' by by apply list_elem_of_filter.
  destruct (filter P l) as [|c [|d k]]; simpl; [inversion Ha'| |lia].
  apply list_elem_of_singleton in Ha', Hb'. congruence.
Qed.

End duplicates_lemmas.

Section duplicates_claims.
Import STACArchive.

(** C1 (as amended). For every list of scene locations whose basenames
    each contain the pattern, whose manifests can be read wherever a
    triple occurs more than once, and in whose sorted order scenes of
    equal triple are adjacent, [_filter_duplicates] returns a list that
    is a subsequence of the sorted input, so the survivors come in
    ascending order of location and not in input order; that holds
    exactly one entry per distinct (instrument token, start, stop)
    triple; in which the entry of a triple is at least as late in
    processing time as every scene of that triple, and the least
    location among the latest; and that contains every scene whose
    triple occurs only once. *)
Theorem filter_duplicates_one_per_triple
    (proc : string → res Z) (scenes : list string) :
  Forall (λ s, is_Some (triple_of s)) scenes →
  (∀ s, s ∈ scenes → duplicated scenes s →
        ∃ t, _get_proc_time proc s = Ok t) →
  adjacent (triple_of <$> sorted scenes) →
  ∃ keep, _filter_duplicates proc scenes = Ok keep ∧
    keep `sublist_of` sorted scenes ∧
    triple_of <$> keep ≡ₚ first_seen (triple_of <$> scenes) ∧
    (∀ o s, o ∈ keep → s ∈ scenes → triple_of s = triple_of o →
       s = o ∨ (not_later proc s o ∧ (not_later proc o s → String.le o s))) ∧
    (∀ s, s ∈ scenes → ¬ duplicated scenes s → s ∈ keep).
Proof.
  intros Htr Hread Hadj. unfold _filter_duplicates.
  pose proof (merge_sort_Permutation String.le scenes) as Hperm.
  fold (sorted scenes) in Hperm.
  destruct (scan_Ok proc (length (sorted scenes)) (sorted scenes))
    as (keep & Hscan & Hres).
  - done.
  - apply Forall_forall. intros s Hs. rewrite Forall_forall in Htr.
    apply Htr. by rewrite <- Hperm.
  - intros s Hs Hd. apply Hread; [by rewrite <- Hperm|].
    by apply (duplicated_Permutation (sorted scenes)).
  - exists keep. split; [done|].
    pose proof (resolved_sublist _ _ _ Hres) as Hsub.
    pose proof (resolved_cover _ _ _ Hres) as Hcover.
    split; [done|]. split; [|split].
    + destruct (first_seen_spec (triple_of <$> scenes)) as [Hnd Hin].
      apply NoDup_Permutation; [by eapply resolved_NoDup|done|].
      intros a. rewrite Hin, <- Hperm. split.
      * intros Ha. eapply elem_of_sublist; [done|]. by apply fmap_sublist.
      * intros (s & -> & Hs)%list_elem_of_fmap.
        destruct (Hcover s Hs) as (o & Ho & <- & _).
        by apply list_elem_of_fmap_2.
    + intros o s Ho Hs Heq. eapply resolved_latest; [done|done| |done| |done].
      * apply StronglySorted_merge_sort; apply _.
      * by rewrite Hperm.
    + intros s Hs Hnd. rewrite <- Hperm in Hs.
      destruct (Hcover s Hs) as (o & Ho & Heq & _).
      destruct (decide (o = s)) as [->|Hne]; [done|].
      destruct Hnd. apply (two_in_filter _ scenes o s); [|by rewrite <- Hperm|done..].
      rewrite <- Hperm. by eapply elem_of_sublist.
Qed.

Lemma filter_duplicates_one_per_triple_witness :
  ∃ keep,
    _filter_duplicates Examples.manifests
      [Examples.scene_b; Examples.scene_a2; Examples.scene_a1] = Ok keep ∧
    keep `sublist_of`
      sorted [Examples.scene_b; Examples.scene_a2; Examples.scene_a1] ∧
    triple_of <$> keep ≡ₚ
      first_seen (triple_of <$>
        [Examples.scene_b; Examples.scene_a2; Examples.scene_a1]) ∧
    (∀ o s, o ∈ keep →
       s ∈ [Examples.scene_b; Examples.scene_a2; Examples.scene_a1] →
       triple_of s = triple_of o →
       s = o ∨ (not_later Examples.manifests s o ∧
                (not_later Examples.manifests o s → String.le o s))) ∧
    (∀ s, s ∈ [Examples.scene_b; Examples.scene_a2; Examples.scene_a1] →
       ¬ duplicated [Examples.scene_b; Examples.scene_a2; Examples.scene_a1] s →
       s ∈ keep).
Proof.
  apply (filter_duplicates_one_per_triple Examples.manifests
           [Examples.scene_b; Examples.scene_a2; Examples.scene_a1]).
  - repeat (apply Forall_cons_2; [eexists; vm_compute; reflexivity|]).
    apply Forall_nil_2.
  - intros s _ _. eexists. reflexivity.
  - vm_compute. repeat split; intros Hin; first
      [ reflexivity
      | exfalso;
        repeat (apply elem_of_cons in Hin as [Hin|Hin]; [discriminate Hin|]);
        inversion Hin ].
Defined.

(** Where the sorted input does not have the scenes of a triple adjacent,
    as with duplicates in two directories and another scene between them,
    each run of the triple keeps its own survivor. *)
Lemma filter_duplicates_across_directories :
  _filter_duplicates Examples.manifests
    [Examples.scene_a1; Examples.scene_b; Examples.scene_a2_elsewhere]
  = Ok [Examples.scene_a1; Examples.scene_b; Examples.scene_a2_elsewhere] ∧
  triple_of Examples.scene_a1 = triple_of Examples.scene_a2_elsewhere.
Proof. split; by vm_compute. Qed.

(** C1 (as stated) fails: the claim has the survivors in the order in
    which their groups first occur in the input. On two scenes of
    different triples given in descending order of location the result
    is in ascending order. *)
Lemma filter_duplicates_input_order_lost :
  Forall (λ s, is_Some (triple_of s)) [Examples.scene_b; Examples.scene_a1] ∧
  _filter_duplicates Examples.manifests [Examples.scene_b; Examples.scene_a1]
    = Ok [Examples.scene_a1; Examples.scene_b] ∧
  triple_of <$> [Examples.scene_a1; Examples.scene_b]
    ≠ first_seen (triple_of <$> [Examples.scene_b; Examples.scene_a1]).
Proof.
  split.
  { repeat (apply Forall_cons_2; [eexists; vm_compute; reflexivity|]).
    apply Forall_nil_2. }
  split; [by vm_compute|]. vm_compute. discriminate.
Qed.

End duplicates_claims.

(** ** Retry on transient errors *)

Section retry_lemmas.
Import STACArchive.
Context {A : Type}.
Variable attempt : nat → res A.
Variable max_tries : Z.

(** [n] transient answers, each at a counter below [max_tries], take the
    loop [n] rounds further: [n] calls made and [n] seconds slept. *)
Lemma retry_loop_skip (n : nat) : ∀ fuel i w,
  (∀ k, (k < n)%nat → transient (attempt (calls w + k))) →
  ((0 < n)%nat → i + Z.of_nat n ≤ max_tries) →
  retry_loop attempt max_tries (n + fuel) i w =
  retry_loop attempt max_tries fuel (i + Z.of_nat n)
    (World (calls w + n) (slept w + Z.of_nat n)).
Proof.
  induction n as [|n IH]; intros fuel i [c sl] Htr Hi; simpl.
  - f_equal; [lia|f_equal; lia].
  - destruct (Htr 0%nat) as [msg Hmsg]; [lia|]. simpl in Hmsg.
    rewrite Nat.add_0_r in Hmsg. rewrite Hmsg.
    destruct (Z.ltb_spec i max_tries) as [_|]; [|lia].
    unfold sleep, call. simpl. rewrite IH.
    + cbn [calls slept]. f_equal; [lia|f_equal; lia].
    + intros k Hk. simpl. replace (S (c + k)) with (c + S k)%nat by lia.
      apply (Htr (S k)). lia.
    + lia.
Qed.

Lemma retry_loop_answer (fuel : nat) (i : Z) (w : world) :
  retry_loop attempt max_tries (S fuel) i w =
  match attempt (calls w) with
  | Ok a => (Ok a, call w)
  | Raise (APIError msg) =>
      if i <? max_tries
      then retry_loop attempt max_tries fuel (i + 1) (sleep 1 (call w))
      else (Raise (APIError msg), call w)
  | Raise e => (Raise e, call w)
  end.
Proof. reflexivity. Qed.

(** After [n] transient answers within the bound, the answer number
    [n + 1] ends the loop unless it is transient and tries remain. *)
Lemma retry_spec (n : nat) (w : world) :
  (∀ k, (k < n)%nat → transient (attempt (calls w + k))) →
  ((0 < n)%nat → 1 + Z.of_nat n ≤ max_tries) →
  let w' := World (calls w + S n) (slept w + Z.of_nat n) in
  (∀ a, attempt (calls w + n) = Ok a →
        retry attempt max_tries w = (Ok a, w')) ∧
  (∀ e, attempt (calls w + n) = Raise e → ¬ is_APIError e →
        retry attempt max_tries w = (Raise e, w')) ∧
  (∀ msg, attempt (calls w + n) = Raise (APIError msg) →
        max_tries ≤ 1 + Z.of_nat n →
        retry attempt max_tries w = (Raise (APIError msg), w')).
Proof.
  intros Htr Hn w'. unfold retry.
  assert (∃ f, Z.to_nat (Z.max 1 max_tries) = (n + S f)%nat) as [f ->].
  { exists (Z.to_nat (Z.max 1 max_tries) - S n)%nat.
    destruct n; lia. }
  rewrite retry_loop_skip by done. rewrite retry_loop_answer. simpl.
  assert (call (World (calls w + n) (slept w + Z.of_nat n)) = w') as Hw.
  { unfold call, w'. simpl. f_equal. lia. }
  rewrite Hw. split; [|split].
  - by intros a ->.
  - intros e -> Hne. destruct e; try done. destruct Hne. by eexists.
  - intros msg -> Hmax.
    by destruct (Z.ltb_spec (1 + Z.of_nat n) max_tries) as [|_]; [lia|].
Qed.

(** The loop ends: there is a number of calls [N], between 1 and
    [max(1, max_tries)], such that the first [N - 1] answers are
    transient and the loop returns the answer number [N], which is not
    transient unless [N] is the bound. *)
Lemma retry_total (w : world) :
  ∃ n : nat,
    (Z.of_nat (S n) ≤ Z.max 1 max_tries) ∧
    (∀ k, (k < n)%nat → transient (attempt (calls w + k))) ∧
    retry attempt max_tries w =
      (attempt (calls w + n), World (calls w + S n) (slept w + Z.of_nat n)) ∧
    (transient (attempt (calls w + n)) → Z.of_nat (S n) = Z.max 1 max_tries).
Proof.
  assert (∀ m : nat, (Z.of_nat m < Z.max 1 max_tries) →
    (∀ k, (k < m)%nat → transient (attempt (calls w + k))) →
    ∀ d : nat, Z.of_nat (m + S d) = Z.max 1 max_tries →
    ∃ n : nat,
      (Z.of_nat (S n) ≤ Z.max 1 max_tries) ∧
      (∀ k, (k < n)%nat → transient (attempt (calls w + k))) ∧
      retry attempt max_tries w =
        (attempt (calls w + n), World (calls w + S n) (slept w + Z.of_nat n)) ∧
      (transient (attempt (calls w + n)) → Z.of_nat (S n) = Z.max 1 max_tries))
    as Hgen.
  { intros m Hm Htr d. revert m Hm Htr.
    induction d as [|d IH]; intros m Hm Htr Hd.
    - exists m. split; [lia|]. split; [done|].
      destruct (retry_spec m w Htr) as (Hok & Herr & Hlast); [lia|].
      split; [|intros _; lia].
      destruct (attempt (calls w + m)) as [a|e] eqn:Hat; [by apply Hok|].
      destruct e; try (apply Herr; [done|by intros [? ?]]).
      apply Hlast; [done|lia].
    - destruct (attempt (calls w + m)) as [a|e] eqn:Hat.
      + exists m. split; [lia|]. split; [done|].
        destruct (retry_spec m w Htr) as (Hok & _); [lia|].
        rewrite Hat. split; [by apply Hok|]. by intros [? ?].
      + assert (is_APIError e ∨ ¬ is_APIError e) as [[msg ->]|Hne].
        { destruct e; try (right; by intros [? ?]). left. by eexists. }
        * apply (IH (S m)); [lia| |lia].
          intros k Hk. destruct (decide (k = m)) as [->|]; [by eexists|].
          apply Htr. lia.
        * exists m. split; [lia|]. split; [done|].
          destruct (retry_spec m w Htr) as (_ & Herr & _); [lia|].
          rewrite Hat. split; [by apply Herr|].
          intros [msg [= ->]]. destruct Hne. by eexists. }
  apply (Hgen 0%nat) with (d := (Z.to_nat (Z.max 1 max_tries) - 1)%nat);
    [lia| |lia].
  intros k Hk. lia.
Qed.

End retry_lemmas.

Section retry_claims.
Import STACArchive.
Context {Client coord Vector : Type}.
Variable Client_open : nat → string → res Client.
Variable Client_search :
  nat → Client → list string → clause coord → res (list item).
Variable extent_4326 : Vector → extent coord.
Variable strftime : datetime → string.
Variable path_exists : string → bool.
Variable realpath : string → string.
Variable manifest_processing_start : string → res Z.

Local Abbreviation select :=
  (select Client coord Client_search Vector extent_4326 strftime
     path_exists realpath manifest_processing_start).

(** The constructor sets the bound of 300 tries. *)
Lemma init_max_tries url collections w self w' :
  __init__ Client Client_open url collections w = (Ok self, w') →
  max_tries Client self = 300.
Proof.
  unfold __init__. destruct (_open_catalog _ _ _ _ _) as [[c|e] w0]; [|done].
  destruct collections; intros [= <- <-]; done.
Qed.

(** C2. Opening the catalog and every search retry a transient API
    error after one second, up to 300 tries in all. If the first [N - 1]
    answers of the server are transient, [N ≤ 300], then: if answer [N]
    is a success the call succeeds with it; if answer [N] is another
    error, that error propagates at once; if answer [N] is transient too
    and [N = 300], that last transient error is raised again. In each
    case exactly [N] calls were made and [N - 1] seconds slept. A search
    that succeeds goes on to resolve the items found. *)
Theorem transient_errors_retried_up_to_300
    (url : string) (self : t Client) (pars : query Vector)
    (date_strict check_exist : bool) (flt : clause coord)
    (w : world) (N : nat) :
  max_tries Client self = 300 →
  select_filter coord Vector extent_4326 strftime pars date_strict = Ok flt →
  (1 ≤ N ≤ 300)%nat →
  let open := λ n : nat, Client_open n url in
  let search := λ n : nat,
    Client_search n (catalog Client self) (collections Client self) flt in
  let finish := λ result,
    out ← for_each (resolve path_exists realpath check_exist) result;
    _filter_duplicates manifest_processing_start out in
  let w' := World (calls w + N)%nat (slept w + (Z.of_nat N - 1)) in
  ((∀ k, (k < N - 1)%nat → transient (open (calls w + k)%nat)) →
     (∀ c, open (calls w + (N - 1))%nat = Ok c →
           _open_catalog Client Client_open url 300 w = (Ok c, w')) ∧
     (∀ e, open (calls w + (N - 1))%nat = Raise e → ¬ is_APIError e →
           _open_catalog Client Client_open url 300 w = (Raise e, w')) ∧
     (∀ msg, open (calls w + (N - 1))%nat = Raise (APIError msg) → N = 300%nat →
           _open_catalog Client Client_open url 300 w
           = (Raise (APIError msg), w'))) ∧
  ((∀ k, (k < N - 1)%nat → transient (search (calls w + k)%nat)) →
     (∀ result, search (calls w + (N - 1))%nat = Ok result →
           select self pars date_strict check_exist w = (finish result, w')) ∧
     (∀ e, search (calls w + (N - 1))%nat = Raise e → ¬ is_APIError e →
           select self pars date_strict check_exist w = (Raise e, w')) ∧
     (∀ msg, search (calls w + (N - 1))%nat = Raise (APIError msg) → N = 300%nat →
           select self pars date_strict check_exist w
           = (Raise (APIError msg), w'))).
Proof.
  intros Hmax Hflt HN open search finish w'.
  assert (w' = World (calls w + S (N - 1)) (slept w + Z.of_nat (N - 1))) as Hw'.
  { unfold w'. f_equal; lia. }
  split; intros Htr.
  - destruct (retry_spec open 300 (N - 1) w Htr) as (Hok & Herr & Hlast); [lia|].
    rewrite <- Hw' in *. unfold _open_catalog. fold open.
    split; [done|]. split; [done|].
    intros msg Hmsg ->. by apply Hlast.
  - destruct (retry_spec search 300 (N - 1) w Htr) as (Hok & Herr & Hlast); [lia|].
    rewrite <- Hw' in *. unfold STACArchive.select. rewrite Hflt, Hmax.
    fold search. split; [|split].
    + intros result Hres. by rewrite (Hok result Hres).
    + intros e He Hne. by rewrite (Herr e He Hne).
    + intros msg Hmsg ->. rewrite (Hlast msg Hmsg); [done|lia].
Qed.

(** Neither call leaves its loop for want of fuel, and a call that fails
    with a transient error has made exactly 300 calls to the server. *)
Lemma open_catalog_total (url : string) (w : world) :
  ∃ N : nat, (1 ≤ N ≤ 300)%nat ∧
    _open_catalog Client Client_open url 300 w =
      (Client_open (calls w + (N - 1)) url,
       World (calls w + N) (slept w + (Z.of_nat N - 1))) ∧
    (transient (Client_open (calls w + (N - 1)) url) → N = 300%nat).
Proof.
  destruct (retry_total (λ n, Client_open n url) 300 w)
    as (n & Hn & _ & Hrun & Hlast).
  exists (S n). replace (S n - 1)%nat with n by lia.
  split; [lia|]. split.
  - unfold _open_catalog. rewrite Hrun. do 2 f_equal. lia.
  - intros Htr. specialize (Hlast Htr). lia.
Qed.

End retry_claims.

Lemma transient_errors_retried_up_to_300_witness :
  STACArchive._open_catalog unit (λ n _, Examples.busy_twice () n)
    "https://stac.example" 300 (World 0 0) = (Ok (), World 3 2) ∧
  STACArchive.select unit Z (λ n _ _ _, Examples.busy_twice [] n) unit
    (λ _, STACArchive.Extent Z 0 0 0 0) (λ _, "") (λ _, true) (λ p, p)
    Examples.manifests Examples.connection Examples.no_filter true true (World 0 0)
  = (Ok [], World 3 2).
Proof.
  destruct (transient_errors_retried_up_to_300
    (λ n _, Examples.busy_twice () n) (λ n _ _ _, Examples.busy_twice [] n)
    (λ _ : unit, STACArchive.Extent Z 0 0 0 0) (λ _, "") (λ _, true) (λ p, p)
    Examples.manifests "https://stac.example" Examples.connection
    Examples.no_filter true true (STACArchive.Junction "and" [])
    (World 0 0) 3) as [Hopen Hsearch].
  - reflexivity.
  - reflexivity.
  - lia.
  - split.
    + destruct Hopen as (Hok & _).
      * intros k Hk. exists "busy". simpl.
        unfold Examples.busy_twice. destruct (decide (k < 2)%nat); [done|lia].
      * apply Hok. reflexivity.
    + destruct Hsearch as (Hok & _).
      * intros k Hk. exists "busy". simpl.
        unfold Examples.busy_twice. destruct (decide (k < 2)%nat); [done|lia].
      * apply (Hok []). reflexivity.
Defined.

(** ** The filter of [STACArchive.select] *)

Section filter_claims.
Import STACArchive.
Context {coord Vector : Type}.
Variable extent_4326 : Vector → extent coord.
Variable strftime : datetime → string.

Local Abbreviation select_filter :=
  (select_filter coord Vector extent_4326 strftime).
Local Abbreviation clause_of := (clause_of coord Vector extent_4326 strftime).
Local Abbreviation date_value := (date_value strftime).

Lemma for_each_Ok_inv {A B} (f : A → res B) (l : list A) (ys : list B) :
  for_each f l = Ok ys → Forall2 (λ x y, f x = Ok y) l ys.
Proof.
  revert ys. induction l as [|x l IH]; intros ys; simpl.
  - intros [= <-]. constructor.
  - intros (y & Hy & (ys' & Hys & [= <-])%bind_Ok)%bind_Ok.
    constructor; [done|by apply IH].
Qed.



End filter_claims.


(** The filter that [asf_select] applies under strict semantics keeps the
    features that start at or after [mindate] and stop at or before
    [maxdate]; without strict semantics [asf_select] leaves the dates to
    the server. *)
Lemma asf_strict_filter {coord} (strptime_iso : string → res datetime)
    (start stop : option datetime) (features kept : list (feature coord)) :
  comprehension (within coord strptime_iso start stop) features = Ok kept →
  kept `sublist_of` features ∧
  ∀ x, x ∈ kept → ∃ s e t0 t1,
    start = Some s ∧ stop = Some e ∧
    date_extract coord strptime_iso x "startTime" = Ok t0 ∧
    date_extract coord strptime_iso x "stopTime" = Ok t1 ∧
    s ≤ t0 ∧ t1 ≤ e.
Proof.
  revert kept. induction features as [|x features IH]; intros kept; simpl.
  - intros [= <-]. split; [done|]. by intros x ?%elem_of_nil.
  - intros (b & Hb & (xs & Hxs & [= <-])%bind_Ok)%bind_Ok.
    destruct (IH xs Hxs) as [Hsub Hall]. destruct b.
    + split; [by apply sublist_skip|].
      intros y [->|Hy]%elem_of_cons; [|by apply Hall].
      unfold within in Hb. apply bind_Ok in Hb as (t0 & Ht0 & Hb).
      destruct start as [s|]; [|done].
      destruct (Z.leb_spec s t0) as [Hs|]; [|done].
      apply bind_Ok in Hb as (t1 & Ht1 & Hb).
      destruct stop as [e|]; [|done].
      destruct (Z.leb_spec t1 e) as [He|]; [|done].
      by exists s, e, t0, t1.
    + split; [by apply sublist_cons|done].
Qed.

(** ** Resolution of the items found and the test for existence *)

Section string_lemmas.

Lemma append_cons (a : ascii) (p r : string) :
  String a p +:+ r = String a (p +:+ r).
Proof. reflexivity. Qed.

Lemma append_nil (r : string) : "" +:+ r = r.
Proof. reflexivity. Qed.

Lemma startswith_spec (p s : string) :
  startswith p s = true ↔ ∃ rest, s = p +:+ rest.
Proof.
  revert s. induction p as [|a p IH]; intros s; simpl.
  - split; [intros _; by exists s|done].
  - destruct s as [|b s].
    { split; [done|]. intros [rest Hrest]. by rewrite append_cons in Hrest. }
    destruct (decide (a = b)) as [->|Hne].
    + rewrite IH. split; intros [rest Hrest]; exists rest.
      * by rewrite append_cons, <- Hrest.
      * rewrite append_cons in Hrest. congruence.
    + split; [done|]. intros [rest Hrest].
      rewrite append_cons in Hrest. congruence.
Qed.

Lemma startswith_skip (p s : string) :
  startswith p s = true → s = p +:+ skip (String.length p) s.
Proof.
  revert s. induction p as [|a p IH]; intros s; simpl; [done|].
  destruct s as [|b s]; [done|].
  destruct (decide (a = b)) as [->|]; [|done].
  intros Hs. rewrite append_cons. f_equal. by apply IH.
Qed.

Lemma upto_append (p r : string) : upto (String.length p) (p +:+ r) = p.
Proof.
  induction p as [|a p IH]; [by destruct r|].
  rewrite append_cons. simpl. by f_equal.
Qed.

(** [find_end] finds the first occurrence of the needle and returns the
    position after it. *)
Lemma find_end_spec (needle s : string) (e : nat) :
  find_end needle s = Some e →
  ∃ pre post, s = pre +:+ needle +:+ post ∧ upto e s = pre +:+ needle ∧
    ∀ pre' post', s = pre' +:+ needle +:+ post' →
      (String.length pre ≤ String.length pre')%nat.
Proof.
  revert e. induction s as [|c s IH]; intros e; simpl.
  - destruct (startswith needle "") eqn:Hst; [|done]. intros [= <-].
    pose proof Hst as [rest Hrest]%startswith_spec.
    exists "", rest. rewrite !append_nil. split; [done|].
    split; [|intros; simpl; lia]. rewrite Hrest at 1. apply upto_append.
  - destruct (startswith needle (String c s)) eqn:Hst.
    + intros [= <-]. pose proof Hst as [rest Hrest]%startswith_spec.
      exists "", rest. rewrite !append_nil. split; [done|].
      split; [|intros; simpl; lia]. rewrite Hrest. apply upto_append.
    + destruct (find_end needle s) as [e'|] eqn:Hfind; [|done].
      intros [= <-]. destruct (IH e' eq_refl) as (pre & post & -> & Hup & Hmin).
      exists (String c pre), post. rewrite !append_cons.
      split; [done|]. split; [simpl; by f_equal|].
      intros [|c' pre'] post' Heq.
      * rewrite append_nil in Heq.
        assert (startswith needle (String c (pre +:+ needle +:+ post)) = true)
          as Hst'; [|congruence].
        apply startswith_spec. by exists post'.
      * rewrite append_cons in Heq. injection Heq as -> Heq. simpl.
        specialize (Hmin pre' post' Heq). lia.
Qed.

End string_lemmas.

Section existence_claims.
Import STACArchive.
Context {Client coord Vector : Type}.
Variable Client_search :
  nat → Client → list string → clause coord → res (list item).
Variable extent_4326 : Vector → extent coord.
Variable strftime : datetime → string.
Variable path_exists : string → bool.
Variable realpath : string → string.
Variable manifest_processing_start : string → res Z.

Local Abbreviation select :=
  (select Client coord Client_search Vector extent_4326 strftime
     path_exists realpath manifest_processing_start).
Local Abbreviation resolve := (resolve path_exists realpath).

Local Arguments startswith : simpl never.
Local Arguments skip : simpl never.

(** A comprehension with a failing element raises the exception of the
    first one that fails. *)
Lemma for_each_first_error {A B} (f : A → res B) (l : list A) :
  (∃ x e, x ∈ l ∧ f x = Raise e) →
  ∃ x e, x ∈ l ∧ f x = Raise e ∧ for_each f l = Raise e.
Proof.
  induction l as [|y l IH]; intros (x & e & Hx & He).
  { by apply elem_of_nil in Hx. }
  simpl. destruct (f y) as [b|e'] eqn:Hy.
  - apply elem_of_cons in Hx as [->|Hx]; [congruence|].
    destruct IH as (x' & e'' & Hx' & He' & Hall); [by exists x, e|].
    exists x', e''. split; [by right|]. split; [done|]. by rewrite Hall.
  - exists y, e'. split; [left|]. done.
Qed.

(** The path of an item: the [href] of its first asset up to the end of
    the first [.SAFE], without a leading [file://]. *)
Lemma local_path_spec (it : item) (path : string) :
  local_path it = Ok path →
  ∃ key href rest pre post,
    assets it = (key, href) :: rest ∧
    href = pre +:+ ".SAFE" +:+ post ∧
    (∀ pre' post', href = pre' +:+ ".SAFE" +:+ post' →
       (String.length pre ≤ String.length pre')%nat) ∧
    (pre +:+ ".SAFE" = "file://" +:+ path ∨
     (startswith "file://" (pre +:+ ".SAFE") = false ∧ path = pre +:+ ".SAFE")).
Proof.
  unfold local_path, getitem.
  destruct (assets it) as [|[key href] rest]; [done|]. simpl.
  destruct (find_end ".SAFE" href) as [e|] eqn:Hfind; [|done].
  destruct (find_end_spec _ _ _ Hfind) as (pre & post & Hhref & Hup & Hmin).
  intros [= <-]. exists key, href, rest, pre, post.
  split; [done|]. split; [done|]. split; [done|]. rewrite Hup.
  destruct (startswith "file://" (pre +:+ ".SAFE")) eqn:Hst;
    [left|right; by split].
  apply startswith_skip in Hst. exact Hst.
Qed.

(** C9 (as amended). When the search has returned its items and
    existence is to be checked, an item whose path does not exist makes
    [select] fail without a result. The failure is the not-found error
    naming a path that does not exist, or the [IndexError] or
    [AttributeError] of an item that has no path, for want of an asset
    or of [.SAFE] in the [href] of its first asset; when every item has
    a path, it is the not-found error. The path of an item is the
    [href] of its first asset cut after the first [.SAFE] and freed of a
    leading [file://]; an item whose path exists resolves to the real
    path. *)
Theorem select_fails_on_missing_scene
    (self : t Client) (pars : query Vector) (date_strict : bool)
    (flt : clause coord) (result : list item) (w w' : world) :
  select_filter coord Vector extent_4326 strftime pars date_strict = Ok flt →
  retry (λ n, Client_search n (catalog Client self) (collections Client self) flt)
    (max_tries Client self) w = (Ok result, w') →
  (∃ it path, it ∈ result ∧ local_path it = Ok path ∧ path_exists path = false) →
  (∃ e, select self pars date_strict true w = (Raise e, w') ∧
     ((∃ it path, it ∈ result ∧ local_path it = Ok path ∧
         path_exists path = false ∧
         e = RuntimeError ["scene does not exist locally:"; path]) ∨
      (∃ it, it ∈ result ∧ local_path it = Raise e ∧
         (e = IndexError ∨ e = AttributeError)))) ∧
  ((∀ it, it ∈ result → ∃ path, local_path it = Ok path) →
     ∃ it path, it ∈ result ∧ local_path it = Ok path ∧
       path_exists path = false ∧
       select self pars date_strict true w =
         (Raise (RuntimeError ["scene does not exist locally:"; path]), w')) ∧
  (∀ it path, it ∈ result → local_path it = Ok path →
     (path_exists path = true → ∀ check_exist,
        resolve check_exist it = Ok (realpath path)) ∧
     ∃ key href rest pre post,
       assets it = (key, href) :: rest ∧
       href = pre +:+ ".SAFE" +:+ post ∧
       (∀ pre' post', href = pre' +:+ ".SAFE" +:+ post' →
          (String.length pre ≤ String.length pre')%nat) ∧
       (pre +:+ ".SAFE" = "file://" +:+ path ∨
        (startswith "file://" (pre +:+ ".SAFE") = false ∧
         path = pre +:+ ".SAFE"))).
Proof.
  intros Hflt Hsearch (it & path & Hit & Hpath & Hmiss).
  assert (∃ x e, x ∈ result ∧ resolve true x = Raise e ∧
                 for_each (resolve true) result = Raise e)
    as (x & e & Hx & He & Hall).
  { apply for_each_first_error. exists it. eexists. split; [done|].
    unfold STACArchive.resolve. rewrite Hpath. simpl. by rewrite Hmiss. }
  assert (select self pars date_strict true w = (Raise e, w')) as Hsel.
  { unfold STACArchive.select. by rewrite Hflt, Hsearch, Hall. }
  split; [|split].
  - exists e. split; [done|].
    unfold STACArchive.resolve in He.
    destruct (local_path x) as [px|e0] eqn:Hpx; simpl in He.
    + left. exists x, px. split; [done|]. split; [done|].
      destruct (path_exists px); [done|]. split; [done|]. by simplify_eq.
    + right. injection He as ->. exists x. split; [done|]. split; [done|].
      unfold local_path in Hpx. unfold getitem in Hpx.
      destruct (assets x !! 0%nat) as [ref|]; simpl in Hpx;
        [|left; by simplify_eq].
      destruct (find_end ".SAFE" ref.2); [done|]. right. by simplify_eq.
  - intros Hpaths. destruct (Hpaths x Hx) as [px Hpx].
    exists x, px. split; [done|]. split; [done|].
    unfold STACArchive.resolve in He. rewrite Hpx in He. simpl in He.
    destruct (path_exists px); [done|]. split; [done|]. by simplify_eq.
  - intros it' path' Hit' Hpath'. split.
    + intros Hex check_exist. unfold STACArchive.resolve.
      rewrite Hpath'. simpl. by rewrite Hex.
    + by apply local_path_spec.
Qed.

End existence_claims.

Lemma select_fails_on_missing_scene_witness :
  STACArchive.select unit Z Examples.finds_local_item unit Examples.no_extent
    (λ _, "") Examples.empty_disk (λ p, p) Examples.manifests
    Examples.connection Examples.no_filter true true (World 0 0)
  = (Raise (RuntimeError ["scene does not exist locally:"; Examples.scene_a1]),
     World 1 0).
Proof.
  destruct (select_fails_on_missing_scene Examples.finds_local_item
              Examples.no_extent (λ _, "") Examples.empty_disk (λ p, p)
              Examples.manifests Examples.connection Examples.no_filter true
              (STACArchive.Junction "and" []) [Examples.local_item]
              (World 0 0) (World 1 0))
    as (_ & Hfail & _).
  - reflexivity.
  - reflexivity.
  - exists Examples.local_item, Examples.scene_a1.
    split; [left|]. split; reflexivity.
  - destruct Hfail as (it & path & Hit & Hpath & _ & Hsel).
    + intros it ->%list_elem_of_singleton. by eexists.
    + apply list_elem_of_singleton in Hit as ->.
      vm_compute in Hpath. injection Hpath as <-. exact Hsel.
Defined.

(** C9 (as stated) fails: the claim has the call fail with the not-found
    error whenever a record found resolves to a path that does not
    exist. The records are resolved in the order found, and a record
    whose first asset is no [.SAFE] directory, found before the one that
    is missing, ends the call with [AttributeError]. *)
Lemma select_raises_for_record_without_path_first :
  STACArchive.local_path Examples.local_item = Ok Examples.scene_a1 ∧
  Examples.empty_disk Examples.scene_a1 = false ∧
  STACArchive.select unit Z Examples.finds_zipped_then_local unit
    Examples.no_extent (λ _, "") Examples.empty_disk (λ p, p)
    Examples.manifests Examples.connection Examples.no_filter true true
    (World 0 0)
  = (Raise AttributeError, World 1 0).
Proof. repeat split; vm_compute; reflexivity. Qed.

(** ** Traces *)

Section io_lemmas.
Context {S A B : Type}.

Lemma io_bind_unfold (m : io S A) (k : A → io S B) (s : S) :
  (m ≫= k) s =
  match m s with
  | (Ok a, s') => k a s'
  | (Raise e, s') => (Raise e, s')
  end.
Proof. reflexivity. Qed.

Lemma io_bind_Ok (m : io S A) (k : A → io S B) (s s' : S) (b : B) :
  (m ≫= k) s = (Ok b, s') ↔ ∃ a s1, m s = (Ok a, s1) ∧ k a s1 = (Ok b, s').
Proof.
  rewrite io_bind_unfold. destruct (m s) as [[a|e] s1]; split.
  - intros H. by exists a, s1.
  - by intros (a' & s1' & [= <- <-] & H).
  - done.
  - by intros (a' & s1' & [=] & _).
Qed.

Lemma io_bind_pure (a : A) (k : A → io S B) (s : S) :
  (pure (Ok a) ≫= k) s = k a s.
Proof. reflexivity. Qed.

Lemma io_bind_mret (a : A) (k : A → io S B) (s : S) :
  (mret a ≫= k) s = k a s.
Proof. reflexivity. Qed.

Lemma io_bind_Raise (m : io S A) (k : A → io S B) (s s' : S) (e : exn) :
  m s = (Raise e, s') → (m ≫= k) s = (Raise e, s').
Proof. intros Hm. by rewrite io_bind_unfold, Hm. Qed.

Lemma io_bind_step (m : io S A) (k : A → io S B) (s s' : S) (a : A) :
  m s = (Ok a, s') → (m ≫= k) s = k a s'.
Proof. intros Hm. by rewrite io_bind_unfold, Hm. Qed.

Lemma pure_Ok (r : res A) (s s' : S) (a : A) :
  pure r s = (Ok a, s') ↔ r = Ok a ∧ s' = s.
Proof. unfold pure. split; [by intros [= -> ->]|by intros [-> ->]]. Qed.

End io_lemmas.

Lemma for_io_Forall2 {S A B} (f : A → io S B) (l : list A) :
  ∀ (s s' : S) ys,
    for_io f l s = (Ok ys, s') →
    Forall2 (λ x y, ∃ t t', f x t = (Ok y, t')) l ys.
Proof.
  induction l as [|x l IH]; intros s s' ys; simpl.
  - intros [= <- <-]. constructor.
  - intros (y & t1 & Hy & (ys' & t2 & Hys & [= <- <-])%io_bind_Ok)%io_bind_Ok.
    constructor; [by eexists _, _|by eapply IH].
Qed.

(** ** [collect_neighbors] *)

Section neighbors_claims.
Context {coord Vector : Type}.
Variable buffer_time : string → string → Z → res (string * string).

Local Abbreviation collect := (collect_neighbors coord Vector buffer_time).

Lemma index_path_present (l : list (entry coord)) (s : string) :
  s ∈ paths_of l →
  ∃ before after, l = before ++ Path s :: after ∧
    (s ∉ paths_of before) ∧ index_path l s = Ok (length before).
Proof.
  induction l as [|e l IH]; simpl; [by intros ?%elem_of_nil|].
  destruct e as [p|x]; simpl.
  - destruct (decide (p = s)) as [->|Hne].
    + intros _. exists [], l. split; [done|]. split; [|done].
      by intros ?%elem_of_nil.
    + intros [?|Hs]%elem_of_cons; [done|].
      destruct (IH Hs) as (before & after & -> & Hnot & ->).
      exists (Path p :: before), after. split; [done|]. split; [|done].
      simpl. by intros [?|?]%elem_of_cons.
  - intros Hs. destruct (IH Hs) as (before & after & -> & Hnot & ->).
    exists (Object x :: before), after. by split.
Qed.

Lemma index_path_absent (l : list (entry coord)) (s : string) :
  s ∉ paths_of l → index_path l s = Raise ValueError.
Proof.
  induction l as [|e l IH]; simpl; [done|].
  destruct e as [p|x]; simpl.
  - intros Hs. destruct (decide (p = s)) as [->|Hne].
    + destruct Hs. left.
    + rewrite IH; [done|]. intros ?. apply Hs. by right.
  - intros Hs. by rewrite IH.
Qed.

Lemma elem_of_filter_eq (l : list string) (s : string) :
  s ∈ l ↔ (0 < length (filter (λ p, p = s) l))%nat.
Proof.
  split.
  - intros Hs. assert (s ∈ filter (λ p, p = s) l) as Hin
      by by apply list_elem_of_filter.
    destruct (filter _ l); [by apply elem_of_nil in Hin|simpl; lia].
  - intros Hlen. destruct (filter (λ p, p = s) l) as [|p k] eqn:Hf;
      [simpl in Hlen; lia|].
    assert (p ∈ filter (λ p, p = s) l) as [-> ?]%list_elem_of_filter; [|done].
    rewrite Hf. left.
Qed.

(** C10. [collect_neighbors] makes one search of the archive: without
    geometry, for the sensor, the product and the acquisition mode of
    the scene, from the start of the scene less two seconds to its stop
    plus two seconds, with dates that are not strict. When the selection
    holds the location of the scene, the call returns the selection
    without the first occurrence of that location. A selection is a set
    of locations, so it holds none twice: then the location of the scene
    is not among the neighbours returned, and every other location of
    the selection is. When the selection does not hold the location, the
    call raises [ValueError] and returns no list. *)
Theorem collect_neighbors_removes_first_occurrence
    (a : archive coord Vector) (scene : ID.t coord) (start stop : string)
    (neighbors : list (entry coord)) (tr : trace Vector) :
  buffer_time (ID.start scene) (ID.stop scene) 2 = Ok (start, stop) →
  let args : gmap string value :=
    <["sensor" := VStr (ID.sensor scene)]>
    (<["product" := VStr (ID.product scene)]>
    (<["acquisition_mode" := VStr (ID.acquisition_mode scene)]>
    (<["mindate" := VStr start]>
    (<["maxdate" := VStr stop]>
    (<["date_strict" := VBool false]> ∅))))) in
  archive_select a None args = Ok neighbors →
  let tr' := tr ++ [Searched None args] in
  (ID.scene scene ∈ paths_of neighbors →
     ∃ before after,
       neighbors = before ++ Path (ID.scene scene) :: after ∧
       (ID.scene scene ∉ paths_of before) ∧
       collect a scene tr = (Ok (before ++ after), tr') ∧
       (NoDup (paths_of neighbors) →
          (ID.scene scene ∉ paths_of (before ++ after)) ∧
          ∀ p, p ∈ paths_of neighbors → p ≠ ID.scene scene →
               p ∈ paths_of (before ++ after))) ∧
  (ID.scene scene ∉ paths_of neighbors →
     collect a scene tr = (Raise ValueError, tr')).
Proof.
  intros Hbuf args Hsel tr'.
  change args with (neighbor_query coord scene start stop) in *.
  assert (∀ r, index_path neighbors (ID.scene scene) = r →
            collect a scene tr =
            (i ← r; Ok (delitem neighbors i), tr')) as Hrun.
  { intros r <-. unfold collect_neighbors.
    rewrite io_bind_unfold. unfold pure at 1. rewrite Hbuf.
    rewrite io_bind_unfold. unfold search at 1. rewrite Hsel.
    rewrite io_bind_unfold. unfold pure at 1. fold tr'.
    by destruct (index_path neighbors (ID.scene scene)). }
  split.
  - intros (before & after & -> & Hnot & Hidx)%index_path_present.
    exists before, after. split; [done|]. split; [done|]. split.
    + rewrite (Hrun _ Hidx). simpl. unfold delitem. by rewrite delete_middle.
    + unfold paths_of in *. rewrite !omap_app. simpl.
      intros (_ & _ & [Hafter _]%NoDup_cons)%NoDup_app. split.
      * by intros [?|?]%elem_of_app.
      * intros p [?|[->|?]%elem_of_cons]%elem_of_app Hne;
          [apply elem_of_app; by left|done|apply elem_of_app; by right].
  - intros Hnot. by rewrite (Hrun _ (index_path_absent _ _ Hnot)).
Qed.

End neighbors_claims.

Lemma collect_neighbors_removes_first_occurrence_witness :
  let args : gmap string value :=
    <["sensor" := VStr "S1A"]>
    (<["product" := VStr "GRD"]>
    (<["acquisition_mode" := VStr "IW"]>
    (<["mindate" := VStr "20200103T170723"]>
    (<["maxdate" := VStr "20200103T170752"]>
    (<["date_strict" := VBool false]> ∅))))) in
  collect_neighbors Z unit Examples.buffer_time Examples.holds_two
    Examples.slice_2_of_5 []
  = (Ok [Path Examples.scene_a1], [Searched None args]).
Proof.
  intros args.
  destruct (collect_neighbors_removes_first_occurrence Examples.buffer_time
              Examples.holds_two Examples.slice_2_of_5
              "20200103T170723" "20200103T170752"
              [Path Examples.scene_a1; Path Examples.scene_b] [])
    as [Hpresent _].
  - reflexivity.
  - reflexivity.
  - destruct Hpresent as (before & after & Heq & Hnot & Hrun & _).
    + right. left.
    + destruct before as [|e [|e' before]].
      * injection Heq as Heq _. discriminate Heq.
      * injection Heq as <- <-. exact Hrun.
      * injection Heq as <- <- Heq. by destruct before.
Defined.

(** ** [scene_select] *)

Section selection_lemmas.

Lemma foldl_min_spec (l : list Z) (a : Z) :
  let r := foldl (min_fold Z.leb) a l in
  r ∈ a :: l ∧ r ≤ a ∧ ∀ x, x ∈ l → r ≤ x.
Proof.
  revert a. induction l as [|b l IH]; intros a; simpl.
  - split; [left|]. split; [lia|]. by intros x ?%elem_of_nil.
  - destruct (IH (min_fold Z.leb a b)) as (Hin & Hle & Hall).
    assert (min_fold Z.leb a b ≤ a ∧ min_fold Z.leb a b ≤ b) as [Ha Hb].
    { unfold min_fold. destruct (Z.leb_spec a b); lia. }
    split; [|split].
    + apply elem_of_cons in Hin as [->|Hin].
      * unfold min_fold. destruct (a <=? b); [left|right; left].
      * right; by right.
    + lia.
    + intros x [->|Hx]%elem_of_cons; [lia|by apply Hall].
Qed.

Lemma min_Z_spec (l : list Z) (m : Z) :
  Py.min Z.leb l = Ok m → m ∈ l ∧ ∀ x, x ∈ l → m ≤ x.
Proof.
  destruct l as [|a l]; [done|]. intros [= <-].
  destruct (foldl_min_spec l a) as (Hin & Hle & Hall).
  split; [done|]. intros x [->|Hx]%elem_of_cons; [done|by apply Hall].
Qed.

Lemma max_Z_spec (l : list Z) (m : Z) :
  Py.max Z.leb l = Ok m → m ∈ l ∧ ∀ x, x ∈ l → x ≤ m.
Proof.
  destruct l as [|a l]; [done|]. intros [= <-].
  destruct (foldl_max_spec l a) as (Hin & Hle & Hall).
  split; [done|]. intros x [->|Hx]%elem_of_cons; [done|by apply Hall].
Qed.

Lemma StronglySorted_strict (l : list string) :
  StronglySorted String.le l → NoDup l → StronglySorted (strict String.le) l.
Proof.
  induction 1 as [|x l Hs IH Hall]; intros Hnd; [constructor|].
  apply NoDup_cons in Hnd as [Hx Hnd]. constructor; [by apply IH|].
  rewrite Forall_forall in Hall. apply Forall_forall. intros y Hy.
  split; [by apply Hall|]. intros Hyx. destruct Hx.
  by rewrite (anti_symm String.le x y (Hall y Hy) Hyx).
Qed.

(** [sorted(list(set(l)))] is strictly ascending and has the elements
    of [l]. *)
Lemma sorted_set_spec (l : list string) :
  StronglySorted (strict String.le) (sorted_set l) ∧
  ∀ p, p ∈ sorted_set l ↔ p ∈ l.
Proof.
  unfold sorted_set, sorted.
  pose proof (merge_sort_Permutation String.le
                (elements (list_to_set l : gset string))) as Hperm.
  split.
  - apply StronglySorted_strict.
    + apply StronglySorted_merge_sort; apply _.
    + rewrite Hperm. apply NoDup_elements.
  - intros p. by rewrite Hperm, elem_of_elements, elem_of_list_to_set.
Qed.

Context {coord : Type}.

Lemma paths_of_Path (l : list string) :
  paths_of (coord := coord) (Path <$> l) = l.
Proof. induction l as [|p l IH]; [done|]. simpl. by f_equal. Qed.

Lemma objects_of_Path (l : list string) :
  objects_of (coord := coord) (Path <$> l) = [].
Proof. induction l as [|p l IH]; [done|]. done. Qed.

(** What [sorted(list(set(selection)))] returns is strictly ascending
    in location and holds the locations and the objects selected. *)
Lemma sorted_set_entries_spec (selection scenes : list (entry coord)) :
  sorted_set_entries selection = Ok scenes →
  StronglySorted entry_lt scenes ∧
  (∀ p, p ∈ paths_of scenes ↔ p ∈ paths_of selection) ∧
  objects_of scenes = objects_of selection.
Proof.
  unfold sorted_set_entries.
  destruct (objects_of selection) as [|x [|x' objs]].
  - intros [= <-]. destruct (sorted_set_spec (paths_of selection)) as [Hs Hin].
    rewrite paths_of_Path, objects_of_Path. split; [|done].
    eapply StronglySorted_fmap; [|done]. by intros p q.
  - destruct (paths_of selection); [|done]. intros [= <-].
    split; [|done]. repeat constructor.
  - by destruct (paths_of selection).
Qed.

Context {Vector : Type}.

(** The loop [for item in vec] makes one search per element of [vec],
    in order, all with the same keyword arguments. *)
Lemma for_io_search (a : archive coord Vector) (args : gmap string value)
    (vec : list Vector) : ∀ (tr : trace Vector) results tr',
  for_io (λ item, search_kw a (Some item) args) vec tr = (Ok results, tr') →
  Forall2 (λ g r, archive_select a (Some g) args = Ok r) vec results ∧
  tr' = tr ++ ((λ g, Searched (Some g) args) <$> vec).
Proof.
  induction vec as [|g vec IH]; intros tr results tr'; simpl.
  - intros [= <- <-]. split; [constructor|]. by rewrite app_nil_r.
  - intros (r & t1 & Hr & (rs & t2 & Hrs & [= <- <-])%io_bind_Ok)%io_bind_Ok.
    unfold search_kw in Hr. case_decide; [done|].
    unfold search in Hr. injection Hr as Hr <-.
    destruct (IH _ _ _ Hrs) as [Hall ->].
    split; [by constructor|]. by rewrite <- app_assoc.
Qed.

Lemma elem_of_paths_of_concat (results : list (list (entry coord))) (p : string) :
  p ∈ paths_of (concat results) ↔ ∃ r, r ∈ results ∧ p ∈ paths_of r.
Proof.
  unfold paths_of. induction results as [|r results IH]; simpl.
  - split; [by intros ?%elem_of_nil|]. by intros (r & ?%elem_of_nil & _).
  - rewrite omap_app, elem_of_app, IH. split.
    + intros [Hp|(r' & Hr' & Hp)]; [exists r; split; [left|done]|].
      exists r'. split; [by right|done].
    + intros (r' & [->|Hr']%elem_of_cons & Hp); [by left|].
      right. by exists r'.
Qed.

End selection_lemmas.

Section selection_claims.
Context {coord Vector : Type}.
Variable identify_many :
  list (entry coord) → option string → res (list (ID.t coord)).
Variable geometry : ID.t coord → res Vector.
Variable Vector_open : string → res Vector.
Variable strptime : string → res datetime.
Variable tile_geometry : string → string → res Vector.
Variable tiles_overlapping :
  string → list Vector → res (list (string * Vector)).

Local Abbreviation select_scenes :=
  (scene_select coord Vector identify_many geometry Vector_open strptime
     tile_geometry tiles_overlapping).
Local Abbreviation first_search' :=
  (first_search coord Vector identify_many geometry strptime tiles_overlapping).

Lemma fmap_res_Ok {A B} (f : A → B) (m : res A) (b : B) :
  f <$> m = Ok b ↔ ∃ a, m = Ok a ∧ b = f a.
Proof.
  destruct m as [a|e]; simpl; split.
  - intros [= <-]. by exists a.
  - by intros (a' & [= <-] & ->).
  - done.
  - by intros (a' & [=] & _).
Qed.

(** The end of [scene_select], common to its three modes. *)
Lemma scene_select_end (a : archive coord Vector) (kml_file : string)
    (aoi_tiles : option (arg string)) (aoi_geometry : option string)
    (kwargs : gmap string value) (tr tr' : trace Vector)
    (scenes : list (entry coord)) (tiles : arg string) :
  select_scenes a kml_file aoi_tiles aoi_geometry kwargs tr
    = (Ok (scenes, tiles), tr') →
  ∃ vec args0 tr1 results,
    match aoi_tiles, aoi_geometry with
    | Some given, _ =>
        pure (S := trace Vector) (aoi_from_tile Vector tile_geometry kml_file given)
          ≫= (λ v, mret (listify v, given, prepare coord Vector a kwargs))
    | None, Some file =>
        v ← pure (Vector_open file);
        found ← pure (tile_from_aoi Vector tiles_overlapping [v] kml_file);
        mret ([v], Many found.*1, prepare coord Vector a kwargs)
    | None, None =>
        '(vec, found, args) ← first_search' a kml_file (prepare coord Vector a kwargs);
        mret (vec, Many found, args)
    end tr = (Ok (vec, tiles, args0), tr1) ∧
    let args := if is_ASFArchive a
                then <["return_value" := VStr "url"]> args0 else args0 in
    Forall2 (λ g r, archive_select a (Some g) args = Ok r) vec results ∧
    tr' = tr1 ++ ((λ g, Searched (Some g) args) <$> vec) ∧
    sorted_set_entries (concat results) = Ok scenes.
Proof.
  unfold scene_select.
  intros ([[vec tiles0] args0] & tr1 & Hmode & Hrest)%io_bind_Ok.
  apply io_bind_Ok in Hrest as (results & tr2 & Hloop & Hrest).
  apply io_bind_Ok in Hrest as (scenes0 & tr3 & [Hset ->]%pure_Ok & Hrest).
  injection Hrest as <- <- <-.
  apply for_io_search in Hloop as [Hall ->].
  exists vec, args0, tr1, results. split; [|done].
  destruct aoi_tiles as [given|]; [done|]. by destruct aoi_geometry.
Qed.

(** C7. The scene list of a successful [scene_select] is strictly
    ascending in location, hence free of duplicates. With tiles given in
    [aoi_tiles], the tile list returned is the one given; one search is
    made for the geometry of each tile given, in order, all with the
    same keyword arguments, and nothing else is searched; the scene list
    holds the locations that these searches returned. *)
Theorem scene_select_sorted_and_tiles_kept
    (a : archive coord Vector) (kml_file : string)
    (aoi_tiles : option (arg string)) (aoi_geometry : option string)
    (kwargs : gmap string value) (tr tr' : trace Vector)
    (scenes : list (entry coord)) (tiles : arg string) :
  select_scenes a kml_file aoi_tiles aoi_geometry kwargs tr
    = (Ok (scenes, tiles), tr') →
  StronglySorted entry_lt scenes ∧
  (∀ given, aoi_tiles = Some given →
     tiles = given ∧
     ∃ geoms args results,
       Forall2 (λ t g, tile_geometry kml_file t = Ok g) (listify given) geoms ∧
       tr' = tr ++ ((λ g, Searched (Some g) args) <$> geoms) ∧
       Forall2 (λ g r, archive_select a (Some g) args = Ok r) geoms results ∧
       sorted_set_entries (concat results) = Ok scenes ∧
       (∀ p, p ∈ paths_of scenes ↔ ∃ r, r ∈ results ∧ p ∈ paths_of r)).
Proof.
  intros (vec & args0 & tr1 & results & Hmode & Hall & -> & Hset)%scene_select_end.
  pose proof (sorted_set_entries_spec _ _ Hset) as (Hsorted & Hpaths & _).
  split; [done|]. intros given ->.
  apply io_bind_Ok in Hmode as (v & tr0 & [Hv ->]%pure_Ok & Hmode).
  injection Hmode as <- <- <- <-. split; [done|].
  eexists (listify v), _, results. split; [|split; [done|]].
  - unfold aoi_from_tile in Hv. destruct given as [t|l].
    + apply fmap_res_Ok in Hv as (g & Hg & ->). simpl. by repeat constructor.
    + apply fmap_res_Ok in Hv as (gs & Hgs & ->). simpl.
      by apply for_each_Ok_inv.
  - split; [done|]. split; [done|].
    intros p. by rewrite Hpaths, elem_of_paths_of_concat.
Qed.

(** C8. With neither tiles nor a geometry given, a successful
    [scene_select] has made a first search without geometry, has taken
    the tiles overlapping with the footprints of the scenes of that
    search, and has then made one search per such tile, in order, with
    the geometry of the tile, [mindate] one minute before the earliest
    start and [maxdate] one minute after the latest stop of the scenes
    of the first search, and the other arguments unchanged. The tile
    list returned holds the identifiers of those tiles, and the scene
    list the locations that the searches per tile returned. *)
Theorem scene_select_two_phase
    (a : archive coord Vector) (kml_file : string)
    (kwargs : gmap string value) (tr tr' : trace Vector)
    (scenes : list (entry coord)) (tiles : arg string) :
  select_scenes a kml_file None None kwargs tr = (Ok (scenes, tiles), tr') →
  let args1 := prepare coord Vector a kwargs in
  ∃ selection_tmp phase1 footprints found starts stops mindate maxdate
    args2 results,
    archive_select a None args1 = Ok selection_tmp ∧
    scenes_of coord identify_many selection_tmp = Ok phase1 ∧
    Forall2 (λ x g, geometry x = Ok g) phase1 footprints ∧
    tiles_overlapping kml_file footprints = Ok found ∧
    tiles = Many found.*1 ∧
    Forall2 (λ x t, strptime (ID.start x) = Ok t) phase1 starts ∧
    Forall2 (λ x t, strptime (ID.stop x) = Ok t) phase1 stops ∧
    mindate ∈ starts ∧ (∀ t, t ∈ starts → mindate ≤ t) ∧
    maxdate ∈ stops ∧ (∀ t, t ∈ stops → t ≤ maxdate) ∧
    args2 !! "mindate" = Some (VDatetime (mindate - 60)) ∧
    args2 !! "maxdate" = Some (VDatetime (maxdate + 60)) ∧
    (∀ k, k ≠ "mindate" → k ≠ "maxdate" → k ≠ "return_value" →
          args2 !! k = args1 !! k) ∧
    tr' = tr ++ Searched None args1
             :: ((λ t, Searched (Some t.2) args2) <$> found) ∧
    Forall2 (λ t r, archive_select a (Some t.2) args2 = Ok r) found results ∧
    sorted_set_entries (concat results) = Ok scenes ∧
    (∀ p, p ∈ paths_of scenes ↔ ∃ r, r ∈ results ∧ p ∈ paths_of r).
Proof.
  intros (vec & args0 & tr1 & results & Hmode & Hall & -> & Hset)%scene_select_end
         args1.
  pose proof (sorted_set_entries_spec _ _ Hset) as (_ & Hpaths & _).
  apply io_bind_Ok in Hmode as ([[vec0 found0] args'] & t1 & Hfirst & Hmode).
  injection Hmode as <- <- <- <-.
  unfold first_search in Hfirst. fold args1 in Hfirst.
  apply io_bind_Ok in Hfirst as (selection_tmp & t2 & Hsel & Hfirst).
  unfold search_kw in Hsel. case_decide; [done|].
  unfold search in Hsel. injection Hsel as Hsel <-.
  apply io_bind_Ok in Hfirst as (phase1 & ? & [Hscenes ->]%pure_Ok & Hfirst).
  apply io_bind_Ok in Hfirst as (footprints & ? & [Hgeom ->]%pure_Ok & Hfirst).
  apply io_bind_Ok in Hfirst as (found & ? & [Hfound ->]%pure_Ok & Hfirst).
  apply io_bind_Ok in Hfirst as (starts & ? & [Hstarts ->]%pure_Ok & Hfirst).
  apply io_bind_Ok in Hfirst as (mindate & ? & [Hmin ->]%pure_Ok & Hfirst).
  apply io_bind_Ok in Hfirst as (stops & ? & [Hstops ->]%pure_Ok & Hfirst).
  apply io_bind_Ok in Hfirst as (maxdate & ? & [Hmax ->]%pure_Ok & Hfirst).
  injection Hfirst as <- <- <- <-.
  apply min_Z_spec in Hmin as [Hmin_in Hmin_le].
  apply max_Z_spec in Hmax as [Hmax_in Hmax_le].
  eexists selection_tmp, phase1, footprints, found, starts, stops,
    mindate, maxdate, _, results.
  split; [done|]. split; [done|]. split; [by apply for_each_Ok_inv|].
  split; [done|]. split; [done|].
  split; [by apply (for_each_Ok_inv (λ x, strptime (ID.start x)))|].
  split; [by apply (for_each_Ok_inv (λ x, strptime (ID.stop x)))|].
  split; [done|]. split; [done|]. split; [done|]. split; [done|].
  split; [|split; [|split; [|split; [|split; [|split]]]]]; cycle 3.
  - rewrite <- app_assoc. simpl. do 2 f_equal.
    rewrite <- list_fmap_compose. reflexivity.
  - by apply Forall2_fmap_l in Hall.
  - done.
  - intros p. by rewrite Hpaths, elem_of_paths_of_concat.
  - unfold minutes. destruct (is_ASFArchive a); by simplify_map_eq.
  - unfold minutes. destruct (is_ASFArchive a); by simplify_map_eq.
  - intros k ? ? ?. destruct (is_ASFArchive a); by simplify_map_eq.
Qed.

End selection_claims.

Lemma scene_select_sorted_and_tiles_kept_witness :
  let args := <["acquisition_mode" := VNone]> (∅ : gmap string value) in
  Examples.run_scene_select Examples.by_tile "grid.kml"
    (Some (Many ["32TNT"; "32TPT"])) None ∅ []
  = (Ok ([Path Examples.scene_a1; Path Examples.scene_b],
         Many ["32TNT"; "32TPT"]),
     [Searched (Some "32TNT") args; Searched (Some "32TPT") args]) ∧
  StronglySorted (entry_lt (coord := Z))
    [Path Examples.scene_a1; Path Examples.scene_b].
Proof.
  intros args.
  assert (Examples.run_scene_select Examples.by_tile "grid.kml"
            (Some (Many ["32TNT"; "32TPT"])) None ∅ []
          = (Ok ([Path Examples.scene_a1; Path Examples.scene_b],
                 Many ["32TNT"; "32TPT"]),
             [Searched (Some "32TNT") args; Searched (Some "32TPT") args]))
    as Hrun by (vm_compute; reflexivity).
  split; [exact Hrun|].
  exact (proj1 (scene_select_sorted_and_tiles_kept Examples.identify_many
           (λ _, Ok "footprint") (λ file, Ok file) Examples.strptime
           Examples.tile_geometry Examples.tiles_overlapping
           Examples.by_tile "grid.kml" (Some (Many ["32TNT"; "32TPT"])) None ∅
           [] _ _ _ Hrun)).
Defined.

Lemma scene_select_two_phase_witness :
  let args1 := <["acquisition_mode" := VNone]> (∅ : gmap string value) in
  let args2 :=
    <["mindate" := VDatetime (1578071245 - 60)]>
      (<["maxdate" := VDatetime (1578071270 + 60)]> args1) in
  Examples.run_scene_select Examples.by_tile "grid.kml" None None ∅ []
  = (Ok ([Path Examples.scene_a1; Path Examples.scene_b],
         Many ["32TNT"; "32TPT"]),
     [Searched None args1;
      Searched (Some "32TNT") args2; Searched (Some "32TPT") args2]) ∧
  ∃ mindate maxdate : Z,
    args2 !! "mindate" = Some (VDatetime (mindate - 60)) ∧
    args2 !! "maxdate" = Some (VDatetime (maxdate + 60)).
Proof.
  intros args1 args2.
  assert (Examples.run_scene_select Examples.by_tile "grid.kml" None None ∅ []
          = (Ok ([Path Examples.scene_a1; Path Examples.scene_b],
                 Many ["32TNT"; "32TPT"]),
             [Searched None args1;
              Searched (Some "32TNT") args2; Searched (Some "32TPT") args2]))
    as Hrun by (vm_compute; reflexivity).
  split; [exact Hrun|].
  destruct (scene_select_two_phase Examples.identify_many
              (λ _, Ok "footprint") (λ file, Ok file) Examples.strptime
              Examples.tile_geometry Examples.tiles_overlapping
              Examples.by_tile "grid.kml" ∅ [] _ _ _ Hrun)
    as (selection_tmp & phase1 & footprints & found & starts & stops & mindate &
        maxdate & args2' & results & _ & _ & _ & Hfound & _ & _ &
        _ & _ & _ & _ & _ & Hargmin & Hargmax & _ & Htr & _).
  injection Hfound as <-. simpl in Htr. injection Htr as _ Heq.
  rewrite <- Heq in Hargmin, Hargmax. exists mindate, maxdate. by split.
Defined.

(** ** The completeness check *)

Section extremum_of_strings.

Lemma str_le_le (a b : string) : str_le a b = true ↔ String.le a b.
Proof. unfold str_le, String.le. by rewrite Is_true_true. Qed.

Lemma foldl_min_str (l : list string) (a : string) :
  let r := foldl (min_fold str_le) a l in
  r ∈ a :: l ∧ String.le r a ∧ ∀ x, x ∈ l → String.le r x.
Proof.
  revert a. induction l as [|b l IH]; intros a; simpl.
  - split; [left|]. split; [done|]. by intros x ?%elem_of_nil.
  - destruct (IH (min_fold str_le a b)) as (Hin & Hle & Hall).
    assert (String.le (min_fold str_le a b) a ∧
            String.le (min_fold str_le a b) b) as [Ha Hb].
    { unfold min_fold. destruct (str_le a b) eqn:Hab.
      - split; [done|]. by apply str_le_le.
      - split; [|done]. destruct (total String.le a b) as [Hc|Hc]; [|done].
        apply str_le_le in Hc. congruence. }
    split; [|split].
    + apply elem_of_cons in Hin as [->|Hin].
      * unfold min_fold. destruct (str_le a b); [left|right; left].
      * right; by right.
    + by etrans.
    + intros x [->|Hx]%elem_of_cons; [by etrans|by apply Hall].
Qed.

Lemma foldl_max_str (l : list string) (a : string) :
  let r := foldl (max_fold str_le) a l in
  r ∈ a :: l ∧ String.le a r ∧ ∀ x, x ∈ l → String.le x r.
Proof.
  revert a. induction l as [|b l IH]; intros a; simpl.
  - split; [left|]. split; [done|]. by intros x ?%elem_of_nil.
  - destruct (IH (max_fold str_le a b)) as (Hin & Hle & Hall).
    assert (String.le a (max_fold str_le a b) ∧
            String.le b (max_fold str_le a b)) as [Ha Hb].
    { unfold max_fold. destruct (str_le b a) eqn:Hab.
      - split; [done|]. by apply str_le_le.
      - split; [|done]. destruct (total String.le a b) as [Hc|Hc]; [done|].
        apply str_le_le in Hc. congruence. }
    split; [|split].
    + apply elem_of_cons in Hin as [->|Hin].
      * unfold max_fold. destruct (str_le b a); [left|right; left].
      * right; by right.
    + by etrans.
    + intros x [->|Hx]%elem_of_cons; [by etrans|by apply Hall].
Qed.

Lemma min_str_spec (l : list string) (m : string) :
  Py.min str_le l = Ok m → m ∈ l ∧ ∀ x, x ∈ l → String.le m x.
Proof.
  destruct l as [|a l]; [done|]. intros [= <-].
  destruct (foldl_min_str l a) as (Hin & Hle & Hall).
  split; [done|]. intros x [->|Hx]%elem_of_cons; [done|by apply Hall].
Qed.

Lemma max_str_spec (l : list string) (m : string) :
  Py.max str_le l = Ok m → m ∈ l ∧ ∀ x, x ∈ l → String.le x m.
Proof.
  destruct l as [|a l]; [done|]. intros [= <-].
  destruct (foldl_max_str l a) as (Hin & Hle & Hall).
  split; [done|]. intros x [->|Hx]%elem_of_cons; [done|by apply Hall].
Qed.

Lemma append_assoc (a b c : string) : (a +:+ b) +:+ c = a +:+ b +:+ c.
Proof.
  induction a as [|x a IH]; [done|]. rewrite !append_cons. by f_equal.
Qed.

(** A joined text holds each of its parts. *)
Lemma join_holds (sep : string) (l : list string) (m : string) :
  m ∈ l → ∃ pre post, join sep l = pre +:+ m +:+ post.
Proof.
  induction l as [|x l IH]; [by intros ?%elem_of_nil|].
  intros [->|Hm]%elem_of_cons.
  - destruct l as [|y l]; simpl.
    + exists "", "". rewrite append_nil. clear. induction x as [|c x IH]; [done|].
      rewrite append_cons. by f_equal.
    + by exists "", (sep +:+ join sep (y :: l)).
  - destruct (IH Hm) as (pre & post & Heq). destruct l as [|y l].
    { by apply elem_of_nil in Hm. }
    exists (x +:+ sep +:+ pre), post.
    change (join sep (x :: y :: l)) with (x +:+ sep +:+ join sep (y :: l)).
    by rewrite Heq, !append_assoc.
Qed.

End extremum_of_strings.

Section completeness_claims.
Context {coord Vector : Type}.
Variable identify_many :
  list (entry coord) → option string → res (list (ID.t coord)).
Variable buffer_time : string → string → Z → res (string * string).
Variable asf_search :
  string → option (arg string) → option (arg string) →
  option datetime → option datetime → option string →
  res (list (feature coord)).
Variable dateutil_parse : string → res datetime.
Variable strptime_iso : string → res datetime.
Variable strftime : datetime → string.
Variable wkt_4326 : Vector → res string.

Local Abbreviation reference_names' :=
  (reference_names coord Vector asf_search dateutil_parse strptime_iso
     strftime wkt_4326).
Local Abbreviation expect' :=
  (expect coord Vector buffer_time asf_search dateutil_parse strptime_iso
     strftime wkt_4326).
Local Abbreviation check_scene' :=
  (check_scene coord Vector identify_many buffer_time asf_search
     dateutil_parse strptime_iso strftime wkt_4326).
Local Abbreviation check' :=
  (check_acquisition_completeness coord Vector identify_many buffer_time
     asf_search dateutil_parse strptime_iso strftime wkt_4326).

(** The extent of a reference group: the least start and the greatest
    stop among the time stamps of its names. *)
Lemma ref_extent_spec (scene : ID.t coord) (ref : list string)
    (rmin rmax : string) :
  ref_extent coord scene ref = Ok (rmin, rmax) →
  ∃ parsed,
    Forall2 (λ x g, groupdict coord scene (x +:+ ".SAFE") = Ok g) ref parsed ∧
    rmin ∈ parsed.*1 ∧ (∀ s, s ∈ parsed.*1 → String.le rmin s) ∧
    rmax ∈ parsed.*2 ∧ (∀ s, s ∈ parsed.*2 → String.le s rmax).
Proof.
  unfold ref_extent.
  intros (parsed & Hparsed%for_each_Ok_inv & Hrest)%bind_Ok.
  apply bind_Ok in Hrest as (m & [Hm1 Hm2]%min_str_spec & Hrest).
  apply bind_Ok in Hrest as (M & [HM1 HM2]%max_str_spec & [= <- <-]).
  by exists parsed.
Qed.

(** C4. The round starts from the window of the scene buffered by two
    seconds and from an expected group size of 3, and takes one off for
    each neighbour it finds absent. In the data model the slice number
    and the number of slices of a scene are both 0, the signal of
    slicing mode, or both different from 0. If both are 0, the reference
    catalog is asked, once, for the scene names of the sensor, the
    product and the acquisition mode of the scene within the buffered
    window; the predecessor is absent exactly when the least start of
    that reference group is the start of the scene, the successor
    exactly when its greatest stop is the stop of the scene. Otherwise
    the reference catalog is not asked, the predecessor is absent
    exactly when the slice number is 1 and the successor exactly when
    the slice number is the number of slices. *)
Theorem expected_group_size
    (scene : ID.t coord) (start stop : string) (tr : trace Vector) :
  buffer_time (ID.start scene) (ID.stop scene) 2 = Ok (start, stop) →
  let slice := ID.sliceNumber scene in
  let n_slices := ID.totalSlices scene in
  let absent (b : bool) : Z := if b then 1 else 0 in
  (slice = 0 ↔ n_slices = 0) →
  (slice = 0 ∧ n_slices = 0 →
     ∀ ref rmin rmax,
       asf_select coord Vector asf_search dateutil_parse strptime_iso
         strftime wkt_4326
         (Some (One (ID.sensor scene))) (Some (One (ID.product scene)))
         (Some (One (ID.acquisition_mode scene)))
         (Some (DateStr start)) (Some (DateStr stop)) None
         (ReturnStr "sceneName") true = Ok (Strings ref) →
       ref_extent coord scene ref = Ok (rmin, rmax) →
       expect' scene tr =
         (Ok (start, stop,
              Expectation
                (3 - absent (bool_decide (rmin = ID.start scene))
                   - absent (bool_decide (rmax = ID.stop scene)))
                (negb (bool_decide (rmax = ID.stop scene)))
                (negb (bool_decide (rmin = ID.start scene)))
                (Some ref)),
          tr ++ [Referenced (ID.sensor scene) (ID.product scene)
                   (ID.acquisition_mode scene) start stop]) ∧
       ∃ parsed,
         Forall2 (λ x g, groupdict coord scene (x +:+ ".SAFE") = Ok g)
           ref parsed ∧
         rmin ∈ parsed.*1 ∧ (∀ s, s ∈ parsed.*1 → String.le rmin s) ∧
         rmax ∈ parsed.*2 ∧ (∀ s, s ∈ parsed.*2 → String.le s rmax)) ∧
  (¬ (slice = 0 ∧ n_slices = 0) →
     expect' scene tr =
       (Ok (start, stop,
            Expectation
              (3 - absent (slice =? 1) - absent (slice =? n_slices))
              (negb (slice =? n_slices)) (negb (slice =? 1)) None),
        tr)).
Proof.
  intros Hbuf slice n_slices absent Hmodel. unfold expect.
  rewrite Hbuf, io_bind_pure. cbv beta iota.
  fold slice n_slices. split.
  - intros [Hs Hn] ref rmin rmax Hnames Hext.
    split; [|by apply ref_extent_spec].
    rewrite Hs. cbn [Z.eqb orb]. cbv beta iota.
    erewrite io_bind_step;
      [|unfold reference, reference_names; by rewrite Hnames].
    rewrite Hext, io_bind_pure. cbv beta iota.
    repeat case_decide; repeat case_bool_decide; done.
  - intros Hnot.
    destruct (Z.eqb_spec slice 0) as [Hs|_];
      [destruct Hnot; split; [done|by apply Hmodel]|].
    destruct (Z.eqb_spec n_slices 0) as [Hn|_];
      [destruct Hnot; split; [by apply Hmodel|done]|].
    simpl. by destruct (slice =? 1), (slice =? n_slices).
Qed.

(** C5 (as amended). When the group that the archive holds for the
    buffered window is smaller than expected, the reference group is the
    one fetched for the boundary conditions if there is one, and is
    fetched now otherwise; the predecessor is reported missing exactly
    when it was expected and the start of the buffered window lies after
    the least start of the reference group and before the least start of
    the group of the archive; the successor is reported missing exactly
    when it was expected and the stop of the buffered window lies after
    the greatest stop of the group of the archive and before the
    greatest stop of the reference group. The round yields one message
    naming what is missing, or none. *)
Theorem missing_neighbors_flagged
    (a : archive coord Vector) (scene : ID.t coord) (tr tr1 : trace Vector)
    (start stop : string) (e : expectation)
    (found : list (entry coord)) (group : list (ID.t coord))
    (names : list string) (rmin rmax smin smax : string) :
  expect' scene tr = (Ok (start, stop, e), tr1) →
  archive_select a None (neighbor_query coord scene start stop) = Ok found →
  identify_many found None = Ok group →
  Z.of_nat (length group) < groupsize e →
  match ref e with
  | Some fetched => names = fetched
  | None => reference_names' scene start stop = Ok names
  end →
  ref_extent coord scene names = Ok (rmin, rmax) →
  Py.min str_le (ID.start <$> group) = Ok smin →
  Py.max str_le (ID.stop <$> group) = Ok smax →
  let searched :=
    tr1 ++ [Searched None (neighbor_query coord scene start stop)] in
  let predecessor :=
    has_predecessor e && str_lt rmin start && str_lt start smin in
  let successor :=
    has_successor e && str_lt smax stop && str_lt stop rmax in
  let missing :=
    (if predecessor then ["predecessor"] else []) ++
    (if successor then ["successor"] else []) in
  check_scene' a scene tr =
    (Ok (if predecessor || successor
         then Some (join " and " missing +:+ " acquisition for scene "
                    +:+ basename (ID.scene scene))
         else None),
     match ref e with
     | Some _ => searched
     | None => searched ++ [Referenced (ID.sensor scene) (ID.product scene)
                              (ID.acquisition_mode scene) start stop]
     end).
Proof.
  intros Hexpect Hsel Hid Hsize Hnames Hext Hmin Hmax
         searched predecessor successor missing.
  unfold check_scene. erewrite io_bind_step by exact Hexpect.
  cbv beta iota.
  erewrite io_bind_step; [|unfold search; by rewrite Hsel].
  fold searched. rewrite Hid, io_bind_pure.
  destruct (Z.ltb_spec (Z.of_nat (length group)) (groupsize e)) as [_|]; [|lia].
  assert (∀ k : list string → io (trace Vector) (option string),
            (match ref e with
             | Some ref => mret ref
             | None => reference coord Vector asf_search dateutil_parse
                         strptime_iso strftime wkt_4326 scene start stop
             end ≫= k) searched
            = k names
                match ref e with
                | Some _ => searched
                | None => searched ++
                    [Referenced (ID.sensor scene) (ID.product scene)
                       (ID.acquisition_mode scene) start stop]
                end) as ->.
  { intros k. destruct (ref e) as [fetched|].
    - by rewrite io_bind_mret, Hnames.
    - apply io_bind_step. unfold reference. by rewrite Hnames. }
  rewrite Hext, io_bind_pure. cbv beta iota.
  rewrite Hmin, io_bind_pure, Hmax, io_bind_pure.
  unfold missing_of, missing, predecessor, successor.
  destruct (has_predecessor e), (has_successor e),
    (str_lt rmin start), (str_lt start smin),
    (str_lt smax stop), (str_lt stop rmax); reflexivity.
Qed.

Lemma check_scene_message (a : archive coord Vector) (scene : ID.t coord)
    (tr tr' : trace Vector) (m : string) :
  check_scene' a scene tr = (Ok (Some m), tr') → names_scene scene m.
Proof.
  unfold check_scene.
  intros ([[start stop] e] & t1 & _ & Hrest)%io_bind_Ok.
  apply io_bind_Ok in Hrest as (found & t2 & _ & Hrest).
  apply io_bind_Ok in Hrest as (group & t3 & _ & Hrest).
  destruct (Z.of_nat (length group) <? groupsize e); [|done].
  apply io_bind_Ok in Hrest as (names & t4 & _ & Hrest).
  apply io_bind_Ok in Hrest as ([rmin rmax] & t5 & _ & Hrest).
  apply io_bind_Ok in Hrest as (smin & t6 & _ & Hrest).
  apply io_bind_Ok in Hrest as (smax & t7 & _ & Hrest).
  case_decide as Hlen; [|done]. injection Hrest as <- _.
  eexists. split; [|reflexivity].
  unfold missing_of in *.
  destruct (str_lt rmin start && str_lt start smin && has_predecessor e),
    (str_lt smax stop && str_lt stop rmax && has_successor e);
    simpl in *; auto. lia.
Qed.

(** C6 (as amended). The check raises at most one error. An error of
    the round of a scene ends the check at once, with that error.
    Otherwise the rounds of all scenes are made; if none yields a
    message the check returns; if some do, the check raises one
    [RuntimeError] whose text holds the message of every scene that has
    one, and each message names its scene and the neighbours it
    misses. *)
Theorem completeness_errors_aggregated
    (a : archive coord Vector) (scenes : list (ID.t coord))
    (tr tr' : trace Vector) (r : res (list (option string))) :
  for_io (check_scene' a) scenes tr = (r, tr') →
  match r with
  | Raise e => check' a scenes tr = (Raise e, tr')
  | Ok found =>
      let messages := omap id found in
      let text := "missing the following scenes:" +:+ nl +:+ " - "
                  +:+ join (nl +:+ " - ") messages in
      Forall2 (λ scene f, ∀ m, f = Some m → names_scene scene m)
        scenes found ∧
      (messages = [] → check' a scenes tr = (Ok (), tr')) ∧
      (messages ≠ [] →
         check' a scenes tr = (Raise (RuntimeError [text]), tr') ∧
         ∀ m, m ∈ messages → ∃ pre post, text = pre +:+ m +:+ post)
  end.
Proof.
  intros Hrun. unfold check_acquisition_completeness.
  destruct r as [found|e]; [|by apply io_bind_Raise].
  erewrite io_bind_step by exact Hrun. cbv zeta.
  split; [|split].
  - apply for_io_Forall2 in Hrun.
    eapply Forall2_impl; [done|]. intros scene f (t & t' & Hf) m ->.
    by eapply check_scene_message.
  - intros ->. by case_decide.
  - intros Hne. case_decide as Hlen;
      [|destruct (omap id found); simpl in *; [done|lia]].
    split; [done|]. intros m (pre & post & ->)%(join_holds (nl +:+ " - ")).
    exists ("missing the following scenes:" +:+ nl +:+ " - " +:+ pre), post.
    by rewrite !append_assoc.
Qed.

End completeness_claims.

Lemma expected_group_size_witness :
  Examples.run_expect Examples.slice_2_of_5 []
  = (Ok ("20200103T170723", "20200103T170752", Expectation 3 true true None),
     []) ∧
  Examples.run_expect Examples.unsliced []
  = (Ok ("20200103T170723", "20200103T170752",
         Expectation 2 false true
           (Some [Examples.name_of_earlier; Examples.name_of_scene_b])),
     [Referenced "S1A" "GRD" "IW" "20200103T170723" "20200103T170752"]).
Proof.
  split.
  - destruct (expected_group_size Examples.buffer_time Examples.asf_search
                Examples.dateutil_parse Examples.strptime_iso (λ _, "")
                (λ _ : unit, Raise ValueError) Examples.slice_2_of_5
                "20200103T170723" "20200103T170752" [])
      as [_ Hsliced].
    + reflexivity.
    + split; discriminate.
    + apply Hsliced. by intros [? _].
  - destruct (expected_group_size Examples.buffer_time Examples.asf_search
                Examples.dateutil_parse Examples.strptime_iso (λ _, "")
                (λ _ : unit, Raise ValueError) Examples.unsliced
                "20200103T170723" "20200103T170752" [])
      as [Hunsliced _].
    + reflexivity.
    + by split.
    + destruct (Hunsliced (conj eq_refl eq_refl)
                  [Examples.name_of_earlier; Examples.name_of_scene_b]
                  "20200103T170724" "20200103T170750") as [Hrun _].
      * vm_compute. reflexivity.
      * vm_compute. reflexivity.
      * exact Hrun.
Defined.

Lemma missing_neighbors_flagged_witness :
  Examples.run_check_scene Examples.only_scene_b Examples.slice_2_of_5 []
  = (Ok None,
     [Searched None
        (neighbor_query Z Examples.slice_2_of_5
           "20200103T170723" "20200103T170752");
      Referenced "S1A" "GRD" "IW" "20200103T170723" "20200103T170752"]).
Proof.
  exact (missing_neighbors_flagged Examples.identify_many Examples.buffer_time
           Examples.asf_search Examples.dateutil_parse Examples.strptime_iso
           (λ _, "") (λ _ : unit, Raise ValueError)
           Examples.only_scene_b Examples.slice_2_of_5 [] []
           "20200103T170723" "20200103T170752" (Expectation 3 true true None)
           [Path Examples.scene_b] [Examples.slice_2_of_5]
           [Examples.name_of_earlier; Examples.name_of_scene_b]
           "20200103T170724" "20200103T170750"
           "20200103T170725" "20200103T170750"
           eq_refl eq_refl eq_refl eq_refl eq_refl eq_refl eq_refl eq_refl).
Defined.

(** C5 (as stated) fails: the claim reports the predecessor missing when
    it was expected and the reference group starts before the group of the
    archive. For slice 2 of 5, alone in the archive, with a reference
    product that starts one second before it, inside the buffered window,
    nothing is reported: the reference group does not start before the
    window. *)
Lemma predecessor_inside_buffer_not_flagged :
  let e := Expectation 3 true true None in
  let names := [Examples.name_of_earlier; Examples.name_of_scene_b] in
  Examples.run_expect Examples.slice_2_of_5 []
    = (Ok ("20200103T170723", "20200103T170752", e), []) ∧
  has_predecessor e = true ∧
  Examples.identify_many [Path Examples.scene_b] None
    = Ok [Examples.slice_2_of_5] ∧
  Z.of_nat (length [Examples.slice_2_of_5]) < groupsize e ∧
  ref_extent Z Examples.slice_2_of_5 names
    = Ok ("20200103T170724", "20200103T170750") ∧
  Py.min str_le (ID.start <$> [Examples.slice_2_of_5])
    = Ok "20200103T170725" ∧
  str_lt "20200103T170724" "20200103T170725" = true ∧
  ∃ tr, Examples.run_check_scene Examples.only_scene_b Examples.slice_2_of_5 []
        = (Ok None, tr).
Proof.
  repeat split; try (vm_compute; reflexivity).
  set (r := Examples.run_check_scene _ _ _). vm_compute in r. subst r.
  by eexists.
Qed.

Lemma completeness_errors_aggregated_witness :
  let window scene :=
    neighbor_query Z scene "20200103T170723" "20200103T170752" in
  let asked :=
    Referenced (Vector := unit) "S1A" "GRD" "IW"
      "20200103T170723" "20200103T170752" in
  Examples.run_check Examples.only_scene_b [Examples.slice_2_of_5] []
  = (Ok (), [Searched None (window Examples.slice_2_of_5); asked]) ∧
  check_acquisition_completeness Z unit Examples.identify_many
    Examples.buffer_time Examples.mislabelled_reference
    Examples.dateutil_parse Examples.strptime_iso (λ _, "")
    (λ _, Raise ValueError) Examples.only_scene_b
    [Examples.slice_2_of_5; Examples.single_slice] []
  = (Raise (RuntimeError
       ["missing the following scenes:" +:+ nl +:+ " - " +:+
        "predecessor acquisition for scene S1A_IW_GRDH_1SDV_20200103T170725_20200103T170750_030639_0382D5_CCCC.SAFE"]),
     [Searched None (window Examples.slice_2_of_5); asked;
      Searched None (window Examples.single_slice)]).
Proof.
  intros window asked. split.
  - pose proof (completeness_errors_aggregated Examples.identify_many
                  Examples.buffer_time Examples.asf_search
                  Examples.dateutil_parse Examples.strptime_iso (λ _, "")
                  (λ _ : unit, Raise ValueError)
                  Examples.only_scene_b [Examples.slice_2_of_5] []
                  [Searched None (window Examples.slice_2_of_5); asked]
                  (Ok [None])) as Hcheck.
    destruct Hcheck as (_ & Hnone & _).
    + vm_compute. reflexivity.
    + by apply Hnone.
  - pose proof (completeness_errors_aggregated Examples.identify_many
                  Examples.buffer_time Examples.mislabelled_reference
                  Examples.dateutil_parse Examples.strptime_iso (λ _, "")
                  (λ _ : unit, Raise ValueError)
                  Examples.only_scene_b
                  [Examples.slice_2_of_5; Examples.single_slice] []
                  [Searched None (window Examples.slice_2_of_5); asked;
                   Searched None (window Examples.single_slice)]
                  (Ok [Some "predecessor acquisition for scene S1A_IW_GRDH_1SDV_20200103T170725_20200103T170750_030639_0382D5_CCCC.SAFE";
                       None])) as Hcheck.
    destruct Hcheck as (_ & _ & Hsome).
    + vm_compute. reflexivity.
    + destruct Hsome as [Hrun _]; [done|]. exact Hrun.
Defined.

(** C6 (as stated) fails: the claim has the check return when no scene
    has a flag. The round of a scene can end in an error of its own,
    before any flag is raised, and the check then ends with that error
    and not with the aggregated one: for an archive that does not hold
    the scene it is the [ValueError] of [min] on the empty group, for a
    reference catalog that cannot be reached the error of the query. *)
Lemma completeness_check_ends_with_error_of_a_round :
  (∃ tr,
     Examples.run_check_scene Examples.empty_archive Examples.slice_2_of_5 []
     = (Raise ValueError, tr) ∧
     Examples.run_check Examples.empty_archive [Examples.slice_2_of_5] []
     = (Raise ValueError, tr)) ∧
  (∃ tr,
     check_scene Z unit Examples.identify_many Examples.buffer_time
       Examples.unreachable_reference Examples.dateutil_parse
       Examples.strptime_iso (λ _, "") (λ _, Raise ValueError)
       Examples.only_scene_b Examples.slice_2_of_5 []
     = (Raise (OtherError "ASFSearchError"), tr) ∧
     check_acquisition_completeness Z unit Examples.identify_many
       Examples.buffer_time Examples.unreachable_reference
       Examples.dateutil_parse Examples.strptime_iso (λ _, "")
       (λ _, Raise ValueError)
       Examples.only_scene_b [Examples.slice_2_of_5] []
     = (Raise (OtherError "ASFSearchError"), tr)).
Proof.
  split; eexists; split; vm_compute; reflexivity.
Qed.

(** ** The constructor and the search loop of [STACArchive] *)

Section construction.
Import STACArchive.
Context {Client coord Vector : Type}.
Variable Client_open : nat → string → res Client.
Variable Client_search :
  nat → Client → list string → clause coord → res (list item).
Variable extent_4326 : Vector → extent coord.
Variable strftime : datetime → string.
Variable path_exists : string → bool.
Variable realpath : string → string.
Variable manifest_processing_start : string → res Z.

Local Abbreviation select_scenes :=
  (select Client coord Client_search Vector extent_4326 strftime
     path_exists realpath manifest_processing_start).
Local Abbreviation filter_of :=
  (select_filter coord Vector extent_4326 strftime).

(** X1. The constructor opens the catalog before it looks at
    [collections]. Whatever [collections] is, it makes [N] calls to the
    server, between 1 and 300, of which the first [N - 1] are answered
    with a transient error, and sleeps [N - 1] seconds; the answer
    number [N] is transient only if [N = 300]. An error in that answer
    is raised as it is; on success the object holds the URL, the bound
    of 300 tries, the catalog opened and [collections] as a list, and a
    [collections] that is neither a string nor a list raises
    [TypeError] only then. *)
Theorem init_opens_catalog_then_checks_collections
    (url : string) (collections : collections_arg) (w : world) :
  ∃ N : nat, (1 ≤ N ≤ 300)%nat ∧
    (∀ k, (k < N - 1)%nat → transient (Client_open (calls w + k) url)) ∧
    (transient (Client_open (calls w + (N - 1)) url) → N = 300%nat) ∧
    __init__ Client Client_open url collections w =
      (match Client_open (calls w + (N - 1)) url with
       | Raise e => Raise e
       | Ok catalog =>
           match collections with
           | CollectionsStr c => Ok (Self Client url 300 catalog [c])
           | CollectionsList l => Ok (Self Client url 300 catalog l)
           | CollectionsOther =>
               Raise (TypeError "'collections' must be of type str or list")
           end
       end,
       World (calls w + N) (slept w + (Z.of_nat N - 1))).
Proof.
  destruct (retry_total (λ n, Client_open n url) 300 w)
    as (n & Hn & Htr & Hrun & Hlast).
  exists (S n). replace (S n - 1)%nat with n by lia.
  split; [lia|]. split; [done|]. split; [intros H; specialize (Hlast H); lia|].
  unfold __init__, _open_catalog. rewrite Hrun.
  replace (slept w + Z.of_nat n) with (slept w + (Z.of_nat (S n) - 1)) by lia.
  by destruct (Client_open (calls w + n) url), collections.
Qed.

(** X2. Once the filter is built, the search loop of [select] ends
    whatever the bound [max_tries] of the object is: it makes [N] calls,
    at least one and at most [max(1, max_tries)], the first [N - 1] of
    them answered with a transient error, and sleeps [N - 1] seconds.
    The answer number [N] decides the call: an error is raised as it is
    (it is transient only if [N] is the bound), and the items of a
    successful answer are resolved and freed of duplicates. *)
Theorem select_search_loop_ends
    (self : t Client) (pars : query Vector) (date_strict check_exist : bool)
    (flt : clause coord) (w : world) :
  filter_of pars date_strict = Ok flt →
  let search := λ n : nat,
    Client_search n (catalog Client self) (collections Client self) flt in
  ∃ N : nat, 1 ≤ Z.of_nat N ≤ Z.max 1 (max_tries Client self) ∧
    (∀ k, (k < N - 1)%nat → transient (search (calls w + k)%nat)) ∧
    (transient (search (calls w + (N - 1))%nat) →
       Z.of_nat N = Z.max 1 (max_tries Client self)) ∧
    select_scenes self pars date_strict check_exist w =
      (match search (calls w + (N - 1))%nat with
       | Raise e => Raise e
       | Ok result =>
           out ← for_each (resolve path_exists realpath check_exist) result;
           _filter_duplicates manifest_processing_start out
       end,
       World (calls w + N) (slept w + (Z.of_nat N - 1))).
Proof.
  intros Hflt search.
  destruct (retry_total search (max_tries Client self) w)
    as (n & Hn & Htr & Hrun & Hlast).
  exists (S n). replace (S n - 1)%nat with n by lia.
  split; [lia|]. split; [done|]. split; [done|].
  unfold STACArchive.select. rewrite Hflt. fold search. rewrite Hrun.
  replace (slept w + Z.of_nat n) with (slept w + (Z.of_nat (S n) - 1)) by lia.
  by destruct (search (calls w + n)%nat).
Qed.

Lemma lookup_platform_Raise (v : string) (e : exn) :
  lookup_platform v = Raise e → e = KeyError v ∧ v ≠ "S1A" ∧ v ≠ "S1B".
Proof.
  unfold lookup_platform. repeat case_decide; [done..|]. by intros [= <-].
Qed.

Lemma lookup_platform_Ok (v p : string) :
  lookup_platform v = Ok p ↔
  (v = "S1A" ∧ p = "sentinel-1a") ∨ (v = "S1B" ∧ p = "sentinel-1b").
Proof.
  unfold lookup_platform. repeat case_decide; subst; split;
    try (intros [= <-]); try (intros [[? ?]|[? ?]]); subst; auto; done.
Qed.

(** The filter in terms of the clauses of its seven parameters. *)
Lemma select_filter_unfold (pars : query Vector) (date_strict : bool) :
  filter_of pars date_strict =
  (c1 ← clause_of coord Vector extent_4326 strftime pars date_strict Ksensor;
   c2 ← clause_of coord Vector extent_4326 strftime pars date_strict Kproduct;
   c3 ← clause_of coord Vector extent_4326 strftime pars date_strict
          Kacquisition_mode;
   c4 ← clause_of coord Vector extent_4326 strftime pars date_strict Kmindate;
   c5 ← clause_of coord Vector extent_4326 strftime pars date_strict Kmaxdate;
   c6 ← clause_of coord Vector extent_4326 strftime pars date_strict
          KframeNumber;
   c7 ← clause_of coord Vector extent_4326 strftime pars date_strict
          Kvectorobject;
   Ok (Junction "and" (omap id [c1; c2; c3; c4; c5; c6; c7]))).
Proof.
  unfold STACArchive.select_filter, pars_keys. cbn [for_each].
  repeat match goal with
         | |- context [clause_of _ _ _ _ ?p ?d ?k] =>
             generalize (clause_of coord Vector extent_4326 strftime p d k)
         end.
  intros [|] [|] [|] [|] [|] [|] [|]; reflexivity.
Qed.

(** X3. [select] builds its filter before it calls the server, so
    arguments it cannot translate make it fail without any call. A
    [sensor] that is not [S1A] or [S1B] raises [KeyError] with such a
    name; with sensors that are known, a [vectorobject] that is not a
    [Vector] raises [TypeError]; and these are the only errors raised
    before the search. *)
Theorem select_rejects_arguments_before_search
    (self : t Client) (pars : query Vector) (date_strict check_exist : bool)
    (w : world) :
  let unknown (v : string) := v ≠ "S1A" ∧ v ≠ "S1B" in
  let not_a_vector :=
    TypeError "argument vectorobject must be of type spatialist.vector.Vector" in
  (∀ val, sensor pars = Some val → (∃ v, v ∈ as_list val ∧ unknown v) →
     ∃ v, v ∈ as_list val ∧ unknown v ∧
       select_scenes self pars date_strict check_exist w
       = (Raise (KeyError v), w)) ∧
  ((∀ val v, sensor pars = Some val → v ∈ as_list val → ¬ unknown v) →
     vectorobject pars = Some NotVector →
     select_scenes self pars date_strict check_exist w
     = (Raise not_a_vector, w)) ∧
  (∀ e, filter_of pars date_strict = Raise e →
     select_scenes self pars date_strict check_exist w = (Raise e, w) ∧
     ((∃ val v, sensor pars = Some val ∧ v ∈ as_list val ∧ unknown v ∧
                e = KeyError v) ∨
      (vectorobject pars = Some NotVector ∧ e = not_a_vector))).
Proof.
  intros unknown not_a_vector.
  assert (∀ e, filter_of pars date_strict = Raise e →
            select_scenes self pars date_strict check_exist w = (Raise e, w))
    as Hfail.
  { intros e He. unfold STACArchive.select. by rewrite He. }
  split; [|split].
  - intros val Hval (v & Hv & Hun).
    destruct (for_each_first_error lookup_platform (as_list val))
      as (v' & e & Hv' & He & Hall).
    { exists v. eexists. split; [done|]. unfold lookup_platform.
      destruct Hun. by repeat case_decide. }
    apply lookup_platform_Raise in He as (-> & ? & ?).
    exists v'. split; [done|]. split; [done|]. apply Hfail.
    rewrite select_filter_unfold. simpl. by rewrite Hval, Hall.
  - intros Hknown Hvec. apply Hfail. rewrite select_filter_unfold. simpl.
    rewrite Hvec.
    assert (∃ c, match sensor pars with
                 | Some val =>
                     values ← for_each lookup_platform (as_list val);
                     Ok (Some (equals coord "platform" values))
                 | None => Ok None
                 end = Ok c) as [c ->].
    { destruct (sensor pars) as [val|]; [|by eexists].
      destruct (for_each_Ok lookup_platform (as_list val)) as (ps & -> & _);
        [|by eexists].
      apply Forall_forall. intros v Hv.
      destruct (lookup_platform v) as [p|e] eqn:Hp; [by eexists|].
      apply lookup_platform_Raise in Hp as (_ & ? & ?).
      by destruct (Hknown val v). }
    simpl.
    destruct (product pars), (acquisition_mode pars), (mindate pars),
      (maxdate pars), (frameNumber pars); simpl; by destruct date_strict.
  - intros e He. split; [by apply Hfail|].
    rewrite select_filter_unfold in He. simpl in He.
    destruct (sensor pars) as [val|] eqn:Hs.
    + destruct (for_each lookup_platform (as_list val)) as [ps|e'] eqn:Hps.
      * right. simpl in He.
        destruct (product pars), (acquisition_mode pars), (mindate pars),
          (maxdate pars), (frameNumber pars),
          (vectorobject pars) as [[vec|]|], date_strict;
          simpl in He; by simplify_eq.
      * left. simpl in He. injection He as <-.
        assert (∃ x e, x ∈ as_list val ∧ lookup_platform x = Raise e)
          as Hex.
        { clear -Hps. induction (as_list val) as [|x l IH]; [done|].
          simpl in Hps. destruct (lookup_platform x) as [p|e0] eqn:Hx.
          - simpl in Hps. destruct (for_each lookup_platform l); [done|].
            destruct IH as (y & e0 & Hy & He); [done|].
            exists y, e0. split; [by right|done].
          - exists x, e0. split; [left|done]. }
        destruct (for_each_first_error _ _ Hex) as (v & e0 & Hv & Hev & Hall).
        rewrite Hps in Hall. injection Hall as ->.
        apply lookup_platform_Raise in Hev as (-> & ? & ?).
        by exists val, v.
    + right. simpl in He.
      destruct (product pars), (acquisition_mode pars), (mindate pars),
        (maxdate pars), (frameNumber pars),
        (vectorobject pars) as [[vec|]|], date_strict;
        simpl in He; by simplify_eq.
Qed.

(** How many of the parameters of a query are set. *)
Local Abbreviation given o := (from_option (λ _, 1%nat) 0%nat o).
Local Abbreviation set_parameters pars :=
  (given (sensor pars) + given (product pars) + given (acquisition_mode pars)
   + given (mindate pars) + given (maxdate pars) + given (frameNumber pars)
   + given (vectorobject pars))%nat.

(** X4. The filter of [select] has one clause for each parameter that
    is set. [sensor] is compared with the property [platform] after
    [S1A] and [S1B] are translated to [sentinel-1a] and [sentinel-1b],
    [product] with [sar:product_type], [acquisition_mode] with
    [sar:instrument_mode] and [frameNumber], written as hexadecimal
    number of six digits, with [s1:datatake]: by one [=] clause for one
    value, by an [or] over the [=] clauses of several. A [Vector] is
    compared by [s_intersects] with the closed ring of the four corners
    of its extent. *)
Theorem select_filter_clauses
    (pars : query Vector) (date_strict : bool) (flt : clause coord) :
  filter_of pars date_strict = Ok flt →
  ∃ args, flt = Junction "and" args ∧
    length args = set_parameters pars ∧
    (∀ val, sensor pars = Some val →
       ∃ platforms,
         Forall2 (λ v p, (v = "S1A" ∧ p = "sentinel-1a") ∨
                         (v = "S1B" ∧ p = "sentinel-1b"))
           (as_list val) platforms ∧
         equals coord "platform" platforms ∈ args) ∧
    (∀ val, product pars = Some val →
       equals coord "sar:product_type" (as_list val) ∈ args) ∧
    (∀ val, acquisition_mode pars = Some val →
       equals coord "sar:instrument_mode" (as_list val) ∈ args) ∧
    (∀ val, frameNumber pars = Some val →
       equals coord "s1:datatake" (format_06X <$> as_list val) ∈ args) ∧
    (∀ vec, vectorobject pars = Some (IsVector vec) →
       let ext := extent_4326 vec in
       Op "s_intersects"
         [Property "geometry";
          Polygon [[(xmin ext, ymin ext); (xmin ext, ymax ext);
                    (xmax ext, ymax ext); (xmax ext, ymin ext);
                    (xmin ext, ymin ext)]]] ∈ args) ∧
    (∀ name v, equals coord name [v] = Op "=" [Property name; Literal v]) ∧
    (∀ name v v' l,
       equals coord name (v :: v' :: l) =
       Junction "or"
         ((λ value, Op "=" [Property name; Literal value]) <$> v :: v' :: l)).
Proof.
  rewrite select_filter_unfold.
  intros (c1 & H1 & (c2 & H2 & (c3 & H3 & (c4 & H4 & (c5 & H5 & (c6 & H6 &
          (c7 & H7 & [= <-])%bind_Ok)%bind_Ok)%bind_Ok)%bind_Ok)%bind_Ok
          )%bind_Ok)%bind_Ok.
  simpl in H1, H2, H3, H4, H5, H6, H7.
  exists (omap id [c1; c2; c3; c4; c5; c6; c7]).
  split; [done|]. split; [|split; [|split; [|split; [|split; [|split]]]]].
  - destruct (sensor pars) as [val|].
    2: injection H1 as <-.
    1: apply bind_Ok in H1 as (values & _ & [= <-]).
    all: destruct (product pars), (acquisition_mode pars), (mindate pars),
           (maxdate pars), (frameNumber pars),
           (vectorobject pars) as [[vec|]|], date_strict;
         by simplify_eq.
  - intros val Hval. rewrite Hval in H1.
    apply bind_Ok in H1 as (values & Hvalues%for_each_Ok_inv & [= <-]).
    exists values. split.
    + eapply Forall2_impl; [done|]. intros v p. by rewrite lookup_platform_Ok.
    + apply list_elem_of_omap. eexists. split; [|done]. set_solver.
  - intros val Hval. rewrite Hval in H2. injection H2 as <-.
    apply list_elem_of_omap. eexists. split; [|done]. set_solver.
  - intros val Hval. rewrite Hval in H3. injection H3 as <-.
    apply list_elem_of_omap. eexists. split; [|done]. set_solver.
  - intros val Hval. rewrite Hval in H6. injection H6 as <-.
    apply list_elem_of_omap. eexists. split; [|done]. set_solver.
  - intros vec Hvec ext. rewrite Hvec in H7. injection H7 as <-.
    apply list_elem_of_omap. eexists. split; [|done]. set_solver.
  - split; done.
Qed.

End construction.

Lemma init_opens_catalog_then_checks_collections_witness :
  STACArchive.__init__ unit (λ n _, Examples.busy_twice () n)
    "https://stac.example" (STACArchive.CollectionsStr "sentinel-1-grd")
    (World 0 0)
  = (Ok Examples.connection, World 3 2).
Proof.
  destruct (init_opens_catalog_then_checks_collections
    (λ n _, Examples.busy_twice () n) "https://stac.example"
    (STACArchive.CollectionsStr "sentinel-1-grd") (World 0 0))
    as (N & HN & Hbusy & Hlast & Hrun).
  assert (N = 3%nat) as ->; [|exact Hrun].
  destruct (decide (N - 1 < 2)%nat) as [Hlt|Hge].
  - assert (N = 300%nat) as H300; [|lia].
    apply Hlast. exists "busy". simpl. unfold Examples.busy_twice.
    by case_decide.
  - destruct (decide (N - 1 = 2)%nat) as [|Hne]; [lia|].
    destruct (Hbusy 2%nat) as [msg Hmsg]; [lia|]. discriminate Hmsg.
Defined.

Lemma select_search_loop_ends_witness :
  STACArchive.select unit Z (λ n _ _ _, Examples.busy_twice [] n) unit
    Examples.no_extent (λ _, "") (λ _, true) (λ p, p) Examples.manifests
    Examples.connection Examples.no_filter true true (World 0 0)
  = (Ok [], World 3 2).
Proof.
  destruct (select_search_loop_ends
    (λ n _ _ _, Examples.busy_twice [] n) Examples.no_extent (λ _, "")
    (λ _, true) (λ p, p) Examples.manifests Examples.connection
    Examples.no_filter true true (STACArchive.Junction "and" []) (World 0 0)
    eq_refl) as (N & HN & Hbusy & Hlast & Hrun).
  assert (N = 3%nat) as ->; [|exact Hrun].
  destruct (decide (N - 1 < 2)%nat) as [Hlt|Hge].
  - assert (Z.of_nat N = 300) as H300; [|lia].
    apply Hlast. exists "busy". simpl. unfold Examples.busy_twice.
    by case_decide.
  - destruct (decide (N - 1 = 2)%nat) as [|Hne]; [lia|].
    destruct (Hbusy 2%nat) as [msg Hmsg]; [lia|]. discriminate Hmsg.
Defined.

Lemma select_rejects_arguments_before_search_witness :
  STACArchive.select unit Z Examples.finds_local_item unit Examples.no_extent
    (λ _, "") Examples.empty_disk (λ p, p) Examples.manifests
    Examples.connection Examples.unknown_sensor true true (World 0 0)
  = (Raise (KeyError "S1C"), World 0 0).
Proof.
  destruct (select_rejects_arguments_before_search
    Examples.finds_local_item Examples.no_extent (λ _, "")
    Examples.empty_disk (λ p, p) Examples.manifests Examples.connection
    Examples.unknown_sensor true true (World 0 0)) as (_ & _ & Herr).
  destruct (Herr (KeyError "S1C") eq_refl) as [Hrun _]. exact Hrun.
Defined.

Lemma select_filter_clauses_witness :
  ∃ args,
    STACArchive.select_filter Z unit Examples.unit_square (λ _, "")
      Examples.by_frame false = Ok (STACArchive.Junction "and" args) ∧
    length args = 3%nat ∧
    STACArchive.Junction "or"
      [STACArchive.Op "=" [STACArchive.Property "platform";
                           STACArchive.Literal "sentinel-1a"];
       STACArchive.Op "=" [STACArchive.Property "platform";
                           STACArchive.Literal "sentinel-1b"]] ∈ args ∧
    STACArchive.Op "=" [STACArchive.Property "s1:datatake";
                        STACArchive.Literal "0382D5"] ∈ args ∧
    STACArchive.Op "s_intersects"
      [STACArchive.Property "geometry";
       STACArchive.Polygon [[(0, 0); (0, 1); (1, 1); (1, 0); (0, 0)]]]
      ∈ args.
Proof.
  destruct (select_filter_clauses Examples.unit_square (λ _, "")
              Examples.by_frame false _ eq_refl)
    as (args & Hflt & Hlen & Hsensor & _ & _ & Hframe & Hvec & _).
  exists args. split; [rewrite <- Hflt; reflexivity|]. split; [exact Hlen|].
  split; [|split].
  - destruct (Hsensor _ eq_refl) as (platforms & Hall & Hin).
    apply Forall2_cons_inv_l in Hall as (p & ps & [[_ ->]|[? _]] & Hall & ->);
      [|done].
    apply Forall2_cons_inv_l in Hall as (q & qs & [[? _]|[_ ->]] & Hall & ->);
      [done|].
    apply Forall2_nil_inv_l in Hall as ->. exact Hin.
  - exact (Hframe _ eq_refl).
  - exact (Hvec _ eq_refl).
Defined.

(** ** Strings: the hexadecimal data take, the path of an item, the
    pattern of a scene name *)

Section hexadecimal.

Lemma length_append (a b : string) :
  String.length (a +:+ b) = (String.length a + String.length b)%nat.
Proof.
  induction a as [|c a IH]; [done|]. rewrite append_cons. simpl. by f_equal.
Qed.

Lemma hex_digit_value_digit (d : N) :
  (d < 16)%N → hex_digit_value (hex_digit d) = Some d.
Proof.
  intros Hd.
  destruct d as [|p]; [done|].
  do 4 (destruct p as [p|p|]; try done); lia.
Qed.

Lemma int_16_from_zeros (n : nat) (s : string) :
  int_16_from 0 (zeros n +:+ s) = int_16_from 0 s.
Proof.
  induction n as [|n IH]; [done|].
  change (zeros (S n)) with (String "0" (zeros n)). by rewrite append_cons.
Qed.

(** The digits that [hex_pos] puts before [acc] are those of [n]. *)
Lemma hex_pos_value (fuel : nat) : ∀ (n : N) (acc : string),
  (n < 2 ^ N.of_nat fuel)%N →
  ∃ k : N, ∀ a0,
    int_16_from a0 (hex_pos fuel n acc) = int_16_from (a0 * 16 ^ k + n) acc.
Proof.
  induction fuel as [|fuel IH]; intros n acc Hn.
  - exists 0%N. intros a0. simpl in *. f_equal. lia.
  - simpl hex_pos.
    assert (n mod 16 < 16)%N as Hmod by (apply N.mod_lt; lia).
    pose proof (N.div_mod n 16 ltac:(lia)) as Hdiv.
    destruct (N.eqb_spec (n / 16) 0) as [Hz|Hnz].
    + exists 1%N. intros a0. simpl.
      rewrite hex_digit_value_digit by done. simpl. f_equal. lia.
    + destruct (IH (n / 16)%N (String (hex_digit (n mod 16)) acc))
        as [k Hk].
      { rewrite Nat2N.inj_succ, N.pow_succ_r' in Hn.
        apply N.Div0.div_lt_upper_bound. lia. }
      exists (k + 1)%N. intros a0. rewrite Hk. simpl.
      rewrite hex_digit_value_digit by done. simpl. f_equal.
      rewrite N.pow_add_r. lia.
Qed.

Lemma hex_upper_value (n : N) : int_16 (hex_upper n) = Some n.
Proof.
  unfold int_16, hex_upper.
  destruct (hex_pos_value (S (N.to_nat (N.log2 n))) n "") as [k Hk].
  - rewrite Nat2N.inj_succ, N2Nat.id.
    destruct (N.eq_dec n 0) as [->|Hn]; [done|].
    apply N.log2_spec. lia.
  - rewrite Hk. simpl. f_equal; lia.
Qed.

(** A number below [16 ^ k] has at most [k] digits. *)
Lemma hex_pos_length (fuel : nat) : ∀ (n k : N) (acc : string),
  (1 ≤ k)%N → (n < 16 ^ k)%N →
  (1 + String.length acc ≤ String.length (hex_pos fuel n acc) ∨ fuel = 0)%nat ∧
  (N.of_nat (String.length (hex_pos fuel n acc))
   ≤ k + N.of_nat (String.length acc))%N.
Proof.
  induction fuel as [|fuel IH]; intros n k acc Hk Hn.
  - simpl. split; [by right|lia].
  - simpl hex_pos. destruct (N.eqb_spec (n / 16) 0) as [Hz|Hnz].
    + simpl. split; [left; lia|lia].
    + assert (2 ≤ k)%N as Hk2.
      { destruct (N.eq_dec k 1) as [->|]; [|lia].
        destruct Hnz. apply N.div_small. simpl in Hn. lia. }
      destruct (IH (n / 16)%N (k - 1)%N (String (hex_digit (n mod 16)) acc))
        as [Hlow Hup]; [lia| |].
      { apply N.Div0.div_lt_upper_bound.
        replace k with (N.succ (k - 1)) in Hn by lia.
        by rewrite N.pow_succ_r' in Hn. }
      simpl in *. split; [|lia].
      left. destruct Hlow as [Hlow| ->]; [lia|]. simpl. lia.
Qed.

(** X5. The data take of the filter can be read back from its text: for
    a frame number that is not negative, ['{:06X}'.format] writes
    upper-case hexadecimal digits whose value is the number, so distinct
    frame numbers give distinct texts; the text has at least six
    characters and exactly six for a number below [16 ^ 6]. *)
Theorem frame_number_hexadecimal_round_trip (v : Z) :
  0 ≤ v →
  int_16 (format_06X v) = Some (Z.to_N v) ∧
  (6 ≤ String.length (format_06X v))%nat ∧
  (v < 16 ^ 6 → String.length (format_06X v) = 6%nat) ∧
  (∀ v', 0 ≤ v' → format_06X v' = format_06X v → v' = v).
Proof.
  intros Hv.
  assert (∀ u, 0 ≤ u → format_06X u = zfill 6 (hex_upper (Z.to_N u))) as Hfmt.
  { intros u Hu. unfold format_06X.
    by destruct (Z.ltb_spec u 0) as [|_]; [lia|]. }
  assert (∀ u, 0 ≤ u → int_16 (format_06X u) = Some (Z.to_N u)) as Hback.
  { intros u Hu. rewrite Hfmt by done. unfold zfill, int_16.
    rewrite int_16_from_zeros. apply hex_upper_value. }
  split; [by apply Hback|].
  assert (∀ n, String.length (zeros n) = n) as Hzeros.
  { induction n as [|n IH]; [done|]. simpl. by f_equal. }
  split; [|split].
  - rewrite Hfmt by done. unfold zfill. rewrite length_append, Hzeros. lia.
  - intros Hlt. rewrite Hfmt by done. unfold zfill, hex_upper.
    rewrite length_append, Hzeros.
    assert (Z.to_N v < 16 ^ 6)%N as Hn.
    { change (16 ^ 6)%N with 16777216%N.
      change (16 ^ 6) with 16777216 in Hlt. lia. }
    destruct (hex_pos_length (S (N.to_nat (N.log2 (Z.to_N v)))) (Z.to_N v) 6 "")
      as [Hlow Hup]; [lia|done|].
    change (String.length "") with 0%nat in Hup. lia.
  - intros v' Hv' Heq.
    pose proof (Hback v' Hv') as H1. rewrite Heq, Hback in H1 by done.
    injection H1 as H1. lia.
Qed.

End hexadecimal.

Lemma frame_number_hexadecimal_round_trip_witness :
  format_06X 230101 = "0382D5" ∧
  int_16 (format_06X 230101) = Some (Z.to_N 230101) ∧
  (6 ≤ String.length (format_06X 230101))%nat.
Proof.
  split; [reflexivity|].
  destruct (frame_number_hexadecimal_round_trip 230101) as (Hback & Hlen & _).
  - lia.
  - by split.
Defined.

Section resolution.
Import STACArchive.
Variable path_exists : string → bool.
Variable realpath : string → string.

Lemma find_end_None (needle s : string) :
  find_end needle s = None → ¬ occurs needle s.
Proof.
  induction s as [|c s IH]; simpl.
  - destruct (startswith needle "") eqn:Hst; [done|]. intros _ (pre & post & Heq).
    destruct pre as [|c pre]; [|by rewrite append_cons in Heq].
    rewrite append_nil in Heq.
    assert (startswith needle "" = true); [|congruence].
    apply startswith_spec. by exists post.
  - destruct (startswith needle (String c s)) eqn:Hst; [done|].
    destruct (find_end needle s) as [e|] eqn:Hfind; [done|].
    intros _ (pre & post & Heq). destruct pre as [|c' pre].
    + rewrite append_nil in Heq.
      assert (startswith needle (String c s) = true); [|congruence].
      apply startswith_spec. by exists post.
    + rewrite append_cons in Heq. injection Heq as -> ->.
      apply IH; [done|]. by exists pre, post.
Qed.

(** A text that ends in [.SAFE] and begins with [file://] has the
    scheme before what ends in [.SAFE]. *)
Lemma scheme_before_suffix (pre path : string) :
  pre +:+ ".SAFE" = "file://" +:+ path →
  ∃ stem, pre = "file://" +:+ stem ∧ path = stem +:+ ".SAFE".
Proof.
  intros Heq.
  do 7 (destruct pre as [|? pre];
        [rewrite append_nil in Heq; discriminate Heq|];
        rewrite !append_cons in Heq; injection Heq as -> Heq).
  rewrite append_nil in Heq. exists pre. by rewrite !append_cons, append_nil.
Qed.

(** X6. What [select] makes of an item found. Without assets the item
    raises [IndexError], and with a first asset whose [href] does not
    hold [.SAFE] it raises [AttributeError], whether or not existence
    is checked. Otherwise the path of the item is the [href] up to the
    end of its first [.SAFE], without one leading [file://], so it ends
    in [.SAFE]; a path that exists is made real; a path that does not
    exist raises the not-found error when existence is checked and is
    passed on unchanged when it is not. *)
Theorem resolve_cases (check_exist : bool) (it : item) :
  match assets it with
  | [] => resolve path_exists realpath check_exist it = Raise IndexError
  | (_, href) :: _ =>
      (¬ occurs ".SAFE" href →
         resolve path_exists realpath check_exist it = Raise AttributeError) ∧
      (occurs ".SAFE" href →
         ∃ scheme stem post,
           href = scheme +:+ stem +:+ ".SAFE" +:+ post ∧
           (∀ pre' post', href = pre' +:+ ".SAFE" +:+ post' →
              (String.length (scheme +:+ stem) ≤ String.length pre')%nat) ∧
           (scheme = "file://" ∨
            (scheme = "" ∧ startswith "file://" (stem +:+ ".SAFE") = false)) ∧
           let path := stem +:+ ".SAFE" in
           resolve path_exists realpath check_exist it =
             if path_exists path then Ok (realpath path)
             else if check_exist
                  then Raise (RuntimeError ["scene does not exist locally:"; path])
                  else Ok path)
  end.
Proof.
  destruct (assets it) as [|[key href] rest] eqn:Hassets.
  { unfold resolve, local_path. by rewrite Hassets. }
  destruct (local_path it) as [path|e] eqn:Hpath.
  - destruct (local_path_spec it path Hpath)
      as (key' & href' & rest' & pre & post & Has & Hhref & Hmin & Hscheme).
    rewrite Hassets in Has. injection Has as <- <- <-.
    split.
    { intros Hno. destruct Hno. by exists pre, post. }
    intros _. unfold resolve. rewrite Hpath. simpl.
    destruct Hscheme as [Hfile|[Hnone ->]].
    + apply scheme_before_suffix in Hfile as (stem & -> & ->).
      exists "file://", stem, post.
      split; [by rewrite Hhref, append_assoc|]. split; [done|].
      split; [by left|done].
    + exists "", pre, post. rewrite !append_nil.
      split; [done|]. split; [done|]. split; [by right|done].
  - unfold local_path, getitem in Hpath. rewrite Hassets in Hpath.
    simpl in Hpath.
    destruct (find_end ".SAFE" href) as [n|] eqn:Hfind; [done|].
    injection Hpath as <-. pose proof (find_end_None _ _ Hfind) as Hno.
    split; [|done]. intros _. unfold resolve, local_path, getitem.
    rewrite Hassets. simpl. by rewrite Hfind.
Qed.

End resolution.

Lemma resolve_cases_witness :
  ∃ path,
    STACArchive.resolve Examples.empty_disk (λ p, p) true Examples.local_item
    = Raise (RuntimeError ["scene does not exist locally:"; path]).
Proof.
  assert (occurs ".SAFE"
            "file:///d/S1A_IW_GRDH_1SDV_20200103T170700_20200103T170725_030639_0382D5_AAAA.SAFE/manifest.safe")
    as Hsafe.
  { by exists
      "file:///d/S1A_IW_GRDH_1SDV_20200103T170700_20200103T170725_030639_0382D5_AAAA",
      "/manifest.safe". }
  destruct (resolve_cases Examples.empty_disk (λ p, p) true
              Examples.local_item) as [_ Hfound].
  destruct (Hfound Hsafe) as (scheme & stem & post & _ & _ & _ & Hchecked).
  exists (stem +:+ ".SAFE"). exact Hchecked.
Defined.

Section pattern.
Import STACArchive.

Lemma list_ascii_cons (c : ascii) (s : string) :
  String.list_ascii_of_string (String c s)
  = c :: String.list_ascii_of_string s.
Proof. reflexivity. Qed.

Lemma repeat_class_spec (cls : ascii → bool) (n : nat) : ∀ s m r,
  repeat_class cls n s = Some (m, r) ↔
  s = m +:+ r ∧ String.length m = n ∧ Forall cls (String.list_ascii_of_string m).
Proof.
  induction n as [|n IH]; intros s m r; simpl.
  - split.
    + intros [= <- <-]. by repeat split.
    + intros (-> & Hlen & _). by destruct m.
  - destruct s as [|c s].
    + split; [done|]. intros (Hs & Hlen & _). by destruct m.
    + destruct (cls c) eqn:Hc.
      * destruct (repeat_class cls n s) as [[m' r']|] eqn:Hrep; simpl.
        -- apply IH in Hrep as (-> & Hlen & Hall). split.
           ++ intros [= <- <-]. rewrite append_cons, list_ascii_cons.
              split; [done|]. split; [simpl; by f_equal|].
              constructor; [by rewrite Hc|done].
           ++ intros (Hs & Hlen' & Hall'). destruct m as [|c' m]; [done|].
              rewrite append_cons in Hs. injection Hs as <- Hs.
              injection Hlen' as Hlen'. rewrite list_ascii_cons in Hall'.
              apply Forall_cons in Hall' as [_ Hall'].
              assert (repeat_class cls n (m' +:+ r') = Some (m, r)) as Hrep'
                by (by apply IH).
              assert (repeat_class cls n (m' +:+ r') = Some (m', r')) as Hrep''
                by (by apply IH).
              congruence.
        -- split; [done|]. intros (Hs & Hlen' & Hall').
           destruct m as [|c' m]; [done|].
           rewrite append_cons in Hs. injection Hs as <- ->.
           injection Hlen' as Hlen'. rewrite list_ascii_cons in Hall'.
           apply Forall_cons in Hall' as [_ Hall'].
           assert (repeat_class cls n (m +:+ r) = Some (m, r)) as Hrep'
             by (by apply IH).
           congruence.
      * split; [done|]. intros (Hs & Hlen' & Hall').
        destruct m as [|c' m]; [done|].
        rewrite append_cons in Hs. injection Hs as <- ->.
        rewrite list_ascii_cons in Hall'.
        apply Forall_cons in Hall' as [Hc' _]. by rewrite Hc in Hc'.
Qed.

Lemma literal_spec (c : ascii) (s r : string) :
  literal c s = Some r ↔ s = String c r.
Proof.
  unfold literal. destruct s as [|d s]; [done|].
  case_decide; subst; split; congruence.
Qed.

Local Arguments repeat_class : simpl never.
Local Arguments literal : simpl never.

(** The matcher decides the pattern at the start of a text. *)
Lemma match_here_spec (s : string) (g : triple) :
  match_here s = Some g ↔ pattern_at_start s g.
Proof.
  destruct g as [[g1 g2] g3]. unfold match_here, pattern_at_start. simpl.
  split.
  - destruct (repeat_class token_char 16 s) as [[h1 s1]|] eqn:H1; [|done]. simpl.
    destruct (literal "_" s1) as [s2|] eqn:H2; [|done]. simpl.
    destruct (repeat_class time_char 15 s2) as [[h2 s3]|] eqn:H3; [|done]. simpl.
    destruct (literal "_" s3) as [s4|] eqn:H4; [|done]. simpl.
    destruct (repeat_class time_char 15 s4) as [[h3 s5]|] eqn:H5; [|done]. simpl.
    intros [= <- <- <-].
    apply repeat_class_spec in H1 as (-> & ? & ?).
    apply literal_spec in H2 as ->.
    apply repeat_class_spec in H3 as (-> & ? & ?).
    apply literal_spec in H4 as ->.
    apply repeat_class_spec in H5 as (-> & ? & ?).
    exists s5. by repeat split.
  - intros (rest & -> & L1 & L2 & L3 & C1 & C2 & C3).
    assert (repeat_class token_char 16
              (g1 +:+ "_" +:+ g2 +:+ "_" +:+ g3 +:+ rest)
            = Some (g1, "_" +:+ g2 +:+ "_" +:+ g3 +:+ rest)) as ->
      by (by apply repeat_class_spec).
    simpl. rewrite append_nil.
    assert (repeat_class time_char 15 (g2 +:+ "_" +:+ g3 +:+ rest)
            = Some (g2, "_" +:+ g3 +:+ rest)) as ->
      by (by apply repeat_class_spec).
    simpl. rewrite append_nil.
    assert (repeat_class time_char 15 (g3 +:+ rest) = Some (g3, rest)) as ->
      by (by apply repeat_class_spec).
    done.
Qed.

Local Arguments match_here : simpl never.

Lemma re_search_Some (s : string) (g : triple) :
  re_search s = Some g →
  ∃ pre s', s = pre +:+ s' ∧ pattern_at_start s' g ∧
    ∀ pre' s'' g', s = pre' +:+ s'' → pattern_at_start s'' g' →
      (String.length pre ≤ String.length pre')%nat.
Proof.
  induction s as [|c s IH]; simpl.
  - done.
  - destruct (match_here (String c s)) as [g'|] eqn:Hm.
    + intros [= ->]. exists "", (String c s). split; [done|].
      split; [by apply match_here_spec|]. intros; simpl; lia.
    + intros (pre & s' & -> & Hat & Hmin)%IH.
      exists (String c pre), s'. rewrite append_cons. split; [done|].
      split; [done|]. intros [|c' pre'] s'' g' Heq Hat'.
      * rewrite append_nil in Heq. subst s''.
        apply match_here_spec in Hat'. congruence.
      * rewrite append_cons in Heq. injection Heq as <- Heq. simpl.
        specialize (Hmin pre' s'' g' Heq Hat'). lia.
Qed.

Lemma re_search_None (s : string) :
  re_search s = None → ∀ pre s' g, s = pre +:+ s' → ¬ pattern_at_start s' g.
Proof.
  induction s as [|c s IH]; simpl.
  - intros _ pre s' g Heq Hat.
    destruct pre as [|c pre]; [|by rewrite append_cons in Heq].
    rewrite append_nil in Heq. subst s'.
    apply match_here_spec in Hat. vm_compute in Hat. discriminate Hat.
  - destruct (match_here (String c s)) as [g'|] eqn:Hm; [done|].
    intros Hs [|c' pre] s' g Heq Hat.
    + rewrite append_nil in Heq. subst s'.
      apply match_here_spec in Hat. congruence.
    + rewrite append_cons in Heq. injection Heq as <- Heq.
      by eapply IH.
Qed.

Lemma basename_from_suffix (s : string) : ∀ cur,
  (∃ dir, cur = dir +:+ s) →
  ∃ dir, cur = dir +:+ basename_from cur s ∨
         s = dir +:+ basename_from cur s.
Proof.
  induction s as [|c s IH]; intros cur Hcur; simpl.
  - exists "". left. by rewrite append_nil.
  - case_decide.
    + destruct (IH s) as [dir [Hd|Hd]]; [by exists ""|..].
      * exists (String c dir). right. rewrite append_cons. by f_equal.
      * exists (String c dir). right. rewrite append_cons. by f_equal.
    + destruct Hcur as [dir ->].
      destruct (IH (dir +:+ String c s)) as [dir' [Hd|Hd]].
      * exists (dir +:+ String c ""). by rewrite append_assoc.
      * exists dir'. by left.
      * exists (String c dir'). right. rewrite append_cons. by f_equal.
Qed.

(** The base name of a path is what the path ends with. *)
Lemma basename_suffix (x : string) : ∃ dir, x = dir +:+ basename x.
Proof.
  unfold basename. destruct (basename_from_suffix x x) as [dir [Hd|Hd]].
  - by exists "".
  - by exists dir.
  - by exists dir.
Qed.

(** X7. The triple that [_filter_duplicates] reads from a scene. When
    the pattern occurs in the base name of the location, the triple
    holds the groups of its leftmost occurrence: a token of sixteen
    characters of [[0-9A-Z_]], and a start and a stop of fifteen
    characters of [[0-9T]] each, with an underscore between them; the
    directory of the scene plays no part. When the pattern does not
    occur in the base name, no triple is read and [groups()] raises
    [AttributeError]. *)
Theorem triple_of_is_leftmost_match (x : string) :
  (∃ dir, x = dir +:+ basename x) ∧
  (∀ g, triple_of x = Some g →
     groups_of x = Ok g ∧
     ∃ pre s, basename x = pre +:+ s ∧ pattern_at_start s g ∧
       ∀ pre' s' g', basename x = pre' +:+ s' → pattern_at_start s' g' →
         (String.length pre ≤ String.length pre')%nat) ∧
  (triple_of x = None →
     groups_of x = Raise AttributeError ∧
     ∀ pre s g, basename x = pre +:+ s → ¬ pattern_at_start s g).
Proof.
  split; [apply basename_suffix|]. unfold groups_of, triple_of. split.
  - intros g Hg. rewrite Hg. split; [done|]. by apply re_search_Some.
  - intros Hnone. rewrite Hnone. split; [done|]. by apply re_search_None.
Qed.

End pattern.

Lemma triple_of_is_leftmost_match_witness :
  STACArchive.groups_of Examples.scene_a2_elsewhere
  = Ok ("S1A_IW_GRDH_1SDV", "20200103T170700", "20200103T170725").
Proof.
  destruct (triple_of_is_leftmost_match Examples.scene_a2_elsewhere)
    as (_ & Hsome & _).
  destruct (Hsome _ eq_refl) as [Hgroups _]. exact Hgroups.
Defined.

(** ** Duplicate resolution, whatever the input *)

Section duplicates_further.
Import STACArchive.
Variable proc : string → res Z.

Local Abbreviation time := (_get_proc_time proc).
Local Abbreviation has_triple := (λ s : string, is_Some (triple_of s)).

Lemma for_each_Raise_inv {A B} (f : A → res B) (l : list A) (e : exn) :
  for_each f l = Raise e → ∃ x, x ∈ l ∧ f x = Raise e.
Proof.
  induction l as [|x l IH]; simpl; [done|].
  destruct (f x) as [y|e'] eqn:Hx; simpl.
  - destruct (for_each f l) as [ys|e'']; simpl; [done|].
    intros [= ->]. destruct IH as (x' & Hx' & He); [done|].
    exists x'. split; [by right|done].
  - intros [= ->]. exists x. split; [left|done].
Qed.

Lemma sublist_StronglySorted {A} (R : relation A) (l1 l2 : list A) :
  l1 `sublist_of` l2 → StronglySorted R l2 → StronglySorted R l1.
Proof.
  induction 1 as [|x l1 l2 Hsub IH|x l1 l2 Hsub IH]; intros Hs; [done|..].
  - apply StronglySorted_inv in Hs as [Hs Hall].
    constructor; [by apply IH|].
    rewrite Forall_forall in Hall. apply Forall_forall. intros y Hy.
    apply Hall. by eapply elem_of_sublist.
  - apply StronglySorted_inv in Hs as [Hs _]. by apply IH.
Qed.

(** A sorted list is what [sorted] returns for it and for every
    rearrangement of it. *)
Lemma sorted_Permutation (l1 l2 : list string) :
  l1 ≡ₚ l2 → sorted l1 = sorted l2.
Proof.
  intros Hperm. unfold sorted.
  apply (StronglySorted_unique String.le).
  - apply StronglySorted_merge_sort; apply _.
  - apply StronglySorted_merge_sort; apply _.
  - by rewrite !merge_sort_Permutation.
Qed.

Lemma sorted_of_sorted (l : list string) :
  StronglySorted String.le l → sorted l = l.
Proof.
  intros Hs. unfold sorted. apply (StronglySorted_unique String.le).
  - apply StronglySorted_merge_sort; apply _.
  - done.
  - apply merge_sort_Permutation.
Qed.

Lemma collect_inv (m : triple) (l : list string) : ∀ g rest,
  collect m l = Ok (g, rest) →
  l = g ++ rest ∧ Forall (λ y, triple_of y = Some m) g ∧
  head rest ≫= triple_of ≠ Some m.
Proof.
  induction l as [|y l IH]; intros g rest; simpl.
  - intros [= <- <-]. by repeat split.
  - unfold groups_of. destruct (triple_of y) as [m2|] eqn:Hy; simpl; [|done].
    destruct (decide (m = m2)) as [<-|Hne].
    + destruct (collect m l) as [[g' rest']|] eqn:Hc; simpl; [|done].
      intros [= <- <-]. destruct (IH g' rest' eq_refl) as (-> & Hg & Hrest).
      repeat split; [by constructor|done].
    + intros [= <- <-]. repeat split; [constructor|].
      simpl. rewrite Hy. congruence.
Qed.

Lemma collect_Raise (m : triple) (l : list string) (e : exn) :
  collect m l = Raise e →
  e = AttributeError ∧ ∃ s, s ∈ l ∧ triple_of s = None.
Proof.
  induction l as [|y l IH]; simpl; [done|].
  unfold groups_of. destruct (triple_of y) as [m2|] eqn:Hy; simpl.
  - destruct (decide (m = m2)) as [<-|Hne]; [|done].
    destruct (collect m l) as [[g' rest']|e'] eqn:Hc; simpl; [done|].
    intros [= ->]. destruct IH as (-> & s & Hs & Hnone); [done|].
    split; [done|]. exists s. split; [by right|done].
  - intros [= <-]. split; [done|]. exists y. split; [left|done].
Qed.

Lemma keep_of_inv (group : list string) (o : string) :
  group ≠ [] → keep_of proc group = Ok o → survivor proc group o.
Proof.
  intros Hne Hkeep. destruct group as [|x [|y g]]; [done|..].
  - by injection Hkeep as <-.
  - destruct (keep_of_many proc (x :: y :: g)) as (o' & Ho' & Hsurv).
    + simpl. lia.
    + unfold keep_of in Hkeep.
      destruct (decide (1 < length (x :: y :: g))%nat) as [_|Hlen];
        [|simpl in Hlen; lia].
      apply bind_Ok in Hkeep as (tproc & Htproc%for_each_Ok_inv & _).
      clear -Htproc. induction Htproc; constructor; [by eexists|done].
    + congruence.
Qed.

Lemma keep_of_Raise (group : list string) (e : exn) :
  group ≠ [] → keep_of proc group = Raise e →
  (1 < length group)%nat ∧ ∃ s, s ∈ group ∧ time s = Raise e.
Proof.
  intros Hne Hkeep. destruct group as [|x [|y g]]; [done|done|].
  split; [simpl; lia|].
  destruct (for_each time (x :: y :: g)) as [tproc|e'] eqn:Htimes.
  - destruct (keep_of_many proc (x :: y :: g)) as (o' & Ho' & _);
      [simpl; lia| |congruence].
    apply for_each_Ok_inv in Htimes.
    clear -Htimes. induction Htimes; constructor; [by eexists|done].
  - unfold keep_of in Hkeep.
    destruct (decide (1 < length (x :: y :: g))%nat) as [_|Hlen];
      [|simpl in Hlen; lia].
    rewrite Htimes in Hkeep. injection Hkeep as ->.
    by apply for_each_Raise_inv.
Qed.

(** What the loop returns resolves the list it scans. *)
Lemma scan_inv (fuel : nat) : ∀ tmp keep,
  scan proc fuel tmp = Ok keep → resolved proc tmp keep.
Proof.
  induction fuel as [|fuel IH]; intros [|x tmp] keep; simpl;
    try (intros [= <-]; constructor); try done.
  unfold groups_of at 1. destruct (triple_of x) as [m|] eqn:Hx; simpl; [|done].
  destruct (collect m tmp) as [[g rest]|] eqn:Hc; simpl; [|done].
  apply collect_inv in Hc as (-> & Hg & Hrest).
  destruct (keep_of proc (x :: g)) as [o|] eqn:Hkeep; simpl; [|done].
  apply keep_of_inv in Hkeep; [|done].
  destruct (scan proc fuel rest) as [keep'|] eqn:Hscan; simpl; [|done].
  intros [= <-]. econstructor; [done..|]. by apply IH.
Qed.

(** An error of the loop is [AttributeError] for a scene without the
    pattern, or the error of reading the manifest of a scene that shares
    its triple. *)
Lemma scan_Raise (fuel : nat) : ∀ tmp e,
  (length tmp ≤ fuel)%nat →
  scan proc fuel tmp = Raise e →
  (e = AttributeError ∧ ∃ s, s ∈ tmp ∧ triple_of s = None) ∨
  (∃ s, s ∈ tmp ∧ duplicated tmp s ∧ time s = Raise e).
Proof.
  induction fuel as [|fuel IH]; intros [|x tmp] e Hlen; simpl in *;
    try done; try lia.
  unfold groups_of at 1. destruct (triple_of x) as [m|] eqn:Hx; simpl.
  2: { intros [= <-]. left. split; [done|]. exists x. split; [left|done]. }
  destruct (collect m tmp) as [[g rest]|e'] eqn:Hc; simpl.
  2: { intros [= ->]. apply collect_Raise in Hc as (-> & s & Hs & Hnone).
       left. split; [done|]. exists s. split; [by right|done]. }
  apply collect_inv in Hc as (-> & Hg & Hrest).
  destruct (keep_of proc (x :: g)) as [o|e'] eqn:Hkeep; simpl.
  2: { intros [= ->]. apply keep_of_Raise in Hkeep as (Hl & s & Hs & He); [|done].
       right. exists s. split; [|split; [|done]].
       - change (x :: g ++ rest) with ((x :: g) ++ rest).
         apply elem_of_app. by left.
       - apply (duplicated_run (x :: g) rest m); [by constructor|done..]. }
  destruct (scan proc fuel rest) as [keep'|e'] eqn:Hscan; simpl; [done|].
  intros [= ->]. rewrite length_app in Hlen.
  destruct (IH rest e) as [(-> & s & Hs & Hnone)|(s & Hs & Hd & He)];
    [lia|done|..].
  - left. split; [done|]. exists s. split; [|done].
    right. apply elem_of_app. by right.
  - right. exists s. split; [|split; [|done]].
    + right. apply elem_of_app. by right.
    + by apply (duplicated_inserts (x :: g) rest).
Qed.

Lemma resolved_heads (tmp keep : list string) :
  resolved proc tmp keep →
  head keep ≫= triple_of = head tmp ≫= triple_of.
Proof.
  destruct 1 as [|x g rest m o keep Hx Hg Hrest Hsurv Hres]; [done|].
  simpl. rewrite Hx.
  assert (Forall (λ y, triple_of y = Some m) (x :: g)) as Hxg by (by constructor).
  rewrite Forall_forall in Hxg. apply Hxg. exact (survivor_elem _ _ _ Hsurv).
Qed.

Lemma resolved_has_triples (tmp keep : list string) :
  resolved proc tmp keep → Forall has_triple tmp.
Proof.
  induction 1 as [|x g rest m o keep Hx Hg Hrest Hsurv Hres IH]; [constructor|].
  constructor; [by exists m|]. apply Forall_app. split; [|done].
  eapply Forall_impl; [done|]. intros y Hy. by exists m.
Qed.

(** Survivors that follow one another have different triples. *)
Lemma resolved_neighbours (tmp keep : list string) :
  resolved proc tmp keep →
  ∀ i o o', keep !! i = Some o → keep !! S i = Some o' →
    triple_of o ≠ triple_of o'.
Proof.
  induction 1 as [|x g rest m o0 keep Hx Hg Hrest Hsurv Hres IH];
    intros i o o' Ho Ho'; [done|].
  pose proof (survivor_elem _ _ _ Hsurv) as Ho0.
  destruct i as [|i]; [|by eapply IH].
  injection Ho as <-.
  assert (Forall (λ y, triple_of y = Some m) (x :: g)) as Hxg by (by constructor).
  rewrite Forall_forall in Hxg. rewrite (Hxg o0 Ho0).
  apply resolved_heads in Hres. rewrite <- Hres in Hrest.
  destruct keep as [|o'' keep]; [done|].
  injection Ho' as ->. simpl in Hrest. congruence.
Qed.

(** A sorted list whose neighbours differ holds nothing twice. *)
Lemma sorted_neighbours_NoDup (l : list string) :
  StronglySorted String.le l →
  (∀ i a b, l !! i = Some a → l !! S i = Some b → a ≠ b) →
  NoDup l.
Proof.
  induction 1 as [|x l Hs IH Hall]; intros Hne; [constructor|].
  apply NoDup_cons. split.
  - destruct l as [|y l]; [by intros ?%elem_of_nil|].
    apply Forall_cons in Hall as [Hxy _].
    apply StronglySorted_inv in Hs as [_ Hy]. rewrite Forall_forall in Hy.
    specialize (Hne 0%nat x y eq_refl eq_refl).
    intros [?|Hx]%elem_of_cons; [done|].
    apply Hne. apply (anti_symm String.le); [done|by apply Hy].
  - apply IH. intros i a b Ha Hb. by apply (Hne (S i)).
Qed.

(** The result of [_filter_duplicates] holds no scene twice. *)
Lemma filter_duplicates_NoDup (scenes keep : list string) :
  _filter_duplicates proc scenes = Ok keep → NoDup keep.
Proof.
  unfold _filter_duplicates. intros Hres%scan_inv.
  apply sorted_neighbours_NoDup.
  - eapply sublist_StronglySorted; [by eapply resolved_sublist|].
    apply StronglySorted_merge_sort; apply _.
  - intros i a b Ha Hb ->.
    by apply (resolved_neighbours _ _ Hres i b b).
Qed.

(** The loop leaves a list of survivors as it is, without reading a
    manifest. *)
Lemma scan_fixed (tmp keep : list string) :
  resolved proc tmp keep →
  ∀ proc' fuel, (length keep ≤ fuel)%nat → scan proc' fuel keep = Ok keep.
Proof.
  induction 1 as [|x g rest m o keep Hx Hg Hrest Hsurv Hres IH];
    intros proc' fuel Hlen; [by destruct fuel|].
  pose proof (survivor_elem _ _ _ Hsurv) as Ho.
  destruct fuel as [|fuel]; [simpl in Hlen; lia|].
  assert (Forall (λ y, triple_of y = Some m) (x :: g)) as Hxg by (by constructor).
  rewrite Forall_forall in Hxg.
  cbn [scan]. unfold groups_of at 1. rewrite (Hxg o Ho). simpl.
  assert (collect m keep = Ok ([], keep)) as ->.
  { pose proof (resolved_heads _ _ Hres) as Hheads.
    rewrite <- Hheads in Hrest.
    destruct keep as [|o' keep]; [done|].
    assert (has_triple o') as [m' Hm'].
    { pose proof (resolved_has_triples _ _ Hres) as Hall.
      rewrite Forall_forall in Hall. apply Hall.
      eapply elem_of_sublist; [left|]. by eapply resolved_sublist. }
    simpl in *. unfold groups_of. rewrite Hm' in *. simpl.
    destruct (decide (m = m')) as [->|]; [done|done]. }
  simpl. rewrite IH; [done|]. simpl in Hlen. lia.
Qed.

(** X8. [_filter_duplicates] sorts its input first, so its result, or
    its error, does not depend on the order in which the scenes are
    given. *)
Theorem filter_duplicates_ignores_input_order (scenes scenes' : list string) :
  scenes ≡ₚ scenes' →
  _filter_duplicates proc scenes = _filter_duplicates proc scenes'.
Proof.
  intros Hperm. unfold _filter_duplicates.
  by rewrite (sorted_Permutation _ _ Hperm).
Qed.

(** X9. Whenever [_filter_duplicates] returns, and whether or not the
    scenes of a triple lie together in the sorted input: every scene
    given has the pattern in its base name; the result is a subsequence
    of the sorted input, so it is sorted and holds scenes of the input
    only; every scene given is represented by a scene of its triple in
    the result, itself or one whose manifest could be read and is not
    earlier in processing time; and scenes that follow one another in
    the result have different triples. *)
Theorem filter_duplicates_result (scenes keep : list string) :
  _filter_duplicates proc scenes = Ok keep →
  Forall (λ s, is_Some (triple_of s)) scenes ∧
  keep `sublist_of` sorted scenes ∧
  StronglySorted String.le keep ∧
  (∀ o, o ∈ keep → o ∈ scenes) ∧
  (∀ s, s ∈ scenes →
     ∃ o, o ∈ keep ∧ triple_of o = triple_of s ∧
          (s = o ∨ not_later proc s o)) ∧
  (∀ i o o', keep !! i = Some o → keep !! S i = Some o' →
     triple_of o ≠ triple_of o').
Proof.
  unfold _filter_duplicates. intros Hres%scan_inv.
  pose proof (merge_sort_Permutation String.le scenes) as Hperm.
  fold (sorted scenes) in Hperm.
  pose proof (resolved_sublist _ _ _ Hres) as Hsub.
  split; [|split; [done|split; [|split; [|split]]]].
  - rewrite <- Hperm. by eapply resolved_has_triples.
  - eapply sublist_StronglySorted; [done|].
    apply StronglySorted_merge_sort; apply _.
  - intros o Ho. rewrite <- Hperm. by eapply elem_of_sublist.
  - intros s Hs. rewrite <- Hperm in Hs. by eapply resolved_cover.
  - by eapply resolved_neighbours.
Qed.

(** X10. [_filter_duplicates] is idempotent: given its own result, it
    returns that result again, and reads no manifest to do so. *)
Theorem filter_duplicates_idempotent (scenes keep : list string) :
  _filter_duplicates proc scenes = Ok keep →
  ∀ proc', _filter_duplicates proc' keep = Ok keep.
Proof.
  unfold _filter_duplicates. intros Hres%scan_inv proc'.
  assert (sorted keep = keep) as ->.
  { apply sorted_of_sorted. eapply sublist_StronglySorted.
    - by eapply resolved_sublist.
    - apply StronglySorted_merge_sort; apply _. }
  by eapply scan_fixed.
Qed.

(** X11. The errors of [_filter_duplicates]. It fails whenever a scene
    given has no occurrence of the pattern in its base name. When it
    fails, the error is [AttributeError] and such a scene exists, or it
    is the error of reading the manifest of a scene given that shares
    its triple with another one. *)
Theorem filter_duplicates_errors (scenes : list string) :
  ((∃ s, s ∈ scenes ∧ triple_of s = None) →
     ∃ e, _filter_duplicates proc scenes = Raise e) ∧
  (∀ e, _filter_duplicates proc scenes = Raise e →
     (e = AttributeError ∧ ∃ s, s ∈ scenes ∧ triple_of s = None) ∨
     (∃ s, s ∈ scenes ∧ duplicated scenes s ∧
           _get_proc_time proc s = Raise e)).
Proof.
  pose proof (merge_sort_Permutation String.le scenes) as Hperm.
  fold (sorted scenes) in Hperm. split.
  - intros (s & Hs & Hnone).
    destruct (_filter_duplicates proc scenes) as [keep|e] eqn:Hrun;
      [|by exists e].
    unfold _filter_duplicates in Hrun.
    apply scan_inv, resolved_has_triples in Hrun.
    rewrite Forall_forall in Hrun. destruct (Hrun s) as [m Hm].
    + by rewrite Hperm.
    + congruence.
  - intros e Hrun. unfold _filter_duplicates in Hrun.
    apply scan_Raise in Hrun as [(-> & s & Hs & Hnone)|(s & Hs & Hd & He)];
      [..|done].
    + left. split; [done|]. exists s. by rewrite <- Hperm.
    + right. exists s. split; [by rewrite <- Hperm|]. split; [|done].
      by apply (duplicated_Permutation (sorted scenes)).
Qed.

End duplicates_further.

(** The selection that [STACArchive.select] returns holds no location
    twice: it is the result of [_filter_duplicates]. *)
Lemma select_holds_no_location_twice {Client coord Vector : Type}
    (Client_search :
       nat → Client → list string → STACArchive.clause coord →
       res (list STACArchive.item))
    (extent_4326 : Vector → STACArchive.extent coord)
    (strftime : datetime → string)
    (path_exists : string → bool) (realpath : string → string)
    (manifest_processing_start : string → res Z)
    (self : STACArchive.t Client) (pars : STACArchive.query Vector)
    (date_strict check_exist : bool) (w w' : world) (out : list string) :
  STACArchive.select Client coord Client_search Vector extent_4326 strftime
    path_exists realpath manifest_processing_start self pars date_strict
    check_exist w = (Ok out, w') →
  NoDup out.
Proof.
  unfold STACArchive.select.
  destruct (STACArchive.select_filter _ _ _ _ _ _) as [flt|]; [|done].
  destruct (STACArchive.retry _ _ _) as [[result|] w'']; [|done].
  intros [= (paths & _ & Hkeep)%bind_Ok _].
  by eapply filter_duplicates_NoDup.
Qed.

Lemma filter_duplicates_ignores_input_order_witness :
  STACArchive._filter_duplicates Examples.manifests
    [Examples.scene_b; Examples.scene_a2; Examples.scene_a1]
  = Ok [Examples.scene_a2; Examples.scene_b].
Proof.
  rewrite (filter_duplicates_ignores_input_order Examples.manifests
             [Examples.scene_b; Examples.scene_a2; Examples.scene_a1]
             [Examples.scene_a1; Examples.scene_a2; Examples.scene_b]).
  - reflexivity.
  - exact (reverse_Permutation
             [Examples.scene_a1; Examples.scene_a2; Examples.scene_b]).
Defined.

Lemma filter_duplicates_result_witness :
  STACArchive._filter_duplicates Examples.manifests
    [Examples.scene_b; Examples.scene_a1; Examples.scene_a2]
  = Ok [Examples.scene_a2; Examples.scene_b] ∧
  StronglySorted String.le [Examples.scene_a2; Examples.scene_b] ∧
  ∃ o, o ∈ [Examples.scene_a2; Examples.scene_b] ∧
    STACArchive.triple_of o = STACArchive.triple_of Examples.scene_a1 ∧
    (Examples.scene_a1 = o ∨
     STACArchive.not_later Examples.manifests Examples.scene_a1 o).
Proof.
  destruct (filter_duplicates_result Examples.manifests
              [Examples.scene_b; Examples.scene_a1; Examples.scene_a2]
              [Examples.scene_a2; Examples.scene_b] eq_refl)
    as (_ & _ & Hsorted & _ & Hcover & _).
  split; [reflexivity|]. split; [exact Hsorted|].
  apply Hcover. right. left.
Defined.

Lemma filter_duplicates_idempotent_witness :
  STACArchive._filter_duplicates Examples.unreadable
    [Examples.scene_a2; Examples.scene_b]
  = Ok [Examples.scene_a2; Examples.scene_b].
Proof.
  exact (filter_duplicates_idempotent Examples.manifests
           [Examples.scene_b; Examples.scene_a1; Examples.scene_a2]
           [Examples.scene_a2; Examples.scene_b] eq_refl Examples.unreadable).
Defined.

Lemma filter_duplicates_errors_witness :
  ∃ e, STACArchive._filter_duplicates Examples.manifests
         [Examples.scene_b; Examples.readme] = Raise e.
Proof.
  destruct (filter_duplicates_errors Examples.manifests
              [Examples.scene_b; Examples.readme]) as [Hfails _].
  apply Hfails. exists Examples.readme. split; [right; left|reflexivity].
Defined.

(** ** The ASF catalog *)

Section asf_products.

Local Arguments startswith : simpl never.

Local Abbreviation levels := ["GRD"; "SLC"; "SM"; "OCN"].

Lemma product_of_unfold (level : string) :
  ASF.product_of level =
  if startswith "GRD" level then Ok "GRD"
  else if startswith "SLC" level then Ok "SLC"
  else if startswith "SM" level then Ok "SM"
  else if startswith "OCN" level then Ok "OCN"
  else match level with
       | EmptyString => Raise AttributeError
       | String _ level' => ASF.product_of level'
       end.
Proof. by destruct level. Qed.

Lemma startswith_level (q s : string) :
  q ∈ levels →
  startswith "GRD" s = false → startswith "SLC" s = false →
  startswith "SM" s = false → startswith "OCN" s = false →
  ∀ post, s ≠ q +:+ post.
Proof.
  intros Hq H1 H2 H3 H4 post ->.
  assert (startswith q (q +:+ post) = true) as Hst
    by (apply startswith_spec; by exists post).
  repeat (apply elem_of_cons in Hq as [->|Hq]; [congruence|]).
  by apply elem_of_nil in Hq.
Qed.

(** The product of an ASF object is the alternative of
    [(?:GRD|SLC|SM|OCN)] at the leftmost place of the processing level
    where one of them stands. *)
Lemma product_of_spec (level : string) :
  match ASF.product_of level with
  | Ok p =>
      p ∈ levels ∧
      ∃ pre post, level = pre +:+ p +:+ post ∧
        ∀ q pre' post', q ∈ levels → level = pre' +:+ q +:+ post' →
          (String.length pre ≤ String.length pre')%nat
  | Raise e => e = AttributeError ∧ ∀ q, q ∈ levels → ¬ occurs q level
  end.
Proof.
  induction level as [|c level IH]; rewrite product_of_unfold.
  - change (startswith "GRD" "") with false.
    change (startswith "SLC" "") with false.
    change (startswith "SM" "") with false.
    change (startswith "OCN" "") with false. cbv iota.
    split; [done|]. intros q Hq (pre & post & Heq).
    destruct pre as [|c pre]; [|by rewrite append_cons in Heq].
    rewrite append_nil in Heq. by eapply (startswith_level q "").
  - assert (∀ p, p ∈ levels → startswith p (String c level) = true →
              p ∈ levels ∧
              ∃ pre post, String c level = pre +:+ p +:+ post ∧
                ∀ q pre' post', q ∈ levels →
                  String c level = pre' +:+ q +:+ post' →
                  (String.length pre ≤ String.length pre')%nat) as Hhere.
    { intros p Hp [post Hpost]%startswith_spec. split; [done|].
      exists "", post. split; [done|]. intros; simpl; lia. }
    destruct (startswith "GRD" (String c level)) eqn:H1;
      [apply Hhere; [left|done]|].
    destruct (startswith "SLC" (String c level)) eqn:H2;
      [apply Hhere; [right; left|done]|].
    destruct (startswith "SM" (String c level)) eqn:H3;
      [apply Hhere; [do 2 right; left|done]|].
    destruct (startswith "OCN" (String c level)) eqn:H4;
      [apply Hhere; [do 3 right; left|done]|].
    destruct (ASF.product_of level) as [p|e].
    + destruct IH as (Hp & pre & post & -> & Hmin). split; [done|].
      exists (String c pre), post. split; [done|].
      intros q [|c' pre'] post' Hq Heq.
      * rewrite append_nil in Heq. by destruct (startswith_level q _ Hq H1 H2 H3 H4 post').
      * rewrite append_cons in Heq. injection Heq as <- Heq. simpl.
        specialize (Hmin q pre' post' Hq Heq). lia.
    + destruct IH as [-> Hnone]. split; [done|].
      intros q Hq ([|c' pre] & post & Heq).
      * rewrite append_nil in Heq. by destruct (startswith_level q _ Hq H1 H2 H3 H4 post).
      * rewrite append_cons in Heq. injection Heq as <- Heq.
        apply (Hnone q Hq). by exists pre, post.
Qed.

End asf_products.

Section asf_objects.
Context {coord Vector : Type}.
Variable asf_search :
  string → option (arg string) → option (arg string) →
  option datetime → option datetime → option string →
  res (list (feature coord)).
Variable dateutil_parse : string → res datetime.
Variable strptime_iso : string → res datetime.
Variable strftime : datetime → string.
Variable wkt_4326 : Vector → res string.
Variable buffer_time : string → string → Z → res (string * string).

Local Abbreviation levels := ["GRD"; "SLC"; "SM"; "OCN"].
Local Abbreviation new_ASF := (ASF.__init__ coord strptime_iso strftime).
Local Abbreviation select_asf :=
  (asf_select coord Vector asf_search dateutil_parse strptime_iso strftime
     wkt_4326).

(** What the constructor reads from a feature. *)
Lemma new_ASF_inv (meta : feature coord) (x : ID.t coord) :
  new_ASF meta = Ok x →
  ∃ platform level product t0 t1,
    dict_get (properties meta) "platform" = Ok platform ∧
    dict_get (properties meta) "processingLevel" = Ok level ∧
    ASF.product_of level = Ok product ∧
    dict_get (properties meta) "startTime" ≫= strptime_iso = Ok t0 ∧
    dict_get (properties meta) "stopTime" ≫= strptime_iso = Ok t1 ∧
    dict_get (properties meta) "url" = Ok (ID.scene x) ∧
    dict_get (properties meta) "beamModeType" = Ok (ID.acquisition_mode x) ∧
    geometry_coordinates meta !! 0%nat = Some (ID.coordinates x) ∧
    x = ID.Make (ID.scene x) (replace "entinel-" "" platform) product
          (ID.acquisition_mode x) (strftime t0) (strftime t1) (-1) (-1)
          (ID.coordinates x) None.
Proof.
  unfold ASF.__init__. intros H.
  apply bind_Ok in H as (scene & Hscene & H).
  apply bind_Ok in H as (mode & Hmode & H).
  apply bind_Ok in H as (coordinates & Hcoord & H).
  apply bind_Ok in H as (? & _ & H).
  apply bind_Ok in H as (? & _ & H).
  apply bind_Ok in H as (? & _ & H).
  apply bind_Ok in H as (? & _ & H).
  apply bind_Ok in H as (? & _ & H).
  apply bind_Ok in H as (? & _ & H).
  apply bind_Ok in H as (level & Hlevel & H).
  apply bind_Ok in H as (product & Hproduct & H).
  apply bind_Ok in H as (platform & Hplatform & H).
  apply bind_Ok in H as (start & Hstart & H).
  apply bind_Ok in H as (stop & Hstop & H).
  apply bind_Ok in H as (t0 & Ht0 & H).
  apply bind_Ok in H as (t1 & Ht1 & H).
  injection H as <-. simpl.
  exists platform, level, product, t0, t1.
  rewrite Hstart, Hstop. simpl.
  unfold getitem in Hcoord.
  destruct (geometry_coordinates meta !! 0%nat); by simplify_eq.
Qed.

(** X12. An ASF object made from a feature of a search result has the
    URL of the feature as its location, the platform without
    [entinel-] as its sensor, and as its product the first of [GRD],
    [SLC], [SM] and [OCN] that stands at the leftmost place of the
    processing level where one of them stands; its start and stop are
    the times of the feature in the format of scene names, and its slice
    number and number of slices are both [-1]. *)
Theorem asf_object_of_feature (meta : feature coord) (x : ID.t coord) :
  new_ASF meta = Ok x →
  let prop := dict_get (properties meta) in
  prop "url" = Ok (ID.scene x) ∧
  prop "beamModeType" = Ok (ID.acquisition_mode x) ∧
  (∃ platform, prop "platform" = Ok platform ∧
     ID.sensor x = replace "entinel-" "" platform) ∧
  (∃ level pre post,
     prop "processingLevel" = Ok level ∧
     ID.product x ∈ levels ∧
     level = pre +:+ ID.product x +:+ post ∧
     ∀ q pre' post', q ∈ levels → level = pre' +:+ q +:+ post' →
       (String.length pre ≤ String.length pre')%nat) ∧
  (∃ t0 t1,
     prop "startTime" ≫= strptime_iso = Ok t0 ∧
     prop "stopTime" ≫= strptime_iso = Ok t1 ∧
     ID.start x = strftime t0 ∧ ID.stop x = strftime t1) ∧
  ID.sliceNumber x = -1 ∧ ID.totalSlices x = -1.
Proof.
  intros (platform & level & product & t0 & t1 & Hplatform & Hlevel & Hproduct
          & Ht0 & Ht1 & Hurl & Hmode & _ & Hx)%new_ASF_inv prop.
  split; [done|]. split; [done|]. rewrite Hx. simpl.
  split; [by exists platform|]. split; [|split; [by exists t0, t1|done]].
  pose proof (product_of_spec level) as Hspec. rewrite Hproduct in Hspec.
  destruct Hspec as (Hin & pre & post & Heq & Hmin).
  by exists level, pre, post.
Qed.

(** X13. The completeness check takes an ASF object for the last slice
    of its data take: its slice number and its number of slices are
    both [-1], so the check consults no reference catalog, expects a
    predecessor and no successor, and a group of two scenes. *)
Theorem asf_object_expects_no_successor
    (meta : feature coord) (scene : ID.t coord) (start stop : string)
    (tr : trace Vector) :
  new_ASF meta = Ok scene →
  buffer_time (ID.start scene) (ID.stop scene) 2 = Ok (start, stop) →
  expect coord Vector buffer_time asf_search dateutil_parse strptime_iso
    strftime wkt_4326 scene tr
  = (Ok (start, stop, Expectation 2 false true None), tr).
Proof.
  intros (platform & level & product & t0 & t1 & _ & _ & _ & _ & _ & _ & _ & _
          & Hx)%new_ASF_inv Hbuf.
  unfold expect. rewrite Hbuf, io_bind_pure. cbv beta iota.
  by rewrite Hx.
Qed.

Lemma comprehension_spec {A} (cond : A → res bool) (l kept : list A) :
  comprehension cond l = Ok kept →
  kept `sublist_of` l ∧
  ∀ x, x ∈ l → (∃ b, cond x = Ok b) ∧ (x ∈ kept ↔ cond x = Ok true).
Proof.
  revert kept. induction l as [|y l IH]; intros kept; simpl.
  - intros [= <-]. split; [done|]. by intros x ?%elem_of_nil.
  - intros (b & Hb & (xs & Hxs & [= <-])%bind_Ok)%bind_Ok.
    destruct (IH xs Hxs) as [Hsub Hall]. split.
    { destruct b; [by apply sublist_skip|by apply sublist_cons]. }
    intros x Hx.
    assert (x ∈ xs → cond x = Ok true) as Hkept.
    { intros Hin. apply Hall; [|done]. by eapply elem_of_sublist. }
    apply elem_of_cons in Hx as [->|Hx].
    + split; [by exists b|]. destruct b.
      * split; [done|]. intros _. left.
      * split; [intros Hin; specialize (Hkept Hin); congruence|congruence].
    + destruct (Hall x Hx) as [Hb' Hiff]. split; [done|]. destruct b.
      * rewrite elem_of_cons, Hiff. split; [|by right].
        intros [->|?]; done.
      * done.
Qed.

(** X14. What [asf_select] returns for a property name. The sensor
    must be one string; the search is made for its platform name, with
    [GRD] widened to the five GRD processing levels and [SM] to the six
    stripmap beams. Under strict semantics the values returned are
    those of the features found that start at or after [mindate] and
    stop at or before [maxdate], all of them and no others; otherwise
    those of all features found. They are returned sorted. *)
Theorem asf_select_names
    (sensor product acquisition_mode : option (arg string))
    (mindate maxdate : option date) (vectorobject : option Vector)
    (key : string) (date_strict : bool) (out : asf_result coord) :
  select_asf sensor product acquisition_mode mindate maxdate vectorobject
    (ReturnStr key) date_strict = Ok out →
  ∃ s start stop geometry features kept values,
    sensor = Some (One s) ∧
    parse_date dateutil_parse mindate = Ok start ∧
    parse_date dateutil_parse maxdate = Ok stop ∧
    asf_search (replace "S1" "Sentinel-1" s)
      (if decide (product = Some (One "GRD"))
       then Some (Many ["GRD_HD"; "GRD_MD"; "GRD_MS"; "GRD_HS"; "GRD_FD"])
       else product)
      (if decide (acquisition_mode = Some (One "SM"))
       then Some (Many ["S1"; "S2"; "S3"; "S4"; "S5"; "S6"])
       else acquisition_mode)
      start stop geometry = Ok features ∧
    (if date_strict
     then kept `sublist_of` features ∧
          ∀ x, x ∈ features →
            (x ∈ kept ↔
             ∃ t0 t1 t2 t3,
               start = Some t0 ∧ stop = Some t3 ∧
               date_extract coord strptime_iso x "startTime" = Ok t1 ∧
               date_extract coord strptime_iso x "stopTime" = Ok t2 ∧
               t0 ≤ t1 ∧ t2 ≤ t3)
     else kept = features) ∧
    Forall2 (λ x v, dict_get (properties x) key = Ok v) kept values ∧
    out = Strings (sorted values) ∧
    sorted values ≡ₚ values ∧
    StronglySorted String.le (sorted values).
Proof.
  unfold asf_select.
  intros (geometry & Hgeom & H)%bind_Ok.
  apply bind_Ok in H as (start & Hstart & H).
  apply bind_Ok in H as (stop & Hstop & H).
  apply bind_Ok in H as (platform & Hplatform & H).
  apply bind_Ok in H as (features & Hfeatures & H).
  apply bind_Ok in H as (kept & Hkept & H).
  apply bind_Ok in H as (values & Hvalues%for_each_Ok_inv & [= <-]).
  destruct sensor as [[s|?]|]; try done. injection Hplatform as <-.
  exists s, start, stop, geometry, features, kept, values.
  split; [done|]. split; [done|]. split; [done|]. split; [done|].
  split; [|split; [done|split; [done|split]]].
  - destruct date_strict; [|by injection Hkept as <-].
    apply comprehension_spec in Hkept as [Hsub Hall]. split; [done|].
    intros x Hx. destruct (Hall x Hx) as [_ ->]. unfold within. split.
    + intros (t1 & Ht1 & Hw)%bind_Ok.
      destruct start as [t0|]; [|done].
      destruct (Z.leb_spec t0 t1); [|done].
      apply bind_Ok in Hw as (t2 & Ht2 & Hw).
      destruct stop as [t3|]; [|done].
      injection Hw as Hw%Z.leb_le. by exists t0, t1, t2, t3.
    + intros (t0 & t1 & t2 & t3 & -> & -> & -> & Ht2 & H01 & H23). simpl.
      destruct (Z.leb_spec t0 t1); [|lia]. rewrite Ht2. simpl.
      f_equal. by apply Z.leb_le.
  - apply merge_sort_Permutation.
  - apply StronglySorted_merge_sort; apply _.
Qed.

End asf_objects.

Lemma asf_object_of_feature_witness :
  ∃ x,
    ASF.__init__ Z Examples.strptime_iso Examples.strftime
      Examples.feature_of_scene_b = Ok x ∧
    ID.sensor x = "S1A" ∧
    ID.product x ∈ ["GRD"; "SLC"; "SM"; "OCN"] ∧
    ID.start x = "20200103T170725" ∧ ID.stop x = "20200103T170750" ∧
    ID.sliceNumber x = -1 ∧ ID.totalSlices x = -1.
Proof.
  exists Examples.asf_scene_b.
  destruct (asf_object_of_feature Examples.strptime_iso Examples.strftime
              Examples.feature_of_scene_b Examples.asf_scene_b eq_refl)
    as (_ & _ & (platform & Hplatform & Hsensor)
        & (level & pre & post & _ & Hproduct & _)
        & (t0 & t1 & Ht0 & Ht1 & Hstart & Hstop) & Hslice & Htotal).
  injection Hplatform as <-. injection Ht0 as <-. injection Ht1 as <-.
  split; [reflexivity|]. split; [exact Hsensor|]. split; [exact Hproduct|].
  split; [exact Hstart|]. split; [exact Hstop|]. split; assumption.
Defined.

Lemma asf_object_expects_no_successor_witness :
  ASF.__init__ Z Examples.strptime_iso Examples.strftime
    Examples.feature_of_scene_b = Ok Examples.asf_scene_b ∧
  expect Z unit Examples.buffer_time Examples.asf_search
    Examples.dateutil_parse Examples.strptime_iso Examples.strftime
    (λ _, Raise ValueError) Examples.asf_scene_b []
  = (Ok ("20200103T170723", "20200103T170752", Expectation 2 false true None),
     []).
Proof.
  split; [reflexivity|].
  exact (asf_object_expects_no_successor Examples.asf_search
           Examples.dateutil_parse Examples.strptime_iso Examples.strftime
           (λ _ : unit, Raise ValueError) Examples.buffer_time
           Examples.feature_of_scene_b Examples.asf_scene_b
           "20200103T170723" "20200103T170752" [] eq_refl eq_refl).
Defined.

Lemma asf_select_names_witness :
  asf_select Z unit Examples.asf_search Examples.dateutil_parse
    Examples.strptime_iso Examples.strftime (λ _, Raise ValueError)
    (Some (One "S1A")) (Some (One "GRD")) None
    (Some (DateTime 1578071245)) (Some (DateStr "20200103T170752")) None
    (ReturnStr "sceneName") true
  = Ok (Strings [Examples.name_of_scene_b]) ∧
  ∃ values, sorted values = [Examples.name_of_scene_b] ∧
            sorted values ≡ₚ values.
Proof.
  split; [reflexivity|].
  destruct (asf_select_names Examples.asf_search Examples.dateutil_parse
              Examples.strptime_iso Examples.strftime
              (λ _ : unit, Raise ValueError)
              (Some (One "S1A")) (Some (One "GRD")) None
              (Some (DateTime 1578071245)) (Some (DateStr "20200103T170752"))
              None "sceneName" true (Strings [Examples.name_of_scene_b])
              eq_refl)
    as (s & start & stop & geometry & features & kept & values & _ & _ & _
        & _ & _ & _ & Hout & Hperm & _).
  injection Hout as Hout. exists values. split; [symmetry; exact Hout|].
  exact Hperm.
Defined.

(** ** The completeness check, scene by scene *)

Section completeness_further.
Context {coord Vector : Type}.
Variable identify_many :
  list (entry coord) → option string → res (list (ID.t coord)).
Variable buffer_time : string → string → Z → res (string * string).
Variable asf_search :
  string → option (arg string) → option (arg string) →
  option datetime → option datetime → option string →
  res (list (feature coord)).
Variable dateutil_parse : string → res datetime.
Variable strptime_iso : string → res datetime.
Variable strftime : datetime → string.
Variable wkt_4326 : Vector → res string.

Local Abbreviation names_of :=
  (reference_names coord Vector asf_search dateutil_parse strptime_iso
     strftime wkt_4326).
Local Abbreviation expected :=
  (expect coord Vector buffer_time asf_search dateutil_parse strptime_iso
     strftime wkt_4326).
Local Abbreviation check_one :=
  (check_scene coord Vector identify_many buffer_time asf_search
     dateutil_parse strptime_iso strftime wkt_4326).
Local Abbreviation asked scene start stop :=
  (Referenced (Vector := Vector) (ID.sensor scene) (ID.product scene)
     (ID.acquisition_mode scene) start stop).
Local Abbreviation searched scene start stop :=
  (Searched (Vector := Vector) None (neighbor_query coord scene start stop)).

(** The round of a scene up to the boundary conditions, case by case. *)
Lemma expect_cases (scene : ID.t coord) (tr : trace Vector) :
  expected scene tr =
  match buffer_time (ID.start scene) (ID.stop scene) 2 with
  | Raise err => (Raise err, tr)
  | Ok (start, stop) =>
      if (ID.sliceNumber scene =? 0) || (ID.totalSlices scene =? 0) then
        (names ← names_of scene start stop;
         '(rmin, rmax) ← ref_extent coord scene names;
         let first := bool_decide (rmin = ID.start scene) in
         let last := bool_decide (rmax = ID.stop scene) in
         Ok (start, stop,
             Expectation (3 - Z.b2z first - Z.b2z last) (negb last)
               (negb first) (Some names)),
         tr ++ [asked scene start stop])
      else
        let first := ID.sliceNumber scene =? 1 in
        let last := ID.sliceNumber scene =? ID.totalSlices scene in
        (Ok (start, stop,
             Expectation (3 - Z.b2z first - Z.b2z last) (negb last)
               (negb first) None),
         tr)
  end.
Proof.
  unfold expect. rewrite io_bind_unfold. unfold pure at 1.
  destruct (buffer_time _ _ _) as [[start stop]|err]; [|done].
  destruct ((ID.sliceNumber scene =? 0) || (ID.totalSlices scene =? 0)).
  - rewrite io_bind_unfold. unfold reference at 1.
    destruct (names_of scene start stop) as [names|err]; [|done]. simpl.
    rewrite io_bind_unfold. unfold pure at 1.
    destruct (ref_extent coord scene names) as [[rmin rmax]|err]; [|done].
    simpl. repeat case_decide; repeat case_bool_decide; done.
  - by destruct (ID.sliceNumber scene =? 1),
         (ID.sliceNumber scene =? ID.totalSlices scene).
Qed.

Lemma expect_Ok_inv (scene : ID.t coord) (tr tr' : trace Vector)
    (start stop : string) (e : expectation) :
  expected scene tr = (Ok (start, stop, e), tr') →
  buffer_time (ID.start scene) (ID.stop scene) 2 = Ok (start, stop) ∧
  groupsize e = 1 + Z.b2z (has_predecessor e) + Z.b2z (has_successor e) ∧
  match ref e with
  | None =>
      ID.sliceNumber scene ≠ 0 ∧ ID.totalSlices scene ≠ 0 ∧ tr' = tr ∧
      has_predecessor e = negb (ID.sliceNumber scene =? 1) ∧
      has_successor e = negb (ID.sliceNumber scene =? ID.totalSlices scene)
  | Some names =>
      (ID.sliceNumber scene = 0 ∨ ID.totalSlices scene = 0) ∧
      names_of scene start stop = Ok names ∧
      tr' = tr ++ [asked scene start stop]
  end.
Proof.
  rewrite expect_cases.
  destruct (buffer_time _ _ _) as [[start' stop']|err]; [|done].
  destruct ((ID.sliceNumber scene =? 0) || (ID.totalSlices scene =? 0))
    eqn:Hzero.
  - destruct (names_of scene start' stop') as [names|err] eqn:Hnames;
      [|done]. simpl.
    destruct (ref_extent coord scene names) as [[rmin rmax]|err]; [|done].
    simpl. intros [= <- <- <- <-]. simpl.
    split; [done|]. split; [by repeat case_bool_decide|].
    split; [|done]. apply orb_true_iff in Hzero as [?%Z.eqb_eq|?%Z.eqb_eq]; auto.
  - apply orb_false_iff in Hzero as [?%Z.eqb_neq ?%Z.eqb_neq].
    intros [= <- <- <- <-]. simpl. split; [done|]. split; [|done].
    by destruct (ID.sliceNumber scene =? 1),
         (ID.sliceNumber scene =? ID.totalSlices scene).
Qed.

(** The round of a scene after the boundary conditions, case by case. *)
Lemma check_scene_cases (a : archive coord Vector) (scene : ID.t coord)
    (tr : trace Vector) :
  check_one a scene tr =
  match expected scene tr with
  | (Raise err, tr1) => (Raise err, tr1)
  | (Ok (start, stop, e), tr1) =>
      let tr2 := tr1 ++ [searched scene start stop] in
      match archive_select a None (neighbor_query coord scene start stop) with
      | Raise err => (Raise err, tr2)
      | Ok found =>
          match identify_many found None with
          | Raise err => (Raise err, tr2)
          | Ok group =>
              if Z.of_nat (length group) <? groupsize e then
                (names ← match ref e with
                         | None => names_of scene start stop
                         | Some names => Ok names
                         end;
                 '(rmin, rmax) ← ref_extent coord scene names;
                 smin ← Py.min str_le (ID.start <$> group);
                 smax ← Py.max str_le (ID.stop <$> group);
                 let missing := missing_of e start stop rmin rmax smin smax in
                 Ok (if decide (0 < length missing)%nat
                     then Some (join " and " missing
                                +:+ " acquisition for scene "
                                +:+ basename (ID.scene scene))
                     else None),
                 match ref e with
                 | None => tr2 ++ [asked scene start stop]
                 | Some _ => tr2
                 end)
              else (Ok None, tr2)
          end
      end
  end.
Proof.
  unfold check_scene. rewrite io_bind_unfold.
  destruct (expected scene tr) as [[[[start stop] e]|err] tr1]; [|done].
  cbv beta iota zeta. rewrite io_bind_unfold. unfold search at 1.
  destruct (archive_select a None _) as [found|err]; [|done].
  rewrite io_bind_unfold. unfold pure at 1.
  destruct (identify_many found None) as [group|err]; [|done].
  destruct (Z.of_nat (length group) <? groupsize e); [|done].
  rewrite io_bind_unfold.
  assert (∀ names tr3,
    (pure (ref_extent coord scene names) ≫= λ '(rmin, rmax),
       smin ← pure (Py.min str_le (ID.start <$> group));
       smax ← pure (Py.max str_le (ID.stop <$> group));
       let missing := missing_of e start stop rmin rmax smin smax in
       if decide (0 < length missing)%nat
       then mret (Some (join " and " missing +:+ " acquisition for scene "
                        +:+ basename (ID.scene scene)))
       else mret None) tr3
    = ('(rmin, rmax) ← ref_extent coord scene names;
       smin ← Py.min str_le (ID.start <$> group);
       smax ← Py.max str_le (ID.stop <$> group);
       let missing := missing_of e start stop rmin rmax smin smax in
       Ok (if decide (0 < length missing)%nat
           then Some (join " and " missing +:+ " acquisition for scene "
                      +:+ basename (ID.scene scene))
           else None), tr3 : trace Vector)) as Hrest.
  { intros names tr3. rewrite io_bind_unfold. unfold pure at 1.
    destruct (ref_extent coord scene names) as [[rmin rmax]|err]; [|done].
    simpl. rewrite io_bind_unfold. unfold pure at 1.
    destruct (Py.min str_le (ID.start <$> group)) as [smin|err]; [|done].
    simpl. rewrite io_bind_unfold. unfold pure at 1.
    destruct (Py.max str_le (ID.stop <$> group)) as [smax|err]; [|done].
    simpl. by case_decide. }
  destruct (ref e) as [names|].
  - unfold mret at 1, io_ret at 1. cbv beta iota. by rewrite Hrest.
  - unfold reference at 1.
    destruct (names_of scene start stop) as [names|err]; [|done].
    cbv beta iota. by rewrite Hrest.
Qed.

(** X15. What the check expects of a scene. After the boundary
    conditions the expected size of the group is one, for the scene
    itself, and one more for each of the two neighbours that is
    expected, so it lies between 1 and 3. The reference catalog has been
    asked, once and for the buffered window, exactly when the slice
    number or the number of slices is 0; otherwise nothing has been
    asked, a predecessor is expected unless the slice number is 1 and a
    successor unless the slice number is the number of slices. *)
Theorem expectation_invariant (scene : ID.t coord) (tr tr' : trace Vector)
    (start stop : string) (e : expectation) :
  expected scene tr = (Ok (start, stop, e), tr') →
  buffer_time (ID.start scene) (ID.stop scene) 2 = Ok (start, stop) ∧
  groupsize e = 1 + Z.b2z (has_predecessor e) + Z.b2z (has_successor e) ∧
  1 ≤ groupsize e ≤ 3 ∧
  match ref e with
  | None =>
      ID.sliceNumber scene ≠ 0 ∧ ID.totalSlices scene ≠ 0 ∧ tr' = tr ∧
      has_predecessor e = negb (ID.sliceNumber scene =? 1) ∧
      has_successor e = negb (ID.sliceNumber scene =? ID.totalSlices scene)
  | Some names =>
      (ID.sliceNumber scene = 0 ∨ ID.totalSlices scene = 0) ∧
      names_of scene start stop = Ok names ∧
      tr' = tr ++ [asked scene start stop]
  end.
Proof.
  intros (Hbuf & Hsize & Href)%expect_Ok_inv.
  split; [done|]. split; [done|]. split; [|done].
  rewrite Hsize. destruct (has_predecessor e), (has_successor e); simpl; lia.
Qed.

(** X16. A scene whose group in the archive has at least the expected
    size passes: after the boundary conditions the round makes the
    search of the archive, asks the reference catalog nothing more and
    yields no message. In particular a group of three scenes or more
    always passes. *)
Theorem complete_group_passes
    (a : archive coord Vector) (scene : ID.t coord) (tr tr1 : trace Vector)
    (start stop : string) (e : expectation)
    (found : list (entry coord)) (group : list (ID.t coord)) :
  expected scene tr = (Ok (start, stop, e), tr1) →
  archive_select a None (neighbor_query coord scene start stop) = Ok found →
  identify_many found None = Ok group →
  (groupsize e ≤ Z.of_nat (length group) ∨ (3 ≤ length group)%nat) →
  check_one a scene tr = (Ok None, tr1 ++ [searched scene start stop]).
Proof.
  intros Hexp Hsel Hid Hsize. rewrite check_scene_cases, Hexp. cbv zeta.
  rewrite Hsel, Hid.
  apply expect_Ok_inv in Hexp as (_ & Hgs & _).
  destruct (Z.ltb_spec (Z.of_nat (length group)) (groupsize e)); [|done].
  destruct (has_predecessor e), (has_successor e); simpl in Hgs; lia.
Qed.

(** X17. A scene for which the archive returns an empty group, not even
    the scene itself, never passes and is never reported as missing a
    neighbour: its round ends in an error. When the reference catalog
    answers and its scene names can be parsed, the error is the
    [ValueError] of [min] on the empty list of starts. *)
Theorem empty_group_is_an_error
    (a : archive coord Vector) (scene : ID.t coord) (tr tr1 : trace Vector)
    (start stop : string) (e : expectation) (found : list (entry coord)) :
  expected scene tr = (Ok (start, stop, e), tr1) →
  archive_select a None (neighbor_query coord scene start stop) = Ok found →
  identify_many found None = Ok [] →
  ∃ err tr', check_one a scene tr = (Raise err, tr') ∧
    (∀ names extent,
       names_of scene start stop = Ok names →
       ref_extent coord scene names = Ok extent →
       err = ValueError).
Proof.
  intros Hexp Hsel Hid. rewrite check_scene_cases, Hexp. cbv zeta.
  rewrite Hsel, Hid.
  apply expect_Ok_inv in Hexp as (_ & Hgs & Href).
  destruct (Z.ltb_spec (Z.of_nat (length (@nil (ID.t coord)))) (groupsize e))
    as [_|Hge].
  2: { destruct (has_predecessor e), (has_successor e); simpl in *; lia. }
  assert (match ref e with
          | None => names_of scene start stop
          | Some names => Ok names
          end = names_of scene start stop) as ->.
  { destruct (ref e) as [names|]; [|done]. by destruct Href as (_ & -> & _). }
  destruct (names_of scene start stop) as [names|err]; simpl.
  2: { eexists _, _. split; [done|]. intros; discriminate. }
  destruct (ref_extent coord scene names) as [[rmin rmax]|err] eqn:Hext; simpl.
  2: { eexists _, _. split; [done|]. intros ? ? [= <-]. congruence. }
  eexists _, _. split; [done|]. done.
Qed.

(** X18. The queries of one round. A round whose time buffer fails
    asks nothing. Every other round, whether it succeeds or fails, makes
    at most one search of the archive and asks the reference catalog at
    most once, both for the buffered window of the scene: it ends after
    the question to the reference catalog, after the search, or after
    both in either order. A round that returns has made the search. *)
Theorem check_scene_queries
    (a : archive coord Vector) (scene : ID.t coord) (tr tr' : trace Vector)
    (r : res (option string)) :
  check_one a scene tr = (r, tr') →
  match buffer_time (ID.start scene) (ID.stop scene) 2 with
  | Raise err => r = Raise err ∧ tr' = tr
  | Ok (start, stop) =>
      let R := asked scene start stop in
      let S := searched scene start stop in
      ∃ evs, tr' = tr ++ evs ∧ evs ∈ [[R]; [S]; [R; S]; [S; R]] ∧
        (∀ m, r = Ok m → S ∈ evs)
  end.
Proof.
  rewrite check_scene_cases, expect_cases.
  destruct (buffer_time _ _ _) as [[start stop]|err]; [|by intros [= <- <-]].
  cbv zeta.
  destruct ((ID.sliceNumber scene =? 0) || (ID.totalSlices scene =? 0)).
  - destruct (names_of scene start stop) as [names|err]; simpl.
    2: { intros [= <- <-]. eexists. split; [done|]. split; [|done]. set_solver. }
    destruct (ref_extent coord scene names) as [[rmin rmax]|err]; simpl.
    2: { intros [= <- <-]. eexists. split; [done|]. split; [|done]. set_solver. }
    intros Hrun.
    exists [asked scene start stop; searched scene start stop].
    split; [|split; [set_solver|intros; set_solver]].
    rewrite <- app_assoc in Hrun. simpl in Hrun.
    destruct (archive_select a None _) as [found|err]; [|by injection Hrun].
    destruct (identify_many found None) as [group|err]; [|by injection Hrun].
    destruct (_ <? _); by injection Hrun.
  - intros Hrun.
    destruct (archive_select a None _) as [found|err].
    2: { injection Hrun as <- <-. eexists. split; [done|].
         split; [|done]. set_solver. }
    destruct (identify_many found None) as [group|err].
    2: { injection Hrun as <- <-. eexists. split; [done|].
         split; [|done]. set_solver. }
    destruct (_ <? _).
    + simpl in Hrun. injection Hrun as <- <-.
      exists [searched scene start stop; asked scene start stop].
      split; [by rewrite <- app_assoc|]. split; [set_solver|intros; set_solver].
    + injection Hrun as <- <-. eexists. split; [done|].
      split; [set_solver|intros; set_solver].
Qed.

End completeness_further.

Lemma expectation_invariant_witness :
  ∃ e tr,
    Examples.run_expect Examples.slice_1_of_0 []
    = (Ok ("20200103T170723", "20200103T170752", e), tr) ∧
    groupsize e = 1 + Z.b2z (has_predecessor e) + Z.b2z (has_successor e) ∧
    tr = [Referenced "S1A" "GRD" "IW" "20200103T170723" "20200103T170752"].
Proof.
  destruct (Examples.run_expect Examples.slice_1_of_0 []) as [r tr] eqn:Hrun.
  assert (∃ e, r = Ok ("20200103T170723", "20200103T170752", e)) as [e ->].
  { vm_compute in Hrun. injection Hrun as <- _. by eexists. }
  exists e, tr. split; [reflexivity|].
  destruct (expectation_invariant Examples.buffer_time Examples.asf_search
              Examples.dateutil_parse Examples.strptime_iso (λ _, "")
              (λ _ : unit, Raise ValueError) Examples.slice_1_of_0 [] tr
              "20200103T170723" "20200103T170752" e Hrun)
    as (_ & Hsize & _ & Href).
  split; [exact Hsize|].
  destruct (ref e) as [names|].
  - destruct Href as (_ & _ & ->). reflexivity.
  - by destruct Href as (Hslice & Htotal & _).
Defined.

Lemma complete_group_passes_witness :
  Examples.run_check_scene Examples.only_scene_b Examples.single_slice []
  = (Ok None,
     [Searched None
        (neighbor_query Z Examples.single_slice
           "20200103T170723" "20200103T170752")]).
Proof.
  apply (complete_group_passes Examples.identify_many Examples.buffer_time
           Examples.asf_search Examples.dateutil_parse Examples.strptime_iso
           (λ _, "") (λ _ : unit, Raise ValueError)
           Examples.only_scene_b Examples.single_slice [] []
           "20200103T170723" "20200103T170752"
           (Expectation 1 false false None)
           [Path Examples.scene_b] [Examples.slice_2_of_5]).
  - reflexivity.
  - reflexivity.
  - reflexivity.
  - left. simpl. lia.
Defined.

Lemma empty_group_is_an_error_witness :
  ∃ tr,
    Examples.run_check_scene Examples.empty_archive Examples.slice_2_of_5 []
    = (Raise ValueError, tr).
Proof.
  destruct (empty_group_is_an_error Examples.identify_many
              Examples.buffer_time Examples.asf_search
              Examples.dateutil_parse Examples.strptime_iso (λ _, "")
              (λ _ : unit, Raise ValueError)
              Examples.empty_archive Examples.slice_2_of_5 [] []
              "20200103T170723" "20200103T170752"
              (Expectation 3 true true None) [] eq_refl eq_refl eq_refl)
    as (err & tr & Hrun & Herr).
  rewrite (Herr [Examples.name_of_earlier; Examples.name_of_scene_b]
             ("20200103T170724", "20200103T170750") eq_refl eq_refl) in Hrun.
  by exists tr.
Defined.

Lemma check_scene_queries_witness :
  ∃ r evs,
    Examples.run_check_scene Examples.only_scene_b Examples.slice_2_of_5 []
    = (r, evs) ∧ (1 ≤ length evs ≤ 2)%nat.
Proof.
  destruct (Examples.run_check_scene Examples.only_scene_b
              Examples.slice_2_of_5 []) as [r tr] eqn:Hrun.
  exists r, tr. split; [reflexivity|].
  destruct (check_scene_queries Examples.identify_many Examples.buffer_time
              Examples.asf_search Examples.dateutil_parse
              Examples.strptime_iso (λ _, "") (λ _ : unit, Raise ValueError)
              Examples.only_scene_b Examples.slice_2_of_5 [] tr r Hrun)
    as (evs & -> & Hin & _).
  repeat (apply elem_of_cons in Hin as [->|Hin]; [simpl; lia|]).
  by apply elem_of_nil in Hin.
Defined.

(** ** [scene_select]: the other modes and the keyword arguments *)

Section selection_further.
Context {coord Vector : Type}.
Variable identify_many :
  list (entry coord) → option string → res (list (ID.t coord)).
Variable geometry : ID.t coord → res Vector.
Variable Vector_open : string → res Vector.
Variable strptime : string → res datetime.
Variable tile_geometry : string → string → res Vector.
Variable tiles_overlapping :
  string → list Vector → res (list (string * Vector)).

Local Abbreviation select_scenes :=
  (scene_select coord Vector identify_many geometry Vector_open strptime
     tile_geometry tiles_overlapping).
Local Abbreviation prepared := (prepare coord Vector).
Local Abbreviation twice :=
  (TypeError "got multiple values for keyword argument 'vectorobject'").

(** The value of [acquisition_mode] that reaches the archive. *)
Local Abbreviation mode_of kwargs :=
  (match kwargs !! "acquisition_mode" with
   | None => VNone
   | Some v => if decide (v = VStr "SM")
               then VTuple ["S1"; "S2"; "S3"; "S4"; "S5"; "S6"]
               else v
   end).

Lemma prepare_lookup (a : archive coord Vector) (kwargs : gmap string value) :
  prepared a kwargs !! "acquisition_mode" = Some (mode_of kwargs) ∧
  prepared a kwargs !! "return_value" =
    (if is_ASFArchive a then Some VClassASF else kwargs !! "return_value") ∧
  ∀ k, k ≠ "acquisition_mode" → k ≠ "return_value" →
       prepared a kwargs !! k = kwargs !! k.
Proof.
  unfold prepare.
  destruct (kwargs !! "acquisition_mode") as [v|] eqn:Hmode.
  - destruct (decide (is_Some (Some v))) as [_|Hno]; [|by destruct Hno].
    rewrite Hmode.
    destruct (decide (Some v = Some (VStr "SM"))) as [[= ->]|Hne].
    + rewrite decide_True by done.
      destruct (is_ASFArchive a); repeat split; intros; by simplify_map_eq.
    + rewrite decide_False by congruence.
      destruct (is_ASFArchive a); repeat split; intros; by simplify_map_eq.
  - destruct (decide (is_Some None)) as [[? [=]]|_].
    rewrite lookup_insert_eq.
    destruct (decide (Some VNone = Some (VStr "SM"))) as [[=]|_].
    destruct (is_ASFArchive a); repeat split; intros; by simplify_map_eq.
Qed.

(** With [vectorobject] among the keyword arguments no search reaches
    the archive. *)
Lemma for_io_search_kw_twice (a : archive coord Vector)
    (args : gmap string value) (vec : list Vector) (tr : trace Vector) :
  is_Some (args !! "vectorobject") →
  for_io (λ item, search_kw a (Some item) args) vec tr =
  (match vec with [] => Ok [] | _ :: _ => Raise twice end, tr).
Proof.
  intros Hkey. destruct vec as [|g vec]; [done|]. simpl.
  rewrite io_bind_unfold. unfold search_kw. by rewrite decide_True.
Qed.

Lemma sorted_set_entries_nil :
  sorted_set_entries (coord := coord) [] = Ok [].
Proof.
  unfold sorted_set_entries, sorted_set. simpl.
  by rewrite elements_empty.
Qed.

(** X19. With a geometry file given and no tiles, [scene_select] opens
    the file, returns the identifiers of the tiles that overlap with
    its geometry, and makes exactly one search, with that geometry; the
    scene list holds the locations found, sorted and free of
    duplicates. With tiles given, a geometry file given as well is not
    even opened. *)
Theorem scene_select_by_geometry
    (a : archive coord Vector) (kml_file : string) (file : string)
    (kwargs : gmap string value) (tr tr' : trace Vector)
    (scenes : list (entry coord)) (tiles : arg string) :
  (∀ given,
     select_scenes a kml_file (Some given) (Some file) kwargs tr =
     select_scenes a kml_file (Some given) None kwargs tr) ∧
  (select_scenes a kml_file None (Some file) kwargs tr
     = (Ok (scenes, tiles), tr') →
   ∃ v found selection,
     Vector_open file = Ok v ∧
     tiles_overlapping kml_file [v] = Ok found ∧
     tiles = Many found.*1 ∧
     let args := if is_ASFArchive a
                 then <["return_value" := VStr "url"]> (prepared a kwargs)
                 else prepared a kwargs in
     archive_select a (Some v) args = Ok selection ∧
     tr' = tr ++ [Searched (Some v) args] ∧
     sorted_set_entries selection = Ok scenes ∧
     StronglySorted entry_lt scenes ∧
     (∀ p, p ∈ paths_of scenes ↔ p ∈ paths_of selection)).
Proof.
  split; [done|].
  intros (vec & args0 & tr1 & results & Hmode & Hall & -> & Hset)%scene_select_end.
  apply io_bind_Ok in Hmode as (v & ? & [Hv ->]%pure_Ok & Hmode).
  apply io_bind_Ok in Hmode as (found & ? & [Hfound ->]%pure_Ok & Hmode).
  injection Hmode as <- <- <- <-.
  apply Forall2_cons_inv_l in Hall as (selection & rest & Hsel & Hrest & ->).
  apply Forall2_nil_inv_l in Hrest as ->.
  simpl in Hset. rewrite app_nil_r in Hset.
  pose proof (sorted_set_entries_spec _ _ Hset) as (Hsorted & Hpaths & _).
  by exists v, found, selection.
Qed.

(** X20. With neither tiles nor a geometry given, a first search that
    finds nothing makes [scene_select] fail with [IndexError], after
    that one search: it does not return an empty selection. *)
Theorem scene_select_nothing_found
    (a : archive coord Vector) (kml_file : string)
    (kwargs : gmap string value) (tr : trace Vector) :
  kwargs !! "vectorobject" = None →
  archive_select a None (prepared a kwargs) = Ok [] →
  select_scenes a kml_file None None kwargs tr =
  (Raise IndexError, tr ++ [Searched None (prepared a kwargs)]).
Proof.
  intros Hkey Hsel. unfold scene_select, first_search.
  destruct (prepare_lookup a kwargs) as (_ & _ & Hother).
  rewrite !io_bind_unfold. unfold search_kw.
  rewrite decide_False.
  2: { rewrite Hother, Hkey by done. by intros [? ?]. }
  unfold search. by rewrite Hsel.
Qed.

(** X21. [vectorobject] is not a keyword argument of [scene_select]:
    when [kwargs] holds it, no search reaches the archive, whatever the
    mode. Without tiles the call fails, with [TypeError] for the
    argument given twice when no geometry file is given either; and a
    call that returns, for want of any tile to search, returns no
    scene. *)
Theorem scene_select_vectorobject_keyword
    (a : archive coord Vector) (kml_file : string)
    (aoi_tiles : option (arg string)) (aoi_geometry : option string)
    (kwargs : gmap string value) (tr tr' : trace Vector)
    (r : res (list (entry coord) * arg string)) :
  is_Some (kwargs !! "vectorobject") →
  select_scenes a kml_file aoi_tiles aoi_geometry kwargs tr = (r, tr') →
  tr' = tr ∧
  (aoi_tiles = None → ∃ e, r = Raise e) ∧
  (aoi_tiles = None → aoi_geometry = None → r = Raise twice) ∧
  (∀ scenes tiles, r = Ok (scenes, tiles) → scenes = []).
Proof.
  intros Hkey.
  destruct (prepare_lookup a kwargs) as (_ & _ & Hother).
  assert (is_Some (prepared a kwargs !! "vectorobject")) as Hkey1
    by (by rewrite Hother).
  assert (is_Some ((if is_ASFArchive a
                    then <["return_value" := VStr "url"]> (prepared a kwargs)
                    else prepared a kwargs) !! "vectorobject")) as Hkey2.
  { destruct (is_ASFArchive a); [|done]. by rewrite lookup_insert_ne. }
  assert (∀ (vec : list Vector) (given : arg string),
    (selection ← for_io (λ item, search_kw a (Some item)
                           (if is_ASFArchive a
                            then <["return_value" := VStr "url"]>
                                   (prepared a kwargs)
                            else prepared a kwargs)) vec;
     scenes ← pure (sorted_set_entries (concat selection));
     mret (scenes, given)) tr
    = (match vec with
       | [] => Ok ([], given)
       | _ :: _ => Raise twice
       end, tr)) as Hloop.
  { intros vec given. rewrite io_bind_unfold, for_io_search_kw_twice by done.
    destruct vec; [|done]. simpl. rewrite io_bind_unfold. unfold pure.
    by rewrite sorted_set_entries_nil. }
  unfold scene_select. rewrite io_bind_unfold.
  destruct aoi_tiles as [given|]; [|destruct aoi_geometry as [file|]].
  - rewrite io_bind_unfold. unfold pure at 1.
    destruct (aoi_from_tile Vector tile_geometry kml_file given) as [v|e].
    + cbv beta iota. unfold mret at 1, io_ret at 1. cbv beta iota.
      rewrite Hloop. intros [= <- <-]. split; [done|].
      split; [done|]. split; [done|].
      intros scenes tiles. by destruct (listify v); intros [= <- <-].
    + intros [= <- <-]. by repeat split.
  - rewrite io_bind_unfold. unfold pure at 1.
    destruct (Vector_open file) as [v|e].
    2: { intros [= <- <-]. repeat split; [by eexists|done..]. }
    cbv beta iota. rewrite io_bind_unfold. unfold pure at 1.
    destruct (tile_from_aoi Vector tiles_overlapping [v] kml_file) as [found|e].
    2: { intros [= <- <-]. repeat split; [by eexists|done..]. }
    cbv beta iota. unfold mret at 1, io_ret at 1. cbv beta iota.
    rewrite Hloop. intros [= <- <-]. repeat split; [by eexists|done..].
  - unfold first_search. rewrite !io_bind_unfold. unfold search_kw at 1.
    rewrite decide_True by done. unfold pure at 1.
    intros [= <- <-]. repeat split; [by eexists|done].
Qed.

(** X22. The keyword arguments that reach the archive when
    [scene_select] returns. Every search carries an [acquisition_mode]:
    [None] if none was given, the six stripmap beams for [SM], the
    value given otherwise. An [ASFArchive] is asked for ASF objects in
    the search without geometry and for URLs in the searches with a
    geometry; any other archive gets [return_value] as it was given.
    The search without geometry is made only when neither tiles nor a
    geometry file are given; only then are [mindate] and [maxdate] of
    the later searches replaced. Every other keyword argument reaches
    every search unchanged. *)
Theorem scene_select_search_arguments
    (a : archive coord Vector) (kml_file : string)
    (aoi_tiles : option (arg string)) (aoi_geometry : option string)
    (kwargs : gmap string value) (tr tr' : trace Vector)
    (scenes : list (entry coord)) (tiles : arg string) :
  select_scenes a kml_file aoi_tiles aoi_geometry kwargs tr
    = (Ok (scenes, tiles), tr') →
  ∃ evs, tr' = tr ++ evs ∧
    ∀ vo args, Searched vo args ∈ evs →
      args !! "acquisition_mode" = Some (mode_of kwargs) ∧
      args !! "return_value" =
        (if is_ASFArchive a
         then Some (match vo with None => VClassASF | Some _ => VStr "url" end)
         else kwargs !! "return_value") ∧
      (∀ k, k ≠ "acquisition_mode" → k ≠ "return_value" →
            k ≠ "mindate" → k ≠ "maxdate" → args !! k = kwargs !! k) ∧
      (vo = None → aoi_tiles = None ∧ aoi_geometry = None) ∧
      (vo = None ∨ is_Some aoi_tiles ∨ is_Some aoi_geometry →
         args !! "mindate" = kwargs !! "mindate" ∧
         args !! "maxdate" = kwargs !! "maxdate").
Proof.
  intros (vec & args0 & tr1 & results & Hmode & _ & -> & _)%scene_select_end.
  destruct (prepare_lookup a kwargs) as (Hacq & Hret & Hother).
  assert (∀ vo args,
    Searched vo args ∈
      ((λ g, Searched (Some g)
               (if is_ASFArchive a
                then <["return_value" := VStr "url"]> (prepared a kwargs)
                else prepared a kwargs)) <$> vec) →
    args !! "acquisition_mode" = Some (mode_of kwargs) ∧
    args !! "return_value" =
      (if is_ASFArchive a
       then Some (match vo with None => VClassASF | Some _ => VStr "url" end)
       else kwargs !! "return_value") ∧
    (∀ k, k ≠ "acquisition_mode" → k ≠ "return_value" →
          k ≠ "mindate" → k ≠ "maxdate" → args !! k = kwargs !! k) ∧
    vo ≠ None ∧
    args !! "mindate" = kwargs !! "mindate" ∧
    args !! "maxdate" = kwargs !! "maxdate") as Hplain.
  { intros vo args (g & [= -> ->] & _)%list_elem_of_fmap.
    destruct (is_ASFArchive a).
    - split; [by rewrite lookup_insert_ne|].
      split; [by rewrite lookup_insert_eq|].
      split; [intros k ? ? ? ?; rewrite lookup_insert_ne by done;
              by apply Hother|].
      split; [done|].
      rewrite !lookup_insert_ne by done. by rewrite !Hother.
    - split; [done|]. split; [done|].
      split; [intros k ? ? ? ?; by apply Hother|].
      split; [done|]. by rewrite !Hother. }
  destruct aoi_tiles as [given|]; [|destruct aoi_geometry as [file|]].
  - apply io_bind_Ok in Hmode as (v & ? & [Hv ->]%pure_Ok & Hmode).
    injection Hmode as <- <- <- <-. eexists. split; [done|].
    intros vo args (? & ? & ? & ? & ?)%Hplain.
    split; [done|]. split; [done|]. split; [done|]. split; [done|]. done.
  - apply io_bind_Ok in Hmode as (v & ? & [Hv ->]%pure_Ok & Hmode).
    apply io_bind_Ok in Hmode as (found & ? & [Hfound ->]%pure_Ok & Hmode).
    injection Hmode as <- <- <- <-. eexists. split; [done|].
    intros vo args (? & ? & ? & ? & ?)%Hplain.
    split; [done|]. split; [done|]. split; [done|]. split; [done|]. done.
  - apply io_bind_Ok in Hmode as ([[vec0 found0] args'] & t1 & Hfirst & Hmode).
    injection Hmode as <- <- <- <-.
    unfold first_search in Hfirst.
    apply io_bind_Ok in Hfirst as (selection_tmp & t2 & Hsel & Hfirst).
    unfold search_kw in Hsel. case_decide; [done|].
    unfold search in Hsel. injection Hsel as Hsel <-.
    apply io_bind_Ok in Hfirst as (phase1 & ? & [_ ->]%pure_Ok & Hfirst).
    apply io_bind_Ok in Hfirst as (footprints & ? & [_ ->]%pure_Ok & Hfirst).
    apply io_bind_Ok in Hfirst as (found & ? & [_ ->]%pure_Ok & Hfirst).
    apply io_bind_Ok in Hfirst as (starts & ? & [_ ->]%pure_Ok & Hfirst).
    apply io_bind_Ok in Hfirst as (mindate & ? & [_ ->]%pure_Ok & Hfirst).
    apply io_bind_Ok in Hfirst as (stops & ? & [_ ->]%pure_Ok & Hfirst).
    apply io_bind_Ok in Hfirst as (maxdate & ? & [_ ->]%pure_Ok & Hfirst).
    injection Hfirst as <- <- <- <-.
    eexists. split; [by rewrite <- app_assoc|].
    intros vo args [Hev|Hev]%elem_of_app.
    + apply list_elem_of_singleton in Hev as [= -> ->].
      split; [done|]. split; [by destruct (is_ASFArchive a)|].
      split; [intros k ? ? ? ?; by apply Hother|]. split; [done|].
      intros _. by rewrite !Hother.
    + apply list_elem_of_fmap in Hev as (g & [= -> ->] & _).
      split; [|split; [|split; [|split; [done|]]]].
      * destruct (is_ASFArchive a); by simplify_map_eq.
      * destruct (is_ASFArchive a); by simplify_map_eq.
      * intros k ? ? ? ?.
        destruct (is_ASFArchive a); simplify_map_eq; by apply Hother.
      * intros [?|[[? ?]|[? ?]]]; done.
Qed.

End selection_further.

Lemma scene_select_by_geometry_witness :
  let args := <["acquisition_mode" := VNone]> (∅ : gmap string value) in
  Examples.run_scene_select Examples.by_tile "grid.kml" None (Some "32TNT")
    ∅ []
  = (Ok ([Path Examples.scene_a1; Path Examples.scene_b],
         Many ["32TNT"; "32TPT"]),
     [Searched (Some "32TNT") args]) ∧
  StronglySorted (entry_lt (coord := Z))
    [Path Examples.scene_a1; Path Examples.scene_b].
Proof.
  intros args.
  assert (Examples.run_scene_select Examples.by_tile "grid.kml" None
            (Some "32TNT") ∅ []
          = (Ok ([Path Examples.scene_a1; Path Examples.scene_b],
                 Many ["32TNT"; "32TPT"]),
             [Searched (Some "32TNT") args]))
    as Hrun by (vm_compute; reflexivity).
  split; [exact Hrun|].
  destruct (scene_select_by_geometry Examples.identify_many
              (λ _, Ok "footprint") (λ file, Ok file) Examples.strptime
              Examples.tile_geometry Examples.tiles_overlapping
              Examples.by_tile "grid.kml" "32TNT" ∅ []
              [Searched (Some "32TNT") args]
              [Path Examples.scene_a1; Path Examples.scene_b]
              (Many ["32TNT"; "32TPT"])) as [_ Hfile].
  destruct (Hfile Hrun)
    as (v & found & selection & _ & _ & _ & _ & _ & _ & Hsorted & _).
  exact Hsorted.
Defined.

Lemma scene_select_nothing_found_witness :
  Examples.run_scene_select Examples.empty_archive "grid.kml" None None ∅ []
  = (Raise IndexError,
     [Searched None (<["acquisition_mode" := VNone]> ∅)]).
Proof.
  assert ((∅ : gmap string value) !! "vectorobject" = None) as Hnone
    by (vm_compute; reflexivity).
  unfold Examples.run_scene_select.
  rewrite (scene_select_nothing_found Examples.identify_many
             (λ _, Ok "footprint") (λ file, Ok file) Examples.strptime
             Examples.tile_geometry Examples.tiles_overlapping
             Examples.empty_archive "grid.kml" ∅ [] Hnone eq_refl).
  vm_compute. reflexivity.
Defined.

Lemma scene_select_vectorobject_keyword_witness :
  Examples.run_scene_select Examples.by_tile "grid.kml" None None
    (<["vectorobject" := VStr "aoi.gpkg"]> ∅) []
  = (Raise
       (TypeError "got multiple values for keyword argument 'vectorobject'"),
     []).
Proof.
  destruct (Examples.run_scene_select Examples.by_tile "grid.kml" None None
              (<["vectorobject" := VStr "aoi.gpkg"]> ∅) [])
    as [r tr] eqn:Hrun.
  destruct (scene_select_vectorobject_keyword Examples.identify_many
              (λ _, Ok "footprint") (λ file, Ok file) Examples.strptime
              Examples.tile_geometry Examples.tiles_overlapping
              Examples.by_tile "grid.kml" None None
              (<["vectorobject" := VStr "aoi.gpkg"]> ∅) [] tr r)
    as (-> & _ & Htwice & _).
  - exists (VStr "aoi.gpkg"). vm_compute. reflexivity.
  - exact Hrun.
  - rewrite (Htwice eq_refl eq_refl). reflexivity.
Defined.

Lemma scene_select_search_arguments_witness :
  let kwargs : gmap string value :=
    <["acquisition_mode" := VStr "SM"]> (<["product" := VStr "GRD"]> ∅) in
  ∃ scenes tiles evs,
    Examples.run_scene_select Examples.by_tile "grid.kml"
      (Some (Many ["32TNT"])) None kwargs []
    = (Ok (scenes, tiles), evs) ∧
    ∀ vo args, Searched vo args ∈ evs →
      args !! "acquisition_mode"
        = Some (VTuple ["S1"; "S2"; "S3"; "S4"; "S5"; "S6"]) ∧
      args !! "product" = Some (VStr "GRD").
Proof.
  intros kwargs.
  destruct (Examples.run_scene_select Examples.by_tile "grid.kml"
              (Some (Many ["32TNT"])) None kwargs []) as [r tr] eqn:Hrun.
  assert (∃ scenes tiles, r = Ok (scenes, tiles)) as (scenes & tiles & ->).
  { vm_compute in Hrun. injection Hrun as <- _. by eexists _, _. }
  exists scenes, tiles, tr. split; [reflexivity|].
  destruct (scene_select_search_arguments Examples.identify_many
              (λ _, Ok "footprint") (λ file, Ok file) Examples.strptime
              Examples.tile_geometry Examples.tiles_overlapping
              Examples.by_tile "grid.kml" (Some (Many ["32TNT"])) None
              kwargs [] tr scenes tiles Hrun) as (evs & -> & Hall).
  intros vo args Hin.
  destruct (Hall vo args Hin) as (Hmode & _ & Hother & _).
  split; [exact Hmode|]. by rewrite Hother.
Defined.
